(** * PyRobBot: the Gemini session manager

    A shallow embedding of [pyrobbot/chat_config_new.py],
    [pyrobbot/gemini_utils.py], [pyrobbot/chat_new.py] and the terminal
    front end of [pyrobbot/command_definitions_new.py].

    Conventions.
    - A Python [str] is a [string]; each character stands for one code point
      below 256.
    - A Python [float] is a [pyfloat]: a rational, an infinity or NaN.  A
      configuration field holds the value it was given.  The arithmetic of
      [estimate_cost] is that of binary64: every operation rounds to the
      nearest float, ties to even ([Float64]).
    - A Python exception is an [exn]: its class and the text [str(e)] gives.
    - Calls into [google.generativeai] are answered by a [backend] record and
      logged in a trace of [event]s, oldest first. *)

From Stdlib Require Import String Ascii List Bool ZArith QArith Lia.
From Stdlib Require Import Qround Qabs Qpower Lqa.
From Stdlib Require Floats.
Import ListNotations.

Open Scope string_scope.

(** ** Python values *)

Module Py.

Inductive exn_class : Type :=
| ValueError
| ValidationError        (* pydantic's, a ValueError subclass *)
| NotImplementedError
| AttributeError
| BaseExceptionClass     (* a plain [Exception(...)] *)
| OtherError (name : string).

Record exn : Type := mkExn { exn_class_of : exn_class; exn_msg : string }.

(** [str(e)] *)
Definition str (e : exn) : string := exn_msg e.

(** [str(x)] for [x] an exception or [None] *)
Definition str_opt (o : option exn) : string :=
  match o with
  | Some e => str e
  | None => "None"
  end.

Inductive result (A : Type) : Type :=
| Ok (a : A)
| Raise (e : exn).
Arguments Ok {A} a.
Arguments Raise {A} e.

Definition is_ok {A} (r : result A) : bool :=
  match r with Ok _ => true | Raise _ => false end.

(** Truthiness of a [str] and of an [Optional[str]]. *)
Definition truthy_str (s : string) : bool :=
  match s with
  | EmptyString => false
  | String _ _ => true
  end.

Definition truthy_opt_str (o : option string) : bool :=
  match o with
  | Some s => truthy_str s
  | None => false
  end.

(** [a or b] on optional strings: [a] if it is truthy, else [b]. *)
Definition or_else (a b : option string) : option string :=
  if truthy_opt_str a then a else b.

Inductive pyfloat : Type :=
| Finite (q : Q)
| PosInf
| NegInf
| NaN.

(** [x >= bound] and [x <= bound] for a finite [bound]. *)
Definition float_ge (x : pyfloat) (bound : Q) : bool :=
  match x with
  | Finite q => Qle_bool bound q
  | PosInf => true
  | NegInf | NaN => false
  end.

Definition float_le (x : pyfloat) (bound : Q) : bool :=
  match x with
  | Finite q => Qle_bool q bound
  | NegInf => true
  | PosInf | NaN => false
  end.

End Py.
Import Py.

(** ** Python's [float]: binary64 *)

Module Float64.

(** 53 bits of precision; the floats lie below [2^1024] in magnitude, and
    the least positive one is [2^-1074]. *)
Definition prec : Z := 53.
Definition emax : Z := 1024.
Definition emin : Z := -1074.

(** The binary exponent [e] of a rational that is not zero:
    [2^e <= |q| < 2^(e+1)]. *)
Definition ilog2 (q : Q) : Z :=
  let e := (Z.log2 (Z.abs (Qnum q)) - Z.log2 (Z.pos (Qden q)))%Z in
  if Qle_bool (2 ^ e) (Qabs q) then e else (e - 1)%Z.

(** The integer nearest to [q]; the even one of the two when [q] lies half
    way between two integers. *)
Definition rint (q : Q) : Z :=
  let f := Qfloor q in
  match (q - inject_Z f ?= 1 # 2)%Q with
  | Lt => f
  | Eq => if Z.even f then f else (f + 1)%Z
  | Gt => (f + 1)%Z
  end.

(** The exponent of the unit in the last place of the floats around [q]:
    53 significant bits, and no place below [2^emin]. *)
Definition ulp_exp (q : Q) : Z := Z.max (ilog2 q - (prec - 1)) emin.

(** Round to nearest, ties to even, were the exponent unbounded from
    above. *)
Definition round (q : Q) : Q :=
  if Qeq_bool q 0 then 0
  else (inject_Z (rint (q * 2 ^ (- ulp_exp q))) * 2 ^ ulp_exp q)%Q.

(** Is the rounded value [r] too large for a float? *)
Definition overflows (r : Q) : bool := Qle_bool (2 ^ emax) (Qabs r).

(** The float an operation gives whose exact result is [q]: an overflow
    gives an infinity.  The sign of a zero is not kept. *)
Definition of_real (q : Q) : pyfloat :=
  let r := round q in
  if overflows r then (if Qle_bool 0 r then PosInf else NegInf)
  else Finite r.

(** A decimal literal of the source. *)
Definition float_literal (q : Q) : pyfloat := of_real q.

Definition float_is_zero (x : pyfloat) : bool :=
  match x with
  | Finite q => Qeq_bool q 0
  | _ => false
  end.

Definition float_negative (x : pyfloat) : bool :=
  match x with
  | Finite q => negb (Qle_bool 0 q)
  | NegInf => true
  | PosInf | NaN => false
  end.

(** [x * y] on floats; Python raises nothing here. *)
Definition float_mul (x y : pyfloat) : pyfloat :=
  match x, y with
  | NaN, _ | _, NaN => NaN
  | Finite a, Finite b => of_real (a * b)
  | _, _ =>
      if float_is_zero x || float_is_zero y then NaN
      else if xorb (float_negative x) (float_negative y) then NegInf
           else PosInf
  end.

(** [x + y] on floats. *)
Definition float_add (x y : pyfloat) : pyfloat :=
  match x, y with
  | NaN, _ | _, NaN => NaN
  | Finite a, Finite b => of_real (a + b)
  | PosInf, NegInf | NegInf, PosInf => NaN
  | PosInf, _ | _, PosInf => PosInf
  | NegInf, _ | _, NegInf => NegInf
  end.

Definition overflow_error : exn :=
  mkExn (OtherError "OverflowError")
        "integer division result too large for a float".

Definition zero_division_error : exn :=
  mkExn (OtherError "ZeroDivisionError") "division by zero".

(** [n / d] on [int]s: the float nearest to the quotient, whatever the
    size of [n] and [d]; [OverflowError] when it is too large for a
    float. *)
Definition int_truediv (n d : Z) : result pyfloat :=
  if (d =? 0)%Z then Raise zero_division_error
  else
    let r := round (inject_Z n / inject_Z d) in
    if overflows r then Raise overflow_error else Ok (Finite r).

(** The largest relative error of one rounding, the least positive normal
    float, and half the least positive float. *)
Definition unit_roundoff : Q := 2 ^ (-53).
Definition least_normal : Q := 2 ^ (-1022).
Definition half_least : Q := 2 ^ (-1075).

(** [x] is zero, or [t] at least. *)
Definition zero_or_above (t x : Q) : Prop := (x == 0 \/ t <= x)%Q.

End Float64.
Import Float64.

(** ** chat_config_new.py *)

Module Config.

Record GeminiConfig : Type := mkGeminiConfig {
  g_model : string;
  g_temperature : pyfloat;
  g_top_p : pyfloat;
  g_top_k : Z;
  g_max_output_tokens : Z;
  g_api_key : option string
}.

Record OpenAIConfig : Type := mkOpenAIConfig {
  o_model : string;
  o_temperature : pyfloat;
  o_top_p : pyfloat;
  o_presence_penalty : pyfloat;
  o_frequency_penalty : pyfloat;
  o_max_tokens : option Z;
  o_api_key : option string
}.

Record ChatConfig : Type := mkChatConfig {
  provider : string;
  openai_config : option OpenAIConfig;
  gemini_config : option GeminiConfig
}.

(** The values pydantic fills in for fields that are left out. *)
Definition GeminiConfig_default : GeminiConfig :=
  mkGeminiConfig "gemini-pro" (Finite 0.7) (Finite 0.8) 40 2048 None.

Definition OpenAIConfig_default : OpenAIConfig :=
  mkOpenAIConfig "gpt-3.5-turbo" (Finite 0.7) (Finite 1.0)
                 (Finite 0.0) (Finite 0.0) None None.

Definition ChatConfig_default : ChatConfig :=
  mkChatConfig "gemini" None (Some GeminiConfig_default).

Definition in_literal (s : string) (allowed : list string) : bool :=
  existsb (String.eqb s) allowed.

Definition between (x : pyfloat) (lo hi : Q) : bool :=
  float_ge x lo && float_le x hi.

(** The [Literal] and [Field(ge=, le=)] declarations of [GeminiConfig]. *)
Definition GeminiConfig_fields_ok (c : GeminiConfig) : bool :=
  in_literal (g_model c) ["gemini-pro"]
  && between (g_temperature c) 0.0 1.0
  && between (g_top_p c) 0.0 1.0
  && (1 <=? g_top_k c)%Z
  && (1 <=? g_max_output_tokens c)%Z.

(** The [Literal] and [Field(ge=, le=)] declarations of [OpenAIConfig]. *)
Definition OpenAIConfig_fields_ok (c : OpenAIConfig) : bool :=
  in_literal (o_model c) ["gpt-3.5-turbo"; "gpt-4"]
  && between (o_temperature c) 0.0 2.0
  && between (o_top_p c) 0.0 1.0
  && between (o_presence_penalty c) (-2.0) 2.0
  && between (o_frequency_penalty c) (-2.0) 2.0
  && match o_max_tokens c with
     | Some n => (1 <=? n)%Z
     | None => true
     end.

Definition validation_error (model : string) : exn :=
  mkExn ValidationError ("validation error for " ++ model).

(** [GeminiConfig(...)]: the constructor validates its fields. *)
Definition GeminiConfig_new (fields : GeminiConfig) : result GeminiConfig :=
  if GeminiConfig_fields_ok fields then Ok fields
  else Raise (validation_error "GeminiConfig").

(** [OpenAIConfig(...)] *)
Definition OpenAIConfig_new (fields : OpenAIConfig) : result OpenAIConfig :=
  if OpenAIConfig_fields_ok fields then Ok fields
  else Raise (validation_error "OpenAIConfig").

(** An [Optional[...]] sub-configuration is validated only when given. *)
Definition optional_ok {A} (ok : A -> bool) (o : option A) : bool :=
  match o with
  | Some a => ok a
  | None => true
  end.

(** [ChatConfig(provider=..., openai_config={...}, gemini_config={...})]
    with each sub-configuration left out or given as a dictionary of field
    values, as every caller in the repository gives it: the dictionaries
    are validated by the sub-models, whichever provider is selected.  See
    [ChatConfig_from] for a sub-configuration given as an object. *)
Definition ChatConfig_new (prov : string)
           (openai : option OpenAIConfig) (gemini : option GeminiConfig)
  : result ChatConfig :=
  if in_literal prov ["openai"; "gemini"]
     && optional_ok OpenAIConfig_fields_ok openai
     && optional_ok GeminiConfig_fields_ok gemini
  then Ok (mkChatConfig prov openai gemini)
  else Raise (validation_error "ChatConfig").

(** What is given for a sub-configuration: a dictionary of field values,
    which the sub-model validates, or an object of the sub-model built
    before, which pydantic takes as it is.  Assignment to a field of an
    object is not validated, so such an object may hold any values. *)
Inductive sub_input (A : Type) : Type :=
| FieldValues (fields : A)
| Built (object : A).
Arguments FieldValues {A} fields.
Arguments Built {A} object.

Definition sub_input_ok {A} (ok : A -> bool) (i : option (sub_input A))
  : bool :=
  match i with
  | Some (FieldValues fields) => ok fields
  | Some (Built _) => true
  | None => true
  end.

Definition sub_input_value {A} (i : option (sub_input A)) : option A :=
  match i with
  | Some (FieldValues fields) => Some fields
  | Some (Built object) => Some object
  | None => None
  end.

(** [ChatConfig(provider=..., openai_config=..., gemini_config=...)] *)
Definition ChatConfig_from (prov : string)
           (openai : option (sub_input OpenAIConfig))
           (gemini : option (sub_input GeminiConfig))
  : result ChatConfig :=
  if in_literal prov ["openai"; "gemini"]
     && sub_input_ok OpenAIConfig_fields_ok openai
     && sub_input_ok GeminiConfig_fields_ok gemini
  then Ok (mkChatConfig prov (sub_input_value openai)
                        (sub_input_value gemini))
  else Raise (validation_error "ChatConfig").

(** [ChatConfig.get_api_key]; [getenv] is [os.getenv].  Reading [.api_key]
    of a sub-configuration that is [None] raises [AttributeError]. *)
Definition get_api_key (getenv : string -> option string) (self : ChatConfig)
  : result (option string) :=
  if String.eqb (provider self) "openai" then
    match openai_config self with
    | Some o => Ok (or_else (o_api_key o) (getenv "OPENAI_API_KEY"))
    | None =>
        Raise (mkExn AttributeError
                     "'NoneType' object has no attribute 'api_key'")
    end
  else
    match gemini_config self with
    | Some g => Ok (or_else (g_api_key g) (getenv "GOOGLE_API_KEY"))
    | None =>
        Raise (mkExn AttributeError
                     "'NoneType' object has no attribute 'api_key'")
    end.

End Config.
Import Config.

(** ** A state-and-exception monad for the effectful code *)

Module Effects.

(** A computation over a state [S] that returns or raises; the state
    survives a raise. *)
Definition M (S A : Type) : Type := S -> result A * S.

Definition ret {S A} (a : A) : M S A := fun s => (Ok a, s).

Definition raise {S A} (e : exn) : M S A := fun s => (Raise e, s).

Definition bind {S A B} (m : M S A) (k : A -> M S B) : M S B :=
  fun s =>
    match m s with
    | (Ok a, s') => k a s'
    | (Raise e, s') => (Raise e, s')
    end.

(** [try: body  except Exception as e: handler(e)] *)
Definition try_except {S A} (body : M S A) (handler : exn -> M S A) : M S A :=
  fun s =>
    match body s with
    | (Ok a, s') => (Ok a, s')
    | (Raise e, s') => handler e s'
    end.

(** An already computed outcome, as a computation. *)
Definition of_result {S A} (r : result A) : M S A := fun s => (r, s).

End Effects.
Import Effects.

Declare Scope py_scope.
Delimit Scope py_scope with py.
Notation "x <- m ;; k" := (bind m (fun x => k))
  (at level 61, m at next level, right associativity) : py_scope.
Notation "m ;;; k" := (bind m (fun _ => k))
  (at level 61, right associativity) : py_scope.
Open Scope py_scope.

(** ** The google.generativeai boundary *)

Module Genai.

Record generation_config : Type := mkGenerationConfig {
  temperature : pyfloat;
  top_p : pyfloat;
  top_k : Z;
  max_output_tokens : Z
}.

(** A [genai.GenerativeModel] object: the arguments it was built from. *)
Record GenerativeModel : Type := mkGenerativeModel {
  model_name : string;
  model_generation_config : option generation_config;
  model_safety_settings : option (list string)
}.

(** What [generate_content] or [send_message] hands back: whether the
    object is truthy, and what reading its [.text] gives. *)
Record response : Type := mkResponse {
  response_truthy : bool;
  response_text : result string
}.

(** A [ChatSession]: the model it talks to and the position in the trace
    at which [start_chat] made it. *)
Record ChatSession : Type := mkChatSession {
  session_model : GenerativeModel;
  session_born : nat
}.

(** What [genai.list_models()] hands back: whether the object is truthy,
    and what iterating over it for the names gives. *)
Record models_iterable : Type := mkModelsIterable {
  models_truthy : bool;
  models_names : result (list string)
}.

Inductive event : Type :=
| Configure (api_key : string)
| ListModels
| NewModel (m : GenerativeModel)
| GenerateContent (m : GenerativeModel) (prompt : string)
| StartChat (m : GenerativeModel)
| SendMessage (session : ChatSession) (message : string).

Definition trace : Type := list event.

(** The answers of the library and of the service behind it.  A chat
    session is stateful, so its answer may depend on everything that
    happened before.  The other requests are stateless, and no function
    below makes the same one twice, so their answers are given per
    request; a theorem that holds for every backend covers a service whose
    answers change from one call of these functions to the next. *)
Record backend : Type := mkBackend {
  configure : string -> result unit;
  list_models : result models_iterable;
  new_model : GenerativeModel -> result unit;
  generate_content : GenerativeModel -> string -> result response;
  start_chat : GenerativeModel -> result unit;
  send_message : trace -> ChatSession -> string -> result response
}.

(** Log the request, then return or raise as the backend says. *)
Definition call {A} (ev : event) (answer : result A) : M trace A :=
  fun tr => (answer, (tr ++ [ev])%list).

Definition call_stateful {A} (ev : event) (answer : trace -> result A)
  : M trace A :=
  fun tr => (answer tr, (tr ++ [ev])%list).

End Genai.
Import Genai.

(** ** gemini_utils.py *)

Module GeminiUtils.

Section WithBackend.

Variable getenv : string -> option string.
Variable B : backend.

(** [genai.GenerativeModel(...)] *)
Definition GenerativeModel_new (name : string)
           (cfg : option generation_config) (safety : option (list string))
  : M trace GenerativeModel :=
  let m := mkGenerativeModel name cfg safety in
  call (NewModel m) (new_model B m) ;;;
  ret m.

(** [model.generate_content(prompt, safety_settings=[])] *)
Definition GenerativeModel_generate_content (m : GenerativeModel)
           (prompt : string) : M trace response :=
  call (GenerateContent m prompt) (generate_content B m prompt).

(** [model.start_chat(history=[])] *)
Definition GenerativeModel_start_chat (m : GenerativeModel)
  : M trace ChatSession :=
  fun tr =>
    (call (StartChat m) (start_chat B m) ;;;
     ret (mkChatSession m (List.length tr))) tr.

(** [chat.send_message(message)] *)
Definition ChatSession_send_message (chat : ChatSession) (message : string)
  : M trace response :=
  call_stateful (SendMessage chat message)
                (fun tr => send_message B tr chat message).

(** [response and response.text], as the text to return if it is truthy.
    The [return response.text] that follows reads the attribute again and
    gets the same text. *)
Definition usable_text (r : response) : M trace (option string) :=
  if response_truthy r then
    t <- of_result (response_text r) ;;
    if truthy_str t then ret (Some t) else ret None
  else ret None.

(** The list [model_names] of [initialize_gemini]. *)
Definition initialize_model_names : list string :=
  [ "models/gemini-pro";
    "models/gemini-2.0-flash";
    "models/gemini-2.0-flash-lite" ].

Definition probe_prompt : string := "Hello, testing the API.".

(** One round of the [for] loop of [initialize_gemini]: the [try] block,
    giving whether the loop breaks with [initialized = True]. *)
Definition probe (name : string) : M trace bool :=
  try_except
    (model <- GenerativeModel_new name None None ;;
     response <- GenerativeModel_generate_content model probe_prompt ;;
     ret (response_truthy response))
    (fun _ => ret false).

(** The [for] loop of [initialize_gemini]; the value is [initialized].
    The model that answered is not kept. *)
Fixpoint probe_loop (names : list string) : M trace bool :=
  match names with
  | [] => ret false
  | name :: rest =>
      initialized <- probe name ;;
      if initialized then ret true else probe_loop rest
  end.

(** [initialize_gemini].  The [print] iterates over the models for their
    names, which may raise; what it writes is not modelled. *)
Definition initialize_gemini (api_key : option string) : M trace unit :=
  let api_key :=
    match api_key with
    | None => getenv "GOOGLE_API_KEY"
    | Some _ => api_key
    end in
  match api_key with
  | Some key =>
      if negb (truthy_str key) then
        raise (mkExn ValueError "No Gemini API key provided")
      else
        try_except
          (call (Configure key) (configure B key) ;;;
           available_models <- call ListModels (list_models B) ;;
           (if negb (models_truthy available_models) then
              raise (mkExn ValueError
                           "No models available. Check your API key.")
            else ret tt) ;;;
           of_result (models_names available_models) ;;;
           initialized <- probe_loop initialize_model_names ;;
           if negb initialized then
             raise (mkExn ValueError
                          "Failed to initialize with any available model")
           else ret tt)
          (fun e =>
             raise (mkExn ValueError
                          ("Failed to initialize Gemini API: " ++ str e)))
  | None => raise (mkExn ValueError "No Gemini API key provided")
  end.

(** The list [model_names] of [get_gemini_chat]. *)
Definition chat_model_names (model : string) : list string :=
  [ model;
    "models/gemini-pro";
    "models/gemini-2.0-flash";
    "models/gemini-2.0-flash-lite" ].

(** [safety_settings or []] *)
Definition safety_or_empty (safety_settings : option (list string))
  : option (list string) :=
  match safety_settings with
  | Some (_ :: _) => safety_settings
  | _ => Some []
  end.

(** The [for] loop of [get_gemini_chat] and the [raise] after it. *)
Fixpoint chat_loop (cfg : generation_config)
         (safety_settings : option (list string))
         (names : list string) (last_error : option exn)
  : M trace ChatSession :=
  match names with
  | [] =>
      raise (mkExn BaseExceptionClass
                   ("Failed to create Gemini chat instance with any model: "
                      ++ str_opt last_error))
  | name :: rest =>
      try_except
        (model <- GenerativeModel_new name (Some cfg)
                                      (safety_or_empty safety_settings) ;;
         GenerativeModel_start_chat model)
        (fun e => chat_loop cfg safety_settings rest (Some e))
  end.

Definition get_gemini_chat (model : string)
           (temperature top_p : pyfloat) (top_k max_output_tokens : Z)
           (safety_settings : option (list string))
  : M trace ChatSession :=
  chat_loop (mkGenerationConfig temperature top_p top_k max_output_tokens)
            safety_settings (chat_model_names model) None.

(** The list [model_names] of [get_chat_response]. *)
Definition response_model_names : list string :=
  [ "models/gemini-pro";
    "models/gemini-2.0-flash";
    "models/gemini-2.0-flash-lite" ].

(** The [for] loop of [get_chat_response] and the [raise] after it. *)
Fixpoint response_loop (message : string) (names : list string)
         (last_error : option exn) : M trace string :=
  match names with
  | [] =>
      raise (mkExn ValueError
                   ("Failed to get response from any model: "
                      ++ str_opt last_error))
  | name :: rest =>
      text <- try_except
                (model <- GenerativeModel_new name None None ;;
                 response <- GenerativeModel_generate_content model message ;;
                 t <- usable_text response ;;
                 ret (t, last_error))
                (fun e => ret (None, Some e)) ;;
      match text with
      | (Some t, _) => ret t
      | (None, last_error') => response_loop message rest last_error'
      end
  end.

Definition get_chat_response (chat : ChatSession) (message : string)
           (stream : bool) : M trace string :=
  try_except
    (text <- try_except
               (response <- ChatSession_send_message chat message ;;
                usable_text response)
               (fun _ => ret None) ;;
     match text with
     | Some t => ret t
     | None => response_loop message response_model_names None
     end)
    (fun e =>
       raise (mkExn BaseExceptionClass
                    ("Failed to get chat response: " ++ str e))).

End WithBackend.

(** [c.isspace()] for a code point below 256: tab to carriage return,
    the four separators 28 to 31, space, next-line (133) and the
    no-break space (160). *)
Definition isspace (c : ascii) : bool :=
  let n := N_of_ascii c in
  ((9 <=? n) && (n <=? 13) || (28 <=? n) && (n <=? 32)
   || (n =? 133) || (n =? 160))%N.

(** [text.split()] from position [text] on, with the characters of the
    word being read held in [word], last one first. *)
Fixpoint split_from (word : list ascii) (text : string) : list string :=
  match text with
  | EmptyString =>
      match word with
      | [] => []
      | _ :: _ => [string_of_list_ascii (rev word)]
      end
  | String c rest =>
      if isspace c then
        match word with
        | [] => split_from [] rest
        | _ :: _ => string_of_list_ascii (rev word) :: split_from [] rest
        end
      else split_from (c :: word) rest
  end.

(** [text.split()] *)
Definition split (text : string) : list string := split_from [] text.

Definition count_tokens (text : string) : Z :=
  Z.of_nat (List.length (split text)).

(** [input_tokens / 1000] is Python's true division of two [int]s, which
    can raise; the product with the price and the sum are float
    operations. *)
Definition estimate_cost (input_tokens output_tokens : Z) : result pyfloat :=
  match int_truediv input_tokens 1000 with
  | Raise e => Raise e
  | Ok thousands_in =>
      let input_cost := float_mul thousands_in (float_literal 0.00025) in
      match int_truediv output_tokens 1000 with
      | Raise e => Raise e
      | Ok thousands_out =>
          let output_cost := float_mul thousands_out (float_literal 0.0005) in
          Ok (float_add input_cost output_cost)
      end
  end.

End GeminiUtils.
Import GeminiUtils.

(** ** chat_new.py *)

Module ChatNew.

(** A [Chat] object; [chat] is [None] while the attribute is not set. *)
Record Chat : Type := mkChat {
  config : ChatConfig;
  system_message : option string;
  chat : option ChatSession
}.

Definition set_chat (session : ChatSession) : M (Chat * trace) unit :=
  fun '(self, tr) =>
    (Ok tt, (mkChat (config self) (system_message self) (Some session), tr)).

Definition get_self : M (Chat * trace) Chat :=
  fun '(self, tr) => (Ok self, (self, tr)).

(** Run a computation of [gemini_utils] inside a method of [Chat]. *)
Definition lift {A} (m : M trace A) : M (Chat * trace) A :=
  fun '(self, tr) => let (r, tr') := m tr in (r, (self, tr')).

Section WithBackend.

Variable getenv : string -> option string.
Variable B : backend.

Definition no_attribute (obj attr : string) : exn :=
  mkExn AttributeError
        ("'" ++ obj ++ "' object has no attribute '" ++ attr ++ "'").

(** [Chat._initialize_chat] *)
Definition _initialize_chat : M (Chat * trace) unit :=
  self <- get_self ;;
  if String.eqb (provider (config self)) "gemini" then
    api_key <- of_result (get_api_key getenv (config self)) ;;
    let api_key :=
      if negb (truthy_opt_str api_key) then getenv "GOOGLE_API_KEY"
      else api_key in
    if negb (truthy_opt_str api_key) then
      raise (mkExn ValueError "No Gemini API key provided")
    else
      lift (initialize_gemini getenv B api_key) ;;;
      gemini <- match gemini_config (config self) with
                | Some g => ret g
                | None => raise (no_attribute "NoneType" "model")
                end ;;
      session <- lift (get_gemini_chat B (g_model gemini)
                                       (g_temperature gemini)
                                       (g_top_p gemini)
                                       (g_top_k gemini)
                                       (g_max_output_tokens gemini)
                                       None) ;;
      set_chat session ;;;
      match system_message self with
      | Some text =>
          if truthy_str text then
            lift (ChatSession_send_message B session text) ;;; ret tt
          else ret tt
      | None => ret tt
      end
  else
    raise (mkExn NotImplementedError
                 "Only Gemini provider is currently supported").

(** [Chat(config, system_message)]: the object, unless [__init__] raises. *)
Definition Chat_new (config : option ChatConfig)
           (system_message : option string) : M trace Chat :=
  fun tr =>
    let self :=
      mkChat (match config with Some c => c | None => ChatConfig_default end)
             system_message None in
    match _initialize_chat (self, tr) with
    | (Ok _, (self', tr')) => (Ok self', tr')
    | (Raise e, (_, tr')) => (Raise e, tr')
    end.

(** [Chat.send_message] *)
Definition Chat_send_message (self : Chat) (message : string) (stream : bool)
  : M trace string :=
  try_except
    (session <- match chat self with
                | Some session => ret session
                | None => raise (no_attribute "Chat" "chat")
                end ;;
     get_chat_response B session message stream)
    (fun e =>
       raise (mkExn BaseExceptionClass
                    ("Failed to get chat response: " ++ str e))).

(** [Chat.reset] *)
Definition reset : M (Chat * trace) unit := _initialize_chat.

End WithBackend.

End ChatNew.
Import ChatNew.

(** ** What one attempt does, read off the backend

    Each round of a fallback loop makes at most two stateless requests.
    The definitions below give, for one candidate, the outcome of its round
    and the requests it logs; the loops are then described over the list of
    candidates. *)

Module Attempt.

Section WithBackend.

Variable B : backend.

(** The model object [genai.GenerativeModel(name)] builds. *)
Definition bare_model (name : string) : GenerativeModel :=
  mkGenerativeModel name None None.

(** The requests of one stateless round on [name] with [prompt]. *)
Definition generate_events (name prompt : string) : list event :=
  NewModel (bare_model name)
  :: match new_model B (bare_model name) with
     | Ok _ => [GenerateContent (bare_model name) prompt]
     | Raise _ => []
     end.

(** Does the probe of [name] come back with a truthy response? *)
Definition probe_ok (name : string) : bool :=
  match new_model B (bare_model name) with
  | Ok _ =>
      match generate_content B (bare_model name) probe_prompt with
      | Ok r => response_truthy r
      | Raise _ => false
      end
  | Raise _ => false
  end.

(** The text a response carries, if it is truthy and its text is not
    empty; reading the text may raise. *)
Definition text_of (r : response) : result (option string) :=
  if response_truthy r then
    match response_text r with
    | Ok t => if truthy_str t then Ok (Some t) else Ok None
    | Raise e => Raise e
    end
  else Ok None.

(** The outcome of one stateless round on [name] with [message]. *)
Definition reply (name message : string) : result (option string) :=
  match new_model B (bare_model name) with
  | Ok _ =>
      match generate_content B (bare_model name) message with
      | Ok r => text_of r
      | Raise e => Raise e
      end
  | Raise e => Raise e
  end.

(** The round on [name] yields a text to return. *)
Definition usable (name message : string) : bool :=
  match reply name message with
  | Ok (Some _) => true
  | _ => false
  end.

(** The model object [get_gemini_chat] builds for [name]. *)
Definition chat_model (cfg : generation_config)
           (safety_settings : option (list string)) (name : string)
  : GenerativeModel :=
  mkGenerativeModel name (Some cfg) (safety_or_empty safety_settings).

(** The outcome of one round of [get_gemini_chat] on [name]. *)
Definition create (cfg : generation_config)
           (safety_settings : option (list string)) (name : string)
  : result unit :=
  match new_model B (chat_model cfg safety_settings name) with
  | Ok _ => start_chat B (chat_model cfg safety_settings name)
  | Raise e => Raise e
  end.

Definition create_events (cfg : generation_config)
           (safety_settings : option (list string)) (name : string)
  : list event :=
  NewModel (chat_model cfg safety_settings name)
  :: match new_model B (chat_model cfg safety_settings name) with
     | Ok _ => [StartChat (chat_model cfg safety_settings name)]
     | Raise _ => []
     end.

Definition creatable (cfg : generation_config)
           (safety_settings : option (list string)) (name : string) : bool :=
  is_ok (create cfg safety_settings name).

(** The outcome of the attempt on the bound session, made when the trace
    is [tr]. *)
Definition session_reply (tr : trace) (chat : ChatSession) (message : string)
  : result (option string) :=
  match send_message B tr chat message with
  | Ok r => text_of r
  | Raise e => Raise e
  end.

End WithBackend.

(** The generation settings [_initialize_chat] passes on. *)
Definition generation_config_of (g : GeminiConfig) : generation_config :=
  mkGenerationConfig (g_temperature g) (g_top_p g) (g_top_k g)
                     (g_max_output_tokens g).

(** The errors the walks end in. *)
Definition no_response (last_error : option exn) : exn :=
  mkExn ValueError
        ("Failed to get response from any model: " ++ str_opt last_error).

Definition no_chat_instance (last_error : option exn) : exn :=
  mkExn BaseExceptionClass
        ("Failed to create Gemini chat instance with any model: "
           ++ str_opt last_error).

Definition chat_response_failed (e : exn) : exn :=
  mkExn BaseExceptionClass ("Failed to get chat response: " ++ str e).

Definition initialize_failed (e : exn) : exn :=
  mkExn ValueError ("Failed to initialize Gemini API: " ++ str e).

Definition no_model_initialized : exn :=
  mkExn ValueError "Failed to initialize with any available model".

Definition only_gemini_supported : exn :=
  mkExn NotImplementedError "Only Gemini provider is currently supported".

(** The candidates a walk reaches: all up to and including the first that
    satisfies [p]. *)
Fixpoint upto_first {A} (p : A -> bool) (l : list A) : list A :=
  match l with
  | [] => []
  | a :: rest => if p a then [a] else a :: upto_first p rest
  end.

(** The first candidate that satisfies [p]. *)
Definition first_that {A} (p : A -> bool) (l : list A) : option A :=
  List.find p l.

(** The text of the first candidate of [l] whose round yields one. *)
Fixpoint first_text (round : string -> result (option string))
         (l : list string) : option string :=
  match l with
  | [] => None
  | name :: rest =>
      match round name with
      | Ok (Some t) => Some t
      | _ => first_text round rest
      end
  end.

(** The round on [name] yields a text. *)
Definition yields_text (round : string -> result (option string))
           (name : string) : Prop :=
  exists t, round name = Ok (Some t).

(** The error of the last candidate of [l] whose round raised, or [acc]. *)
Fixpoint last_raised {A} (round : string -> result A) (l : list string)
         (acc : option exn) : option exn :=
  match l with
  | [] => acc
  | name :: rest =>
      last_raised round rest
                  (match round name with
                   | Raise e => Some e
                   | Ok _ => acc
                   end)
  end.

End Attempt.
Import Attempt.

(** ** The word count the specification describes *)

Module WordCount.

(** The number of words of [text]: the positions that hold a character
    which is not whitespace and are at the start or follow whitespace.
    [after_space] tells whether the position before is one of those. *)
Fixpoint word_starts (after_space : bool) (text : string) : nat :=
  match text with
  | EmptyString => 0
  | String c rest =>
      (if after_space && negb (isspace c) then 1 else 0)
      + word_starts (isspace c) rest
  end.

Definition word_count (text : string) : nat := word_starts true text.

(** A word: not empty, and free of whitespace. *)
Definition is_word (w : string) : Prop :=
  w <> "" /\ forall c, In c (list_ascii_of_string w) -> isspace c = false.

(** The price of one input token and of one output token. *)
Definition input_price : Q := (0.00025 / 1000)%Q.
Definition output_price : Q := (0.0005 / 1000)%Q.

(** The cost as the specification words it, read in exact arithmetic. *)
Definition spec_cost (input_tokens output_tokens : Z) : Q :=
  ((inject_Z input_tokens / 1000) * 0.00025
   + (inject_Z output_tokens / 1000) * 0.0005)%Q.

(** [r] is a returned finite float of value [q]. *)
Definition returns_float (r : result pyfloat) (q : Q) : Prop :=
  exists c, r = Ok (Finite c) /\ (c == q)%Q.

End WordCount.
Import WordCount.

(** ** The machine's binary64, to compare [Float64] with *)

Module Machine.

(** The value of a float of the machine. *)
Definition value (x : PrimFloat.float) : option Q :=
  match FloatOps.Prim2SF x with
  | SpecFloat.S754_zero _ => Some 0%Q
  | SpecFloat.S754_finite s m e =>
      Some ((if s then -1 else 1) * inject_Z (Z.pos m) * 2 ^ e)%Q
  | _ => None
  end.

(** An [int] below [2^53] as a float: the conversion is exact. *)
Definition small_int (n : Z) : PrimFloat.float :=
  PrimFloat.of_uint63 (Uint63Axioms.of_Z n).

(** The float nearest to [n / d]. *)
Definition ratio (n d : Z) : PrimFloat.float :=
  PrimFloat.div (small_int n) (small_int d).

(** The body of [estimate_cost] on the machine's floats; the literals
    0.00025 and 0.0005 are the floats nearest to 25/100000 and 5/10000. *)
Definition machine_cost (input_tokens output_tokens : Z) : PrimFloat.float :=
  let input_cost :=
    PrimFloat.mul (ratio input_tokens 1000) (ratio 25 100000) in
  let output_cost :=
    PrimFloat.mul (ratio output_tokens 1000) (ratio 5 10000) in
  PrimFloat.add input_cost output_cost.

Definition agrees_with_machine (counts : Z * Z) : bool :=
  match estimate_cost (fst counts) (snd counts),
        value (machine_cost (fst counts) (snd counts)) with
  | Ok (Finite c), Some q => Qeq_bool c q
  | _, _ => false
  end.

End Machine.
Import Machine.

(** ** Ranges, as propositions *)

Module Ranges.

(** [x] is a number and lies in the closed interval from [lo] to [hi]. *)
Definition in_range (x : pyfloat) (lo hi : Q) : Prop :=
  exists q, x = Finite q /\ (lo <= q)%Q /\ (q <= hi)%Q.

(** The ranges the specification lists for a Gemini configuration. *)
Definition gemini_listed_ranges (c : GeminiConfig) : Prop :=
  in_range (g_temperature c) 0 1
  /\ in_range (g_top_p c) 0 1
  /\ (1 <= g_top_k c)%Z
  /\ (1 <= g_max_output_tokens c)%Z.

(** The ranges the specification lists for an OpenAI configuration. *)
Definition openai_listed_ranges (c : OpenAIConfig) : Prop :=
  in_range (o_temperature c) 0 2
  /\ in_range (o_top_p c) 0 1
  /\ (forall n, o_max_tokens c = Some n -> (1 <= n)%Z).

(** Everything [GeminiConfig] declares. *)
Definition gemini_declared (c : GeminiConfig) : Prop :=
  g_model c = "gemini-pro" /\ gemini_listed_ranges c.

(** Everything [OpenAIConfig] declares: the listed ranges, the two
    penalties and the model names. *)
Definition openai_declared (c : OpenAIConfig) : Prop :=
  (o_model c = "gpt-3.5-turbo" \/ o_model c = "gpt-4")
  /\ openai_listed_ranges c
  /\ in_range (o_presence_penalty c) (-2) 2
  /\ in_range (o_frequency_penalty c) (-2) 2.

End Ranges.
Import Ranges.

(** ** Concrete configurations and backends *)

Module Examples.

(** An OpenAI configuration whose only fault is its presence penalty. *)
Definition penalty_three : OpenAIConfig :=
  mkOpenAIConfig "gpt-3.5-turbo" (Finite 0.7) (Finite 1.0)
                 (Finite 3.0) (Finite 0.0) None None.

Definition gemini_hot : GeminiConfig :=
  mkGeminiConfig "gemini-pro" (Finite 1.5) (Finite 0.8) 40 2048 None.

Definition openai_hot : OpenAIConfig :=
  mkOpenAIConfig "gpt-3.5-turbo" (Finite 1.5) (Finite 1.0)
                 (Finite 0.0) (Finite 0.0) None None.

(** A configuration with an explicit key, and an environment that holds
    keys of its own. *)
Definition keyed_gemini : ChatConfig :=
  mkChatConfig "gemini" None
               (Some (mkGeminiConfig "gemini-pro" (Finite 0.7) (Finite 0.8)
                                     40 2048 (Some "explicit-key"))).

Definition keyed_openai : ChatConfig :=
  mkChatConfig "openai"
               (Some (mkOpenAIConfig "gpt-4" (Finite 0.7) (Finite 1.0)
                                     (Finite 0.0) (Finite 0.0) None
                                     (Some "explicit-key")))
               None.

Definition env_with_keys (name : string) : option string :=
  if String.eqb name "GOOGLE_API_KEY" then Some "google-env-key"
  else if String.eqb name "OPENAI_API_KEY" then Some "openai-env-key"
  else None.

Definition env_empty (name : string) : option string := None.

Definition answer (text : string) : response := mkResponse true (Ok text).

Definition three_models : models_iterable :=
  mkModelsIterable true (Ok initialize_model_names).

(** A backend in which building a model and starting a chat never raise;
    [gen] answers stateless generation by model name, [send] answers the
    chat session. *)
Definition backend_of (gen : string -> string -> result response)
           (send : trace -> ChatSession -> string -> result response)
  : backend :=
  mkBackend (fun _ => Ok tt) (Ok three_models) (fun _ => Ok tt)
            (fun m prompt => gen (model_name m) prompt)
            (fun _ => Ok tt) send.

Definition not_found : exn := mkExn (OtherError "NotFound") "404 model not found".
Definition quota : exn :=
  mkExn (OtherError "ResourceExhausted") "429 quota exceeded".
Definition unavailable : exn :=
  mkExn (OtherError "ServiceUnavailable") "503 try again later".

(** Only the last candidate of the priority list answers. *)
Definition only_flash_lite : backend :=
  backend_of (fun name _ =>
                if String.eqb name "models/gemini-2.0-flash-lite"
                then Ok (answer "Hi")
                else Raise not_found)
             (fun _ _ _ => Ok (answer "Hi")).

(** No candidate answers. *)
Definition out_of_quota : backend :=
  backend_of (fun _ _ => Raise quota) (fun _ _ _ => Raise quota).

(** The session is gone and the first candidate is gone; the second
    candidate answers. *)
Definition session_lost : backend :=
  backend_of (fun name _ =>
                if String.eqb name "models/gemini-pro" then Raise not_found
                else if String.eqb name "models/gemini-2.0-flash"
                     then Ok (answer "Hello from flash")
                     else Raise unavailable)
             (fun _ _ _ => Raise unavailable).

(** Everything answers by repeating the prompt in brackets. *)
Definition echo : backend :=
  backend_of (fun _ prompt => Ok (answer ("[" ++ prompt ++ "]")))
             (fun _ _ message => Ok (answer ("[" ++ message ++ "]"))).

Definition a_session : ChatSession :=
  mkChatSession
    (mkGenerativeModel "gemini-pro"
                       (Some (mkGenerationConfig (Finite 0.7) (Finite 0.8)
                                                 40 2048))
                       (Some []))
    3.

Definition a_chat : Chat := mkChat keyed_gemini None (Some a_session).

End Examples.
Import Examples.

(** ** String methods used by the front ends *)

Module PyStr.

(** The line feed. *)
Definition nl : string := String (ascii_of_nat 10) EmptyString.

(** [c.lower()] for a code point below 256: the letters A to Z and the
    capital letters from 192 to 222, the multiplication sign 215 apart,
    move up by 32. *)
Definition lower_char (c : ascii) : ascii :=
  let n := N_of_ascii c in
  if ((65 <=? n) && (n <=? 90)
      || (192 <=? n) && (n <=? 222) && negb (n =? 215))%N
  then ascii_of_N (n + 32)
  else c.

(** [s.lower()] *)
Fixpoint lower (s : string) : string :=
  match s with
  | EmptyString => EmptyString
  | String c rest => String (lower_char c) (lower rest)
  end.

(** [s.lstrip()] *)
Fixpoint lstrip (s : string) : string :=
  match s with
  | EmptyString => EmptyString
  | String c rest => if isspace c then lstrip rest else s
  end.

Definition reverse (s : string) : string :=
  string_of_list_ascii (rev (list_ascii_of_string s)).

(** [s.rstrip()] *)
Definition rstrip (s : string) : string := reverse (lstrip (reverse s)).

(** [s.strip()] *)
Definition strip (s : string) : string := rstrip (lstrip s).

(** [" ".join(words)] *)
Fixpoint join_space (words : list string) : string :=
  match words with
  | [] => ""
  | [w] => w
  | w :: rest => w ++ " " ++ join_space rest
  end.

(** Every character of [s] is whitespace. *)
Fixpoint all_space (s : string) : bool :=
  match s with
  | EmptyString => true
  | String c rest => isspace c && all_space rest
  end.

End PyStr.
Import PyStr.

(** ** command_definitions_new.py *)

Module Commands.

(** The [argparse.Namespace] handed to the commands; a field is [None]
    when the namespace has no such attribute. *)
Record Namespace : Type := mkNamespace {
  ns_temperature : option pyfloat;
  ns_top_p : option pyfloat;
  ns_top_k : option Z;
  ns_max_tokens : option Z
}.

(** [argparse.Namespace()] *)
Definition Namespace_empty : Namespace := mkNamespace None None None None.

(** [args.x if hasattr(args, 'x') else default] *)
Definition attr_or {A} (attr : option A) (default : A) : A :=
  match attr with
  | Some a => a
  | None => default
  end.

(** What the terminal gives to one pass of the loop.  [input] returns a
    line, or is ended by a [KeyboardInterrupt], or raises an exception
    such as [EOFError].  [LineInterrupted text k] is the line [text] with
    a [KeyboardInterrupt] delivered while the request number [k], counted
    from 0, that [send_message] makes for this line is in flight; when the
    pass makes no such request the interrupt is not delivered.  With
    [Line text] no interrupt is delivered during the pass.  An interrupt
    is delivered where the program waits, in [input] or in a request; the
    writes to the terminal go through. *)
Inductive console_input : Type :=
| Line (text : string)
| Interrupt
| InputError (e : exn)
| LineInterrupted (text : string) (request : nat).

(** The observable state of the terminal front end: what was written to
    standard output, one entry per [print] or prompt, and the requests
    made to the backend. *)
Definition world : Type := (list string * trace)%type.

(** [print(text, end=end_)] *)
Definition print (text end_ : string) : M world unit :=
  fun '(out, tr) => (Ok tt, ((out ++ [(text ++ end_)%string])%list, tr)).

(** Run a computation that talks to the backend only. *)
Definition requesting {A} (m : M trace A) : M world A :=
  fun '(out, tr) => let (r, tr') := m tr in (r, (out, tr')).

(** How one pass through the body of the [while] loop ends. *)
Inductive turn : Type := Continue | Break.

(** Where [terminal_chat] stands when the inputs given so far are used
    up: it has returned, or it is back at [input]. *)
Inductive loop_state : Type := Returned | AwaitingInput.

Section WithBackend.

Variable getenv : string -> option string.
Variable B : backend.

(** [setup_chat]: the dictionary given for [gemini_config] holds the four
    sampling fields only. *)
Definition setup_chat (args : Namespace) : M trace Chat :=
  config <- of_result
              (ChatConfig_new
                 "gemini" None
                 (Some (mkGeminiConfig
                          (g_model GeminiConfig_default)
                          (attr_or (ns_temperature args) (Finite 0.7))
                          (attr_or (ns_top_p args) (Finite 0.8))
                          (attr_or (ns_top_k args) 40%Z)
                          (attr_or (ns_max_tokens args) 2048%Z)
                          (g_api_key GeminiConfig_default)))) ;;
  Chat_new getenv B (Some config) None.

Definition print_error (e : exn) : M world unit :=
  print (nl ++ "Error: " ++ str e) nl.

(** [chat.send_message(user_input)] as the loop calls it.  The value is
    [None] when a [KeyboardInterrupt] ends the call: it is not an
    [Exception], so no handler of [gemini_utils] or of [Chat] catches it;
    the request in flight gets no answer and the requests after it are
    not made. *)
Definition interruptible_send (chat : Chat) (user_input : string)
           (interrupt : option nat) : M trace (option string) :=
  fun tr =>
    let (r, tr') := Chat_send_message B chat user_input false tr in
    let made := skipn (List.length tr) tr' in
    let completed :=
      (match r with
       | Ok response => Ok (Some response)
       | Raise e => Raise e
       end, tr') in
    match interrupt with
    | Some k =>
        if (k <? List.length made)%nat
        then (Ok None, (tr ++ firstn (S k) made)%list)
        else completed
    | None => completed
    end.

(** The body of the loop after [input] has returned [user_input].  The
    handler of [KeyboardInterrupt] breaks, the handler of [Exception]
    prints and continues. *)
Definition answer_line (chat : Chat) (user_input : string)
           (interrupt : option nat) : M world turn :=
  if negb (truthy_str (strip user_input)) then ret Continue
  else if in_literal (lower user_input) ["exit"; "quit"; "q"]
       then ret Break
       else
         try_except
           (print (nl ++ "Assistant:") " " ;;;
            response <- requesting
                          (interruptible_send chat user_input interrupt) ;;
            match response with
            | Some text => print text nl ;;; ret Continue
            | None => ret Break
            end)
           (fun e => print_error e ;;; ret Continue).

(** One pass through the body of the loop of [terminal_chat], the
    terminal giving [inp]. *)
Definition terminal_turn (chat : Chat) (inp : console_input) : M world turn :=
  print (nl ++ "You: ") "" ;;;
  match inp with
  | Interrupt => ret Break
  | InputError e => print_error e ;;; ret Continue
  | Line user_input => answer_line chat user_input None
  | LineInterrupted user_input k => answer_line chat user_input (Some k)
  end.

(** The [while True] loop of [terminal_chat] over the inputs the terminal
    gives, in order. *)
Fixpoint terminal_loop (chat : Chat) (inputs : list console_input)
  : M world loop_state :=
  match inputs with
  | [] => ret AwaitingInput
  | inp :: rest =>
      t <- terminal_turn chat inp ;;
      match t with
      | Break => ret Returned
      | Continue => terminal_loop chat rest
      end
  end.

(** [terminal_chat(args)]; [args or argparse.Namespace()] keeps [args]
    when it is given, a namespace being truthy. *)
Definition terminal_chat (args : option Namespace)
           (inputs : list console_input) : M world loop_state :=
  chat <- requesting (setup_chat (attr_or args Namespace_empty)) ;;
  terminal_loop chat inputs.

End WithBackend.

End Commands.
Import Commands.

(** ** More concrete backends *)

Module MoreExamples.

(** A backend whose session answers with an empty text. *)
Definition silent_session : backend :=
  backend_of (fun _ prompt => Ok (answer ("[" ++ prompt ++ "]")))
             (fun _ _ _ => Ok (answer "")).

(** A backend that lists models with an object that is falsy. *)
Definition no_models : backend :=
  mkBackend (fun _ => Ok tt) (Ok (mkModelsIterable false (Ok [])))
            (fun _ => Ok tt)
            (fun _ prompt => Ok (answer prompt))
            (fun _ => Ok tt)
            (fun _ _ message => Ok (answer message)).

(** A backend that refuses the requested model name and serves the names
    of the priority list. *)
Definition stale_name : backend :=
  mkBackend (fun _ => Ok tt) (Ok three_models)
            (fun m =>
               if String.eqb (model_name m) "gemini-pro"
               then Raise not_found else Ok tt)
            (fun _ prompt => Ok (answer prompt))
            (fun _ => Ok tt)
            (fun _ _ message => Ok (answer message)).

(** A backend that answers probes and whose session raises on every
    message. *)
Definition broken_session : backend :=
  backend_of (fun _ prompt => Ok (answer ("[" ++ prompt ++ "]")))
             (fun _ _ _ => Raise unavailable).

(** A backend whose session raises and whose models answer every prompt
    with a truthy response of empty text. *)
Definition mute_candidates : backend :=
  backend_of (fun _ _ => Ok (answer ""))
             (fun _ _ _ => Raise unavailable).

Definition env_google (name : string) : option string :=
  if String.eqb name "GOOGLE_API_KEY" then Some "google-env-key" else None.

Definition keyless_gemini : ChatConfig :=
  mkChatConfig "gemini" None (Some GeminiConfig_default).

End MoreExamples.
Import MoreExamples.

(** ** Kinds of requests *)

Module Requests.

(** A message sent to a chat session. *)
Definition is_send_message (ev : event) : bool :=
  match ev with
  | SendMessage _ _ => true
  | _ => false
  end.

(** A generation request, as a probe is. *)
Definition is_generate_content (ev : event) : bool :=
  match ev with
  | GenerateContent _ _ => true
  | _ => false
  end.

(** A request of a stateless round on one of [names] with [prompt]:
    building the bare model, or generating from [prompt] with it. *)
Definition stateless_request (names : list string) (prompt : string)
           (ev : event) : Prop :=
  exists name,
    In name names
    /\ (ev = NewModel (bare_model name)
        \/ ev = GenerateContent (bare_model name) prompt).

End Requests.
Import Requests.

(** ** Reading the terminal loop *)

Module TerminalReadings.

(** Does this input make the loop of [terminal_chat] stop without the
    chat being called?  An interrupt of [input] does; so does a line that
    is not blank and whose lower-case form is one of the three exit
    words. *)
Definition leaves_loop (inp : console_input) : bool :=
  match inp with
  | Line text | LineInterrupted text _ =>
      negb (all_space text)
      && in_literal (lower text) ["exit"; "quit"; "q"]
  | Interrupt => true
  | InputError _ => false
  end.

(** The requests [send_message] makes for [text] when nothing interrupts
    it. *)
Definition requests_of_send (B : backend) (chat : Chat) (text : string)
           (tr : trace) : list event :=
  skipn (List.length tr) (snd (Chat_send_message B chat text false tr)).

(** Is the interrupt of [LineInterrupted text k] delivered? *)
Definition interrupt_hits (B : backend) (chat : Chat) (text : string)
           (k : nat) (tr : trace) : bool :=
  (k <? List.length (requests_of_send B chat text tr))%nat.

(** No interrupt is planned during the pass for this input. *)
Definition uninterrupted (inp : console_input) : bool :=
  match inp with
  | LineInterrupted _ _ => false
  | _ => true
  end.

(** What one pass writes for an input when the chat is not called. *)
Definition prompt : string := nl ++ "You: ".

End TerminalReadings.
Import TerminalReadings.

(** * Theorems *)

(** ** The monad *)

Lemma bind_ok {S A B} (m : M S A) (k : A -> M S B) s a s' :
  m s = (Ok a, s') -> bind m k s = k a s'.
Proof. unfold bind; intros ->; reflexivity. Qed.

Lemma bind_raise {S A B} (m : M S A) (k : A -> M S B) s e s' :
  m s = (Raise e, s') -> bind m k s = (Raise e, s').
Proof. unfold bind; intros ->; reflexivity. Qed.

(** ** Configuration *)

Lemma between_in_range x lo hi lo' hi' :
  (lo == lo')%Q -> (hi == hi')%Q ->
  between x lo hi = true <-> in_range x lo' hi'.
Proof.
  intros Hlo Hhi; unfold between, in_range; rewrite andb_true_iff; split.
  - intros [Hge Hle]; destruct x as [q| | |]; simpl in *; try discriminate.
    exists q; split; [reflexivity|].
    rewrite <- Hlo, <- Hhi; split; now apply Qle_bool_iff.
  - intros (q & -> & Hge & Hle); simpl.
    rewrite <- Hlo in Hge; rewrite <- Hhi in Hle.
    split; now apply Qle_bool_iff.
Qed.

Ltac range_literals :=
  repeat match goal with
         | |- context [between ?x ?lo ?hi = true] =>
             first
               [ rewrite (between_in_range x lo hi 0 1) by reflexivity
               | rewrite (between_in_range x lo hi 0 2) by reflexivity
               | rewrite (between_in_range x lo hi (-2) 2) by reflexivity ]
         end.

Lemma optional_leb (o : option Z) :
  match o with Some n => (1 <=? n)%Z | None => true end = true
  <-> (forall n, o = Some n -> (1 <= n)%Z).
Proof.
  destruct o as [n|]; split; intros H.
  - intros m [= <-]; now apply Z.leb_le.
  - apply Z.leb_le; now apply H.
  - intros m [=].
  - reflexivity.
Qed.

Lemma GeminiConfig_fields_ok_iff c :
  GeminiConfig_fields_ok c = true <-> gemini_declared c.
Proof.
  unfold GeminiConfig_fields_ok, gemini_declared, gemini_listed_ranges.
  rewrite !andb_true_iff, !Z.leb_le; range_literals.
  unfold in_literal; simpl; rewrite orb_false_r, String.eqb_eq.
  tauto.
Qed.

Lemma OpenAIConfig_fields_ok_iff c :
  OpenAIConfig_fields_ok c = true <-> openai_declared c.
Proof.
  unfold OpenAIConfig_fields_ok, openai_declared, openai_listed_ranges.
  rewrite !andb_true_iff, optional_leb; range_literals.
  unfold in_literal; simpl.
  rewrite orb_false_r, orb_true_iff, !String.eqb_eq.
  tauto.
Qed.

Lemma optional_ok_iff {A} (ok : A -> bool) (P : A -> Prop) (o : option A) :
  (forall a, ok a = true <-> P a) ->
  optional_ok ok o = true <-> (forall a, o = Some a -> P a).
Proof.
  intros Hok; destruct o as [a|]; simpl; split; intros H.
  - intros a' [= <-]; now apply Hok.
  - apply Hok; now apply H.
  - intros a [=].
  - reflexivity.
Qed.

Lemma if_ok_iff {A} (b : bool) (a : A) (e : exn) :
  (exists c, (if b then Ok a else Raise e) = Ok c) <-> b = true.
Proof.
  destruct b; split; intros H; try reflexivity.
  - now exists a.
  - destruct H as [c [=]].
  - discriminate.
Qed.

(** C4, as stated, fails in both directions.  An OpenAI configuration
    with every listed field in its range (temperature, top_p, max tokens)
    and a valid model name is refused at construction, because its
    presence penalty is 3.  And a chat configuration is constructed from a
    Gemini configuration object whose temperature is 1.5: an object given
    for a sub-configuration is not validated again. *)
Lemma C4_listed_ranges_not_sufficient :
  openai_listed_ranges penalty_three
  /\ o_model penalty_three = "gpt-3.5-turbo"
  /\ OpenAIConfig_new penalty_three = Raise (validation_error "OpenAIConfig")
  /\ ChatConfig_new "openai" (Some penalty_three) None
     = Raise (validation_error "ChatConfig")
  /\ ~ gemini_listed_ranges gemini_hot
  /\ ChatConfig_from "gemini" None (Some (Built gemini_hot))
     = Ok (mkChatConfig "gemini" None (Some gemini_hot)).
Proof.
  split; [|split; [reflexivity|split; [reflexivity|split; [reflexivity|]]]].
  - unfold openai_listed_ranges, in_range, penalty_three; simpl.
    split; [|split].
    + exists 0.7%Q; split; [reflexivity|]; split; now apply Qle_bool_iff.
    + exists 1.0%Q; split; [reflexivity|]; split; now apply Qle_bool_iff.
    + intros n [=].
  - split; [|reflexivity].
    intros [(q & Hq & _ & Hle) _]; injection Hq as <-.
    apply Qle_bool_iff in Hle; discriminate Hle.
Qed.

Lemma GeminiConfig_new_iff g :
  (exists c, GeminiConfig_new g = Ok c) <-> gemini_declared g.
Proof.
  unfold GeminiConfig_new; rewrite if_ok_iff.
  apply GeminiConfig_fields_ok_iff.
Qed.

Lemma OpenAIConfig_new_iff o :
  (exists c, OpenAIConfig_new o = Ok c) <-> openai_declared o.
Proof.
  unfold OpenAIConfig_new; rewrite if_ok_iff.
  apply OpenAIConfig_fields_ok_iff.
Qed.

Lemma provider_literal p :
  in_literal p ["openai"; "gemini"] = true <-> p = "openai" \/ p = "gemini".
Proof.
  unfold in_literal; simpl.
  rewrite orb_false_r, orb_true_iff, !String.eqb_eq; tauto.
Qed.

Lemma ChatConfig_new_iff p o g :
  (exists c, ChatConfig_new p o g = Ok c)
  <-> (p = "openai" \/ p = "gemini")
      /\ (forall o', o = Some o' -> openai_declared o')
      /\ (forall g', g = Some g' -> gemini_declared g').
Proof.
  unfold ChatConfig_new; rewrite if_ok_iff, !andb_true_iff.
  rewrite provider_literal.
  rewrite (optional_ok_iff _ _ o OpenAIConfig_fields_ok_iff).
  rewrite (optional_ok_iff _ _ g GeminiConfig_fields_ok_iff).
  tauto.
Qed.

Lemma sub_input_ok_iff {A} (ok : A -> bool) (P : A -> Prop)
      (i : option (sub_input A)) :
  (forall a, ok a = true <-> P a) ->
  sub_input_ok ok i = true <-> (forall f, i = Some (FieldValues f) -> P f).
Proof.
  intros Hok; destruct i as [[f|object]|]; simpl; split; intros H.
  - intros f' [= <-]; now apply Hok.
  - apply Hok; now apply H.
  - intros f [=].
  - reflexivity.
  - intros f [=].
  - reflexivity.
Qed.

Lemma ChatConfig_from_iff p o g :
  (exists c, ChatConfig_from p o g = Ok c)
  <-> (p = "openai" \/ p = "gemini")
      /\ (forall f, o = Some (FieldValues f) -> openai_declared f)
      /\ (forall f, g = Some (FieldValues f) -> gemini_declared f).
Proof.
  unfold ChatConfig_from; rewrite if_ok_iff, !andb_true_iff.
  rewrite provider_literal.
  rewrite (sub_input_ok_iff _ _ o OpenAIConfig_fields_ok_iff).
  rewrite (sub_input_ok_iff _ _ g GeminiConfig_fields_ok_iff).
  tauto.
Qed.

Lemma ChatConfig_new_from p o g :
  ChatConfig_new p o g
  = ChatConfig_from p (option_map FieldValues o) (option_map FieldValues g).
Proof.
  unfold ChatConfig_new, ChatConfig_from.
  destruct o, g; reflexivity.
Qed.

(** C4, amended: a configuration is constructed from field values if and
    only if the provider and model names are among the declared literals
    and every numeric field is within its declared range: the listed ones
    (gemini temperature in [0,1], openai temperature in [0,2], top_p in
    [0,1], top_k >= 1, max output tokens >= 1) and, for OpenAI, the
    presence and frequency penalties in [-2,2].  For a chat configuration
    this holds of the provider and of each sub-configuration given as
    field values, whichever provider is selected; a sub-configuration
    given as an object built before is taken as it is.  The refusal is the
    constructor's own result. *)
Theorem C4_construction_iff_declared_ranges :
  (forall g, (exists c, GeminiConfig_new g = Ok c) <-> gemini_declared g)
  /\ (forall o, (exists c, OpenAIConfig_new o = Ok c) <-> openai_declared o)
  /\ (forall p o g,
        (exists c, ChatConfig_from p o g = Ok c)
        <-> (p = "openai" \/ p = "gemini")
            /\ (forall f, o = Some (FieldValues f) -> openai_declared f)
            /\ (forall f, g = Some (FieldValues f) -> gemini_declared f))
  /\ (forall p o g,
        ChatConfig_new p o g
        = ChatConfig_from p (option_map FieldValues o)
                          (option_map FieldValues g))
  /\ (forall g c, GeminiConfig_new g = Ok c -> c = g)
  /\ (forall o c, OpenAIConfig_new o = Ok c -> c = o)
  /\ (forall p o g c,
        ChatConfig_from p o g = Ok c ->
        c = mkChatConfig p (sub_input_value o) (sub_input_value g)).
Proof.
  split; [exact GeminiConfig_new_iff|].
  split; [exact OpenAIConfig_new_iff|].
  split; [exact ChatConfig_from_iff|].
  split; [exact ChatConfig_new_from|].
  split; [|split].
  - unfold GeminiConfig_new; intros g c.
    destruct (GeminiConfig_fields_ok g); congruence.
  - unfold OpenAIConfig_new; intros o c.
    destruct (OpenAIConfig_fields_ok o); congruence.
  - unfold ChatConfig_from; intros p o g c.
    destruct (_ && _); congruence.
Qed.

(** The two examples of the specification: a Gemini temperature of 1.5 is
    refused, an OpenAI temperature of 1.5 is accepted. *)
Example temperature_one_and_a_half :
  GeminiConfig_new gemini_hot = Raise (validation_error "GeminiConfig")
  /\ OpenAIConfig_new openai_hot = Ok openai_hot.
Proof. split; reflexivity. Qed.

(** A temperature that is not a number is refused. *)
Example temperature_nan :
  GeminiConfig_new
    (mkGeminiConfig "gemini-pro" NaN (Finite 0.8) 40 2048 None)
  = Raise (validation_error "GeminiConfig").
Proof. reflexivity. Qed.

(** C5: when the selected provider's configuration carries an explicit,
    non-empty key and the provider's environment variable is set as well,
    [get_api_key] returns the explicit key. *)
Theorem C5_explicit_key_wins (getenv : string -> option string)
        (cfg : ChatConfig) (key env_key : string) :
  key <> "" ->
  (provider cfg = "openai" ->
   (exists o, openai_config cfg = Some o /\ o_api_key o = Some key)
   /\ getenv "OPENAI_API_KEY" = Some env_key) ->
  (provider cfg <> "openai" ->
   (exists g, gemini_config cfg = Some g /\ g_api_key g = Some key)
   /\ getenv "GOOGLE_API_KEY" = Some env_key) ->
  get_api_key getenv cfg = Ok (Some key).
Proof.
  intros Hkey Hopenai Hgemini; unfold get_api_key.
  assert (Htruthy : truthy_str key = true)
    by (destruct key; [congruence | reflexivity]).
  destruct (String.eqb_spec (provider cfg) "openai") as [Hp|Hp].
  - destruct (Hopenai Hp) as [(o & -> & Ho) _].
    unfold or_else; rewrite Ho; simpl; now rewrite Htruthy.
  - destruct (Hgemini Hp) as [(g & -> & Hg) _].
    unfold or_else; rewrite Hg; simpl; now rewrite Htruthy.
Qed.

Lemma C5_explicit_key_wins_witness :
  get_api_key env_with_keys keyed_gemini = Ok (Some "explicit-key")
  /\ get_api_key env_with_keys keyed_openai = Ok (Some "explicit-key").
Proof.
  split.
  - apply (C5_explicit_key_wins env_with_keys keyed_gemini
                                "explicit-key" "google-env-key").
    + discriminate.
    + intros H; discriminate H.
    + intros _; split; [|reflexivity].
      eexists; split; reflexivity.
  - apply (C5_explicit_key_wins env_with_keys keyed_openai
                                "explicit-key" "openai-env-key").
    + discriminate.
    + intros _; split; [|reflexivity].
      eexists; split; reflexivity.
    + intros H; now contradiction H.
Defined.

(** ** Token count and cost *)

Lemma split_from_length text :
  forall word,
    List.length (split_from word text)
    = match word with
      | [] => word_starts true text
      | _ :: _ => S (word_starts false text)
      end.
Proof.
  induction text as [|c rest IH]; intros word; simpl.
  - destruct word; reflexivity.
  - destruct (isspace c) eqn:Hc; simpl.
    + destruct word; simpl; rewrite (IH []); reflexivity.
    + rewrite (IH (c :: word)); destruct word; reflexivity.
Qed.

Lemma is_word_of_rev word :
  word <> [] ->
  (forall c, In c word -> isspace c = false) ->
  is_word (string_of_list_ascii (rev word)).
Proof.
  intros Hne Hns; split.
  - intros Heq; apply Hne.
    apply (f_equal list_ascii_of_string) in Heq.
    rewrite list_ascii_of_string_of_list_ascii in Heq; simpl in Heq.
    apply (f_equal (@rev ascii)) in Heq; rewrite rev_involutive in Heq.
    exact Heq.
  - intros c; rewrite list_ascii_of_string_of_list_ascii, <- in_rev.
    apply Hns.
Qed.

Lemma split_from_words text :
  forall word,
    (forall c, In c word -> isspace c = false) ->
    Forall is_word (split_from word text).
Proof.
  induction text as [|c rest IH]; intros word Hword; simpl.
  - destruct word as [|a word']; constructor; [|constructor].
    apply is_word_of_rev; [discriminate | exact Hword].
  - destruct (isspace c) eqn:Hc.
    + destruct word as [|a word'].
      * apply IH; intros ? [].
      * constructor; [apply is_word_of_rev; [discriminate | exact Hword]|].
        apply IH; intros ? [].
    + apply IH; intros c' [<-|Hin]; [exact Hc | now apply Hword].
Qed.

Lemma split_words text : Forall is_word (split text).
Proof. apply split_from_words; intros ? []. Qed.

Lemma count_tokens_word_count text :
  count_tokens text = Z.of_nat (word_count text).
Proof.
  unfold count_tokens, split, word_count.
  now rewrite (split_from_length text []).
Qed.

(** ** Rounding to the nearest float *)

Lemma pow2_pos e : 0 < 2 ^ e.
Proof. apply Qpower_0_lt; reflexivity. Qed.

Lemma pow2_nonzero e : ~ 2 ^ e == 0.
Proof. pose proof (pow2_pos e); lra. Qed.

Lemma pow2_plus a b : 2 ^ (a + b) == 2 ^ a * 2 ^ b.
Proof. apply Qpower_plus; discriminate. Qed.

Lemma pow2_succ a : 2 ^ (a + 1) == 2 * 2 ^ a.
Proof. rewrite pow2_plus; change (2 ^ 1) with 2; ring. Qed.

Lemma pow2_pred a : 2 ^ (a - 1) == (1 # 2) * 2 ^ a.
Proof.
  pose proof (pow2_succ (a - 1)) as H.
  replace (a - 1 + 1)%Z with a in H by lia.
  lra.
Qed.

Lemma pow2_cancel a : 2 ^ (- a) * 2 ^ a == 1.
Proof. rewrite <- pow2_plus; replace (- a + a)%Z with 0%Z by lia; reflexivity. Qed.

Lemma pow2_le a b : (a <= b)%Z -> 2 ^ a <= 2 ^ b.
Proof. intros H; apply Qpower_le_compat_l; [exact H | discriminate]. Qed.

Lemma pow2_inject a : (0 <= a)%Z -> inject_Z (2 ^ a) == 2 ^ a.
Proof. intros H; now rewrite Zpower_Qpower. Qed.

Lemma rint_error q : Qabs (inject_Z (rint q) - q) <= 1 # 2.
Proof.
  unfold rint.
  pose proof (Qfloor_le q) as Hlo.
  pose proof (Qlt_floor q) as Hhi.
  rewrite inject_Z_plus in Hhi; change (inject_Z 1) with 1 in Hhi.
  apply Qabs_Qle_condition.
  destruct (Qcompare_spec (q - inject_Z (Qfloor q)) (1 # 2)) as [H|H|H].
  - destruct (Z.even (Qfloor q));
      rewrite ?inject_Z_plus; change (inject_Z 1) with 1; lra.
  - lra.
  - rewrite inject_Z_plus; change (inject_Z 1) with 1; lra.
Qed.

Lemma Qabs_frac q :
  Qabs q == inject_Z (Z.abs (Qnum q)) / inject_Z (Z.pos (Qden q)).
Proof. destruct q as [n d]; cbn [Qabs Qnum Qden]; apply Qmake_Qdiv. Qed.

Lemma num_pos q : ~ q == 0 -> (0 < Z.abs (Qnum q))%Z.
Proof.
  intros H; destruct q as [n d]; cbn [Qnum].
  assert (n <> 0%Z); [|lia].
  intros ->; apply H; reflexivity.
Qed.

(** [2 ^ ilog2 q <= |q| < 2 ^ (ilog2 q + 1)] *)
Lemma ilog2_lower q : ~ q == 0 -> 2 ^ ilog2 q <= Qabs q.
Proof.
  intros Hq; unfold ilog2.
  set (n := Z.abs (Qnum q)); set (d := Z.pos (Qden q)).
  destruct (Qle_bool _ _) eqn:Htest; [now apply Qle_bool_iff|].
  pose proof (num_pos q Hq) as Hn; fold n in Hn.
  assert (Hd : (0 < d)%Z) by reflexivity.
  destruct (Z.log2_spec n Hn) as [Hn1 _].
  destruct (Z.log2_spec d Hd) as [_ Hd2].
  pose proof (Z.log2_nonneg n) as Ha; pose proof (Z.log2_nonneg d) as Hb.
  rewrite Qabs_frac; fold n d.
  apply Qle_shift_div_l; [change 0 with (inject_Z 0); now rewrite <- Zlt_Qlt|].
  rewrite Zle_Qle, pow2_inject in Hn1 by assumption.
  rewrite Zlt_Qlt, pow2_inject in Hd2 by lia.
  replace (Z.succ (Z.log2 d)) with (Z.log2 d + 1)%Z in Hd2 by lia.
  replace (Z.log2 n - Z.log2 d - 1)%Z
    with (Z.log2 n + - (Z.log2 d + 1))%Z by lia.
  rewrite pow2_plus.
  pose proof (pow2_cancel (Z.log2 d + 1)) as Hc.
  pose proof (pow2_pos (Z.log2 n)) as Hp.
  pose proof (pow2_pos (- (Z.log2 d + 1))) as Hp'.
  apply Qle_trans with (2 ^ Z.log2 n * (2 ^ (- (Z.log2 d + 1)) * 2 ^ (Z.log2 d + 1))).
  - rewrite <- Qmult_assoc. apply Qmult_le_l; [assumption|].
    apply Qmult_le_l; [assumption|]. now apply Qlt_le_weak.
  - rewrite Hc; lra.
Qed.

Lemma ilog2_upper q : ~ q == 0 -> Qabs q < 2 ^ (ilog2 q + 1).
Proof.
  intros Hq; unfold ilog2.
  set (n := Z.abs (Qnum q)); set (d := Z.pos (Qden q)).
  destruct (Qle_bool _ _) eqn:Htest.
  - pose proof (num_pos q Hq) as Hn; fold n in Hn.
    assert (Hd : (0 < d)%Z) by reflexivity.
    destruct (Z.log2_spec n Hn) as [_ Hn2].
    destruct (Z.log2_spec d Hd) as [Hd1 _].
    pose proof (Z.log2_nonneg n) as Ha; pose proof (Z.log2_nonneg d) as Hb.
    rewrite Qabs_frac; fold n d.
    apply Qlt_shift_div_r;
      [change 0 with (inject_Z 0); now rewrite <- Zlt_Qlt|].
    rewrite Zlt_Qlt, pow2_inject in Hn2 by lia.
    rewrite Zle_Qle, pow2_inject in Hd1 by assumption.
    replace (Z.succ (Z.log2 n)) with (Z.log2 n + 1)%Z in Hn2 by lia.
    replace (Z.log2 n - Z.log2 d + 1)%Z
      with ((Z.log2 n + 1) + - Z.log2 d)%Z by lia.
    rewrite pow2_plus.
    pose proof (pow2_cancel (Z.log2 d)) as Hc.
    pose proof (pow2_pos (Z.log2 n + 1)) as Hp.
    pose proof (pow2_pos (- Z.log2 d)) as Hp'.
    apply Qlt_le_trans with (2 ^ (Z.log2 n + 1)); [assumption|].
    apply Qle_trans
      with (2 ^ (Z.log2 n + 1) * (2 ^ (- Z.log2 d) * 2 ^ Z.log2 d)).
    + rewrite Hc; lra.
    + rewrite <- Qmult_assoc. apply Qmult_le_l; [assumption|].
      apply Qmult_le_l; assumption.
  - replace (Z.log2 n - Z.log2 d - 1 + 1)%Z
      with (Z.log2 n - Z.log2 d)%Z by lia.
    apply Qnot_le_lt; intros H; apply Qle_bool_iff in H; congruence.
Qed.

Lemma round_zero q : q == 0 -> round q = 0.
Proof. intros H; unfold round; now rewrite (proj2 (Qeq_bool_iff q 0) H). Qed.

Lemma round_nonzero q :
  ~ q == 0 ->
  round q = inject_Z (rint (q * 2 ^ (- ulp_exp q))) * 2 ^ ulp_exp q.
Proof.
  intros H; unfold round.
  destruct (Qeq_bool q 0) eqn:Hz; [|reflexivity].
  now apply Qeq_bool_iff in Hz.
Qed.

(** The error of rounding is at most half a unit in the last place. *)
Lemma round_half_ulp q :
  ~ q == 0 -> Qabs (round q - q) <= 2 ^ (ulp_exp q - 1).
Proof.
  intros Hq; rewrite (round_nonzero q Hq).
  set (x := ulp_exp q); set (m := q * 2 ^ (- x)).
  assert (Hm : q == m * 2 ^ x).
  { unfold m; rewrite <- Qmult_assoc, pow2_cancel; ring. }
  assert (Hdiff : inject_Z (rint m) * 2 ^ x - q
                  == (inject_Z (rint m) - m) * 2 ^ x).
  { rewrite Hm at 1; ring. }
  rewrite Hdiff, Qabs_Qmult, (Qabs_pos (2 ^ x)), pow2_pred
    by (apply Qlt_le_weak, pow2_pos).
  apply Qmult_le_compat_r; [apply rint_error | apply Qlt_le_weak, pow2_pos].
Qed.


Lemma round_error q :
  Qabs (round q - q) <= unit_roundoff * Qabs q + half_least.
Proof.
  assert (Hu : 0 < unit_roundoff) by apply pow2_pos.
  assert (Hl : 0 < half_least) by apply pow2_pos.
  pose proof (Qabs_nonneg q) as Habs.
  destruct (Qeq_dec q 0) as [Hz|Hq].
  - rewrite (round_zero q Hz).
    assert (H : 0 - q == 0) by (rewrite Hz; reflexivity).
    rewrite H; change (Qabs 0) with 0.
    apply Qle_trans with (0 + 0); [lra|].
    apply Qplus_le_compat; [apply Qmult_le_0_compat|]; lra.
  - apply Qle_trans with (1 := round_half_ulp q Hq).
    pose proof (ilog2_lower q Hq) as Hlow.
    unfold ulp_exp, prec, emin.
    destruct (Z.max_spec (ilog2 q - (53 - 1)) (-1074)) as [[_ ->]|[_ ->]].
    + change (2 ^ (-1074 - 1)) with half_least.
      assert (0 <= unit_roundoff * Qabs q) by (apply Qmult_le_0_compat; lra).
      lra.
    + replace (ilog2 q - (53 - 1) - 1)%Z with (-53 + ilog2 q)%Z by lia.
      rewrite pow2_plus; fold unit_roundoff.
      assert (unit_roundoff * 2 ^ ilog2 q <= unit_roundoff * Qabs q)
        by (apply Qmult_le_l; assumption).
      lra.
Qed.

Lemma round_rel_error q :
  q == 0 \/ least_normal <= Qabs q ->
  Qabs (round q - q) <= unit_roundoff * Qabs q.
Proof.
  assert (Hu : 0 < unit_roundoff) by apply pow2_pos.
  intros [Hz|Hbig].
  - rewrite (round_zero q Hz).
    assert (H : 0 - q == 0) by (rewrite Hz; reflexivity).
    rewrite H; change (Qabs 0) with 0.
    apply Qmult_le_0_compat; [lra | apply Qabs_nonneg].
  - assert (Hq : ~ q == 0).
    { intros Hz; rewrite Hz in Hbig; change (Qabs 0) with 0 in Hbig.
      pose proof (pow2_pos (-1022)); unfold least_normal in Hbig; lra. }
    apply Qle_trans with (1 := round_half_ulp q Hq).
    pose proof (ilog2_lower q Hq) as Hlow.
    unfold ulp_exp, prec, emin.
    destruct (Z.max_spec (ilog2 q - (53 - 1)) (-1074)) as [[_ ->]|[_ ->]].
    + replace (-1074 - 1)%Z with (-53 + -1022)%Z by lia.
      rewrite pow2_plus; fold unit_roundoff least_normal.
      apply Qmult_le_l; assumption.
    + replace (ilog2 q - (53 - 1) - 1)%Z with (-53 + ilog2 q)%Z by lia.
      rewrite pow2_plus; fold unit_roundoff.
      apply Qmult_le_l; assumption.
Qed.

(** ** estimate_cost *)

Ltac by_computation :=
  first [ apply Qle_bool_iff; vm_compute; reflexivity
        | apply Qlt_alt; vm_compute; reflexivity ].

Lemma overflows_false r : Qabs r < 2 ^ 1024 -> overflows r = false.
Proof.
  intros H; unfold overflows, emax.
  destruct (Qle_bool (2 ^ 1024) (Qabs r)) eqn:E; [|reflexivity].
  apply Qle_bool_iff in E; exfalso; exact (Qlt_not_le _ _ H E).
Qed.

Lemma overflows_false_inv r : overflows r = false -> Qabs r < 2 ^ 1024.
Proof.
  unfold overflows, emax; intros H.
  apply Qnot_le_lt; intros E; apply Qle_bool_iff in E; congruence.
Qed.

Lemma overflows_true r : 2 ^ 1024 <= Qabs r -> overflows r = true.
Proof. intros H; now apply Qle_bool_iff. Qed.

Lemma unit_roundoff_pos : 0 < unit_roundoff.
Proof. apply pow2_pos. Qed.

Lemma unit_roundoff_small : unit_roundoff <= 1 # 2.
Proof. by_computation. Qed.

(** Rounding adds at most one part in [2^53], and half the least float,
    to a magnitude. *)
Lemma round_abs_bound q bound :
  Qabs q <= bound ->
  Qabs (round q) <= (1 + unit_roundoff) * bound + half_least.
Proof.
  intros H.
  pose proof (round_error q) as He.
  pose proof unit_roundoff_pos as Hu.
  assert (Hsplit : round q == (round q - q) + q) by ring.
  rewrite Hsplit at 1.
  eapply Qle_trans; [apply Qabs_triangle|].
  assert (unit_roundoff * Qabs q <= unit_roundoff * bound)
    by (apply Qmult_le_l; assumption).
  lra.
Qed.

(** Rounding takes away at most one part in [2^53] from a magnitude that
    is not below the normal floats. *)
Lemma round_abs_lower q :
  least_normal <= Qabs q ->
  (1 - unit_roundoff) * Qabs q <= Qabs (round q).
Proof.
  intros H.
  pose proof (round_rel_error q (or_intror H)) as He.
  pose proof (Qabs_triangle_reverse q (round q)) as Ht.
  rewrite Qabs_Qminus in Ht.
  lra.
Qed.

(** The rounding of a value that is not negative, and zero or normal. *)
Lemma round_near q :
  0 <= q ->
  q == 0 \/ least_normal <= q ->
  (1 - unit_roundoff) * q <= round q <= (1 + unit_roundoff) * q.
Proof.
  intros Hq Hn.
  assert (Hn' : q == 0 \/ least_normal <= Qabs q).
  { destruct Hn as [H|H]; [now left | right; now rewrite Qabs_pos]. }
  pose proof (round_rel_error q Hn') as He.
  rewrite (Qabs_pos q Hq) in He.
  apply Qabs_Qle_condition in He.
  lra.
Qed.

(** A value [y] known up to the factors [l] and [h] around [x] is, once
    rounded, known up to [(1-u) l] and [(1+u) h]. *)
Lemma near_round l h x y :
  0 <= x ->
  zero_or_above (2 ^ (-40)) x ->
  1 # 2 <= l ->
  l * x <= y <= h * x ->
  ((1 - unit_roundoff) * l) * x <= round y
  <= ((1 + unit_roundoff) * h) * x.
Proof.
  intros Hx Hzero Hl [Hlo Hhi].
  pose proof unit_roundoff_pos as Hu.
  pose proof unit_roundoff_small as Hu'.
  assert (Hlx : 0 <= l * x) by (apply Qmult_le_0_compat; lra).
  assert (Hy : 0 <= y) by lra.
  assert (Hnormal : y == 0 \/ least_normal <= y).
  { destruct Hzero as [Hz|Hbig].
    - left; rewrite Hz in Hlo, Hhi; lra.
    - right.
      assert (H1 : (1 # 2) * 2 ^ (-40) <= l * x).
      { apply Qmult_le_compat_nonneg; split; lra. }
      assert (H2 : least_normal <= (1 # 2) * 2 ^ (-40)) by by_computation.
      lra. }
  destruct (round_near y Hy Hnormal) as [Hr1 Hr2].
  assert (H1 : (1 - unit_roundoff) * (l * x) <= (1 - unit_roundoff) * y)
    by (apply Qmult_le_l; lra).
  assert (H2 : (1 + unit_roundoff) * y <= (1 + unit_roundoff) * (h * x))
    by (apply Qmult_le_l; lra).
  split; lra.
Qed.

Lemma near_mult l h x y l' h' x' y' :
  0 <= l -> 0 <= l' -> 0 <= x -> 0 <= x' ->
  l * x <= y <= h * x ->
  l' * x' <= y' <= h' * x' ->
  (l * l') * (x * x') <= y * y' <= (h * h') * (x * x').
Proof.
  intros Hl Hl' Hx Hx' [Hlo Hhi] [Hlo' Hhi'].
  assert (H0 : 0 <= l * x) by now apply Qmult_le_0_compat.
  assert (H0' : 0 <= l' * x') by now apply Qmult_le_0_compat.
  assert (H1 : (l * x) * (l' * x') <= y * y')
    by (apply Qmult_le_compat_nonneg; split; assumption).
  assert (H2 : y * y' <= (h * x) * (h' * x'))
    by (apply Qmult_le_compat_nonneg; split; lra).
  split; lra.
Qed.

Lemma int_truediv_thousand n :
  int_truediv n 1000
  = if overflows (round (inject_Z n / 1000)) then Raise overflow_error
    else Ok (Finite (round (inject_Z n / 1000))).
Proof. reflexivity. Qed.

Lemma literal_prices :
  float_literal 0.00025 = Finite (round 0.00025)
  /\ float_literal 0.0005 = Finite (round 0.0005).
Proof. split; vm_compute; reflexivity. Qed.

Lemma rounded_prices_small :
  Qabs (round 0.00025) <= 2 ^ (-11) /\ Qabs (round 0.0005) <= 2 ^ (-10).
Proof. split; by_computation. Qed.

Lemma of_real_finite q : overflows (round q) = false -> of_real q = Finite (round q).
Proof. intros H; unfold of_real; now rewrite H. Qed.

(** A float times a rounded price is far from overflowing. *)
Lemma price_product_bound a k e :
  Qabs a < 2 ^ 1024 ->
  Qabs k <= 2 ^ e ->
  (e <= -10)%Z ->
  Qabs (round (a * k)) <= 2 ^ 1015.
Proof.
  intros Ha Hk He.
  assert (Hk' : Qabs k <= 2 ^ (-10)).
  { apply Qle_trans with (1 := Hk); now apply pow2_le. }
  assert (Hprod : Qabs (a * k) <= 2 ^ 1024 * 2 ^ (-10)).
  { rewrite Qabs_Qmult.
    apply Qmult_le_compat_nonneg; split;
      try apply Qabs_nonneg; [now apply Qlt_le_weak | assumption]. }
  apply Qle_trans with (1 := round_abs_bound _ _ Hprod).
  by_computation.
Qed.

(** [estimate_cost] in closed form: the two divisions can overflow, and
    then [OverflowError] is raised; the products and the sum cannot, so
    that no infinity and no NaN is ever returned. *)
Lemma estimate_cost_closed i o :
  estimate_cost i o
  = if overflows (round (inject_Z i / 1000)) then Raise overflow_error
    else if overflows (round (inject_Z o / 1000)) then Raise overflow_error
    else Ok (Finite
               (round (round (round (inject_Z i / 1000) * round 0.00025)
                       + round (round (inject_Z o / 1000) * round 0.0005)))).
Proof.
  unfold estimate_cost; rewrite !int_truediv_thousand.
  destruct (overflows (round (inject_Z i / 1000))) eqn:Hi; [reflexivity|].
  destruct (overflows (round (inject_Z o / 1000))) eqn:Ho; [reflexivity|].
  destruct literal_prices as [-> ->]; cbn [float_mul].
  apply overflows_false_inv in Hi, Ho.
  destruct rounded_prices_small as [Hk1 Hk2].
  pose proof (price_product_bound _ _ _ Hi Hk1 ltac:(lia)) as Hp1.
  pose proof (price_product_bound _ _ _ Ho Hk2 ltac:(lia)) as Hp2.
  set (p1 := round (round (inject_Z i / 1000) * round 0.00025)) in *.
  set (p2 := round (round (inject_Z o / 1000) * round 0.0005)) in *.
  assert (H1015 : 2 ^ 1015 < 2 ^ 1024) by by_computation.
  rewrite !of_real_finite
    by (apply overflows_false; eapply Qle_lt_trans; eassumption).
  cbn [float_add].
  rewrite of_real_finite; [reflexivity|].
  apply overflows_false.
  assert (Hsum : Qabs (p1 + p2) <= 2 ^ 1015 + 2 ^ 1015).
  { eapply Qle_trans; [apply Qabs_triangle|].
    apply Qplus_le_compat; assumption. }
  eapply Qle_lt_trans; [apply (round_abs_bound _ _ Hsum)|].
  by_computation.
Qed.

Lemma Qabs_inject n : Qabs (inject_Z n) = inject_Z (Z.abs n).
Proof. reflexivity. Qed.

Lemma Qabs_thousandth n :
  Qabs (inject_Z n / 1000) == inject_Z (Z.abs n) / 1000.
Proof.
  unfold Qdiv; rewrite Qabs_Qmult, Qabs_inject.
  apply Qmult_comp; reflexivity.
Qed.

(** The division by 1000 of a count below [2^1023] in magnitude
    returns. *)
Lemma division_returns n :
  (Z.abs n <= 2 ^ 1023)%Z ->
  overflows (round (inject_Z n / 1000)) = false.
Proof.
  intros Hn; apply overflows_false.
  assert (Hq : Qabs (inject_Z n / 1000) <= 2 ^ 1023).
  { rewrite Qabs_thousandth.
    rewrite Zle_Qle, pow2_inject in Hn by lia.
    assert (0 <= inject_Z (Z.abs n))
      by (change 0 with (inject_Z 0); rewrite <- Zle_Qle; lia).
    apply Qle_shift_div_r; [reflexivity|].
    set (p := 2 ^ 1023) in *; lra. }
  eapply Qle_lt_trans; [apply (round_abs_bound _ _ Hq)|].
  by_computation.
Qed.

(** The division by 1000 of a count of magnitude [2^1034] or more raises
    [OverflowError]. *)
Lemma division_overflows n :
  (2 ^ 1034 <= Z.abs n)%Z ->
  overflows (round (inject_Z n / 1000)) = true.
Proof.
  intros Hn; apply overflows_true.
  rewrite Zle_Qle, pow2_inject in Hn by lia.
  assert (Hq : 2 ^ 1034 / 1000 <= Qabs (inject_Z n / 1000)).
  { rewrite Qabs_thousandth.
    apply Qle_shift_div_l; [reflexivity|].
    set (p := 2 ^ 1034) in *.
    assert (Hc : p / 1000 * 1000 == p) by field.
    now rewrite Hc. }
  assert (Hnormal : least_normal <= Qabs (inject_Z n / 1000)).
  { apply Qle_trans with (2 := Hq); by_computation. }
  apply Qle_trans with (2 := round_abs_lower _ Hnormal).
  apply Qle_trans
    with ((1 - unit_roundoff) * (2 ^ 1034 / 1000)); [by_computation|].
  apply Qmult_le_l; [|exact Hq].
  pose proof unit_roundoff_small; lra.
Qed.

Lemma count_quotient n :
  (0 <= n)%Z ->
  0 <= inject_Z n / 1000 /\ zero_or_above (1 # 1000) (inject_Z n / 1000).
Proof.
  intros Hn.
  destruct (Z.eq_dec n 0) as [->|Hpos].
  - split; [apply Qle_bool_iff; reflexivity | left; reflexivity].
  - assert (H1 : 1 <= inject_Z n)
      by (change 1 with (inject_Z 1); rewrite <- Zle_Qle; lia).
    split; [|right]; (apply Qle_shift_div_l; [reflexivity | lra]).
Qed.

Lemma product_zero_or_above q k :
  0 <= q ->
  zero_or_above (1 # 1000) q ->
  2 ^ (-40) <= (1 # 1000) * k ->
  zero_or_above (2 ^ (-40)) (q * k).
Proof.
  intros Hq [Hz|Hbig] Hk.
  - left; rewrite Hz; ring.
  - right.
    assert (0 <= k).
    { pose proof (pow2_pos (-40)); set (p := 2 ^ (-40)) in *; lra. }
    apply Qle_trans with (1 := Hk).
    now apply Qmult_le_compat_r.
Qed.

Lemma sum_zero_or_above t x y :
  0 <= x -> 0 <= y ->
  zero_or_above t x -> zero_or_above t y -> zero_or_above t (x + y).
Proof.
  intros Hx Hy [Hzx|Hbx] [Hzy|Hby];
    [left | right | right | right]; lra.
Qed.

(** The returned cost of counts that are not negative lies within one
    part in [2^50] of the cost in exact arithmetic: each of the four
    roundings on the way, of the quotient, of the price, of the product
    and of the sum, is off by at most one part in [2^53]. *)
Lemma estimate_cost_accuracy i o :
  (0 <= i <= 2 ^ 1023)%Z ->
  (0 <= o <= 2 ^ 1023)%Z ->
  exists c,
    estimate_cost i o = Ok (Finite c)
    /\ Qabs (c - spec_cost i o) <= 2 ^ (-50) * spec_cost i o.
Proof.
  intros [Hi0 Hi] [Ho0 Ho].
  rewrite estimate_cost_closed.
  rewrite !division_returns by (rewrite Z.abs_eq; assumption).
  eexists; split; [reflexivity|].
  unfold spec_cost.
  destruct (count_quotient i Hi0) as [Hq1 Hz1].
  destruct (count_quotient o Ho0) as [Hq2 Hz2].
  set (q1 := inject_Z i / 1000) in *.
  set (q2 := inject_Z o / 1000) in *.
  assert (Hweak : forall q, zero_or_above (1 # 1000) q ->
                            zero_or_above (2 ^ (-40)) q).
  { intros q [Hz|Hbig]; [now left | right].
    apply Qle_trans with (2 := Hbig); by_computation. }
  assert (Hone : forall x, 1 * x <= x <= 1 * x) by (intros x; lra).
  assert (Hhalf1 : 1 # 2 <= 1) by by_computation.
  assert (Hk1 : 0 <= 0.00025) by by_computation.
  assert (Hk2 : 0 <= 0.0005) by by_computation.
  assert (Hzk1 : zero_or_above (2 ^ (-40)) 0.00025) by (right; by_computation).
  assert (Hzk2 : zero_or_above (2 ^ (-40)) 0.0005) by (right; by_computation).
  pose proof (near_round 1 1 q1 q1 Hq1 (Hweak _ Hz1) Hhalf1 (Hone q1)) as Ha.
  pose proof (near_round 1 1 q2 q2 Hq2 (Hweak _ Hz2) Hhalf1 (Hone q2)) as Hb.
  pose proof (near_round 1 1 _ _ Hk1 Hzk1 Hhalf1 (Hone 0.00025)) as Hc1.
  pose proof (near_round 1 1 _ _ Hk2 Hzk2 Hhalf1 (Hone 0.0005)) as Hc2.
  assert (Hd : 0 <= (1 - unit_roundoff) * 1) by by_computation.
  pose proof (near_mult _ _ _ _ _ _ _ _ Hd Hd Hq1 Hk1 Ha Hc1) as Hm1.
  pose proof (near_mult _ _ _ _ _ _ _ _ Hd Hd Hq2 Hk2 Hb Hc2) as Hm2.
  assert (Hx1 : 0 <= q1 * 0.00025) by now apply Qmult_le_0_compat.
  assert (Hx2 : 0 <= q2 * 0.0005) by now apply Qmult_le_0_compat.
  assert (Hzx1 : zero_or_above (2 ^ (-40)) (q1 * 0.00025))
    by (apply product_zero_or_above; [assumption..|by_computation]).
  assert (Hzx2 : zero_or_above (2 ^ (-40)) (q2 * 0.0005))
    by (apply product_zero_or_above; [assumption..|by_computation]).
  assert (Hhalf2 : 1 # 2 <= (1 - unit_roundoff) * 1 * ((1 - unit_roundoff) * 1))
    by by_computation.
  pose proof (near_round _ _ _ _ Hx1 Hzx1 Hhalf2 Hm1) as Hp1.
  pose proof (near_round _ _ _ _ Hx2 Hzx2 Hhalf2 Hm2) as Hp2.
  set (p1 := round (round q1 * round 0.00025)) in *.
  set (p2 := round (round q2 * round 0.0005)) in *.
  set (x1 := q1 * 0.00025) in *.
  set (x2 := q2 * 0.0005) in *.
  assert (Hhalf3 : 1 # 2 <= (1 - unit_roundoff)
                            * ((1 - unit_roundoff) * 1
                               * ((1 - unit_roundoff) * 1)))
    by by_computation.
  assert (Hsum : (1 - unit_roundoff)
                 * ((1 - unit_roundoff) * 1 * ((1 - unit_roundoff) * 1))
                 * (x1 + x2)
                 <= p1 + p2
                 <= (1 + unit_roundoff)
                    * ((1 + unit_roundoff) * 1 * ((1 + unit_roundoff) * 1))
                    * (x1 + x2)).
  { set (l := (1 - unit_roundoff)
              * ((1 - unit_roundoff) * 1 * ((1 - unit_roundoff) * 1))) in *.
    set (h := (1 + unit_roundoff)
              * ((1 + unit_roundoff) * 1 * ((1 + unit_roundoff) * 1))) in *.
    split; lra. }
  assert (Hx : 0 <= x1 + x2) by lra.
  pose proof (near_round _ _ _ _ Hx
                (sum_zero_or_above _ _ _ Hx1 Hx2 Hzx1 Hzx2) Hhalf3 Hsum)
    as [Hlow Hhigh].
  assert (Hl : 1 - 2 ^ (-50)
               <= (1 - unit_roundoff)
                  * ((1 - unit_roundoff)
                     * ((1 - unit_roundoff) * 1
                        * ((1 - unit_roundoff) * 1))))
    by by_computation.
  assert (Hh : (1 + unit_roundoff)
               * ((1 + unit_roundoff)
                  * ((1 + unit_roundoff) * 1 * ((1 + unit_roundoff) * 1)))
               <= 1 + 2 ^ (-50))
    by by_computation.
  apply (Qmult_le_compat_r _ _ _ Hl) in Hx as Hl'.
  apply (Qmult_le_compat_r _ _ _ Hh) in Hx as Hh'.
  apply Qabs_Qle_condition.
  set (c := round (p1 + p2)) in *.
  set (e := 2 ^ (-50)) in *.
  set (l := (1 - unit_roundoff) * _) in *.
  set (h := (1 + unit_roundoff) * _) in *.
  split; lra.
Qed.

(** ** Rounding keeps the order *)

Lemma rint_bounds q : (Qfloor q <= rint q <= Qfloor q + 1)%Z.
Proof.
  unfold rint.
  destruct (q - inject_Z (Qfloor q) ?= 1 # 2)%Q;
    [destruct (Z.even (Qfloor q))| |]; lia.
Qed.

Lemma rint_inject z : rint (inject_Z z) = z.
Proof.
  unfold rint; rewrite Qfloor_Z.
  destruct (Qcompare_spec (inject_Z z - inject_Z z) (1 # 2)) as [H|H|H];
    [exfalso; lra | reflexivity | exfalso; lra].
Qed.

Lemma rint_comp q q' : q == q' -> rint q = rint q'.
Proof.
  intros H; unfold rint.
  rewrite (Qfloor_comp q q' H).
  assert (Hc : (q - inject_Z (Qfloor q') ?= 1 # 2)%Q
               = (q' - inject_Z (Qfloor q') ?= 1 # 2)%Q)
    by (apply Qcompare_comp; [rewrite H|]; reflexivity).
  now rewrite Hc.
Qed.

Lemma rint_monotone a b : a <= b -> (rint a <= rint b)%Z.
Proof.
  intros Hab.
  pose proof (Qfloor_resp_le a b Hab) as Hfloor.
  destruct (Z.eq_dec (Qfloor a) (Qfloor b)) as [Hsame|Hdiff].
  - unfold rint; rewrite Hsame.
    destruct (Qcompare_spec (a - inject_Z (Qfloor b)) (1 # 2)) as [Ha|Ha|Ha];
      destruct (Qcompare_spec (b - inject_Z (Qfloor b)) (1 # 2))
        as [Hb|Hb|Hb];
      try destruct (Z.even (Qfloor b)); try lia; exfalso; lra.
  - pose proof (rint_bounds a); pose proof (rint_bounds b); lia.
Qed.

Lemma round_nonneg q : 0 <= q -> 0 <= round q.
Proof.
  intros Hq.
  destruct (Qeq_dec q 0) as [Hz|Hnz].
  - rewrite (round_zero q Hz); lra.
  - rewrite (round_nonzero q Hnz).
    apply Qmult_le_0_compat; [|apply Qlt_le_weak, pow2_pos].
    change 0 with (inject_Z 0); rewrite <- Zle_Qle.
    rewrite <- (rint_inject 0); apply rint_monotone.
    apply Qmult_le_0_compat; [exact Hq | apply Qlt_le_weak, pow2_pos].
Qed.

Lemma pow2_lt_inv a b : 2 ^ a < 2 ^ b -> (a < b)%Z.
Proof. intros H; apply (Qpower_lt_compat_l_inv 2); [exact H | reflexivity]. Qed.

Lemma pow2_split a b : 2 ^ a == 2 ^ (a - b) * 2 ^ b.
Proof. rewrite <- pow2_plus; replace (a - b + b)%Z with a by lia; reflexivity. Qed.

Lemma ilog2_unique q e :
  2 ^ e <= Qabs q -> Qabs q < 2 ^ (e + 1) -> ilog2 q = e.
Proof.
  intros Hlo Hhi.
  assert (Hq : ~ q == 0).
  { intros Hz; rewrite Hz in Hlo; change (Qabs 0) with 0 in Hlo.
    pose proof (pow2_pos e); lra. }
  pose proof (ilog2_lower q Hq) as Hlo'.
  pose proof (ilog2_upper q Hq) as Hhi'.
  assert (ilog2 q < e + 1)%Z
    by (apply pow2_lt_inv; eapply Qle_lt_trans; eassumption).
  assert (e < ilog2 q + 1)%Z
    by (apply pow2_lt_inv; eapply Qle_lt_trans; eassumption).
  lia.
Qed.

Lemma ilog2_comp q q' : ~ q == 0 -> q == q' -> ilog2 q = ilog2 q'.
Proof.
  intros Hq H.
  assert (Hq' : ~ q' == 0) by (intros Hz; apply Hq; now rewrite H).
  apply ilog2_unique; rewrite (Qabs_wd q q' H).
  - now apply ilog2_lower.
  - now apply ilog2_upper.
Qed.

(** [round] does not depend on how the rational is written. *)
Lemma round_comp q q' : q == q' -> round q = round q'.
Proof.
  intros H.
  destruct (Qeq_dec q 0) as [Hz|Hnz].
  - rewrite (round_zero q Hz), (round_zero q'); [reflexivity|].
    now rewrite <- H.
  - assert (Hnz' : ~ q' == 0) by (intros Hz; apply Hnz; now rewrite H).
    rewrite (round_nonzero q Hnz), (round_nonzero q' Hnz').
    unfold ulp_exp; rewrite <- (ilog2_comp q q' Hnz H).
    set (x := Z.max (ilog2 q - (prec - 1)) emin).
    rewrite (rint_comp (q * 2 ^ (- x)) (q' * 2 ^ (- x))); [reflexivity|].
    apply Qmult_comp; [exact H | reflexivity].
Qed.

Lemma ilog2_monotone q q' : 0 < q -> q <= q' -> (ilog2 q <= ilog2 q')%Z.
Proof.
  intros Hq Hle.
  assert (Hnz : ~ q == 0) by lra.
  assert (Hnz' : ~ q' == 0) by lra.
  pose proof (ilog2_lower q Hnz) as Hlo.
  pose proof (ilog2_upper q' Hnz') as Hhi.
  rewrite Qabs_pos in Hlo, Hhi by lra.
  assert (ilog2 q < ilog2 q' + 1)%Z; [|lia].
  apply pow2_lt_inv.
  set (a := 2 ^ ilog2 q) in *; set (b := 2 ^ (ilog2 q' + 1)) in *; lra.
Qed.

(** Rounding keeps the order of values that are not negative. *)
Lemma round_monotone q q' : 0 <= q -> q <= q' -> round q <= round q'.
Proof.
  intros Hq Hle.
  destruct (Qeq_dec q 0) as [Hz|Hnz].
  { rewrite (round_zero q Hz); apply round_nonneg; lra. }
  assert (Hpos : 0 < q) by lra.
  assert (Hnz' : ~ q' == 0) by lra.
  pose proof (ilog2_monotone q q' Hpos Hle) as He.
  pose proof (round_nonneg q' ltac:(lra)) as Hr'.
  rewrite (round_nonzero q Hnz), (round_nonzero q' Hnz') in *.
  pose proof (ilog2_upper q Hnz) as Hup.
  pose proof (ilog2_lower q' Hnz') as Hlow'.
  rewrite Qabs_pos in Hup, Hlow' by lra.
  unfold ulp_exp, prec, emin in *.
  set (e := ilog2 q) in *; set (e' := ilog2 q') in *.
  set (x := Z.max (e - (53 - 1)) (-1074)) in *.
  set (x' := Z.max (e' - (53 - 1)) (-1074)) in *.
  pose proof (pow2_pos x) as Hx; pose proof (pow2_pos x') as Hx'.
  pose proof (pow2_pos (- x)) as Hnx; pose proof (pow2_pos (- x')) as Hnx'.
  destruct (Z.eq_dec x x') as [Hsame|Hdiff].
  - rewrite <- Hsame.
    apply Qmult_le_compat_r; [|now apply Qlt_le_weak].
    rewrite <- Zle_Qle; apply rint_monotone.
    apply Qmult_le_compat_r; [exact Hle | now apply Qlt_le_weak].
  - assert (Hx'eq : x' = (e' - 52)%Z) by lia.
    assert (Hee : (e + 1 <= e')%Z) by lia.
    (* the greater value rounds to [2 ^ e'] at least *)
    assert (Hbig : 2 ^ e' <= inject_Z (rint (q' * 2 ^ (- x'))) * 2 ^ x').
    { assert (Hm : inject_Z (2 ^ 52) <= q' * 2 ^ (- x')).
      { rewrite pow2_inject by lia.
        replace 52%Z with (e' + - x')%Z by lia.
        rewrite pow2_plus.
        apply Qmult_le_compat_r; [exact Hlow' | now apply Qlt_le_weak]. }
      apply rint_monotone in Hm; rewrite rint_inject in Hm.
      rewrite Zle_Qle, pow2_inject in Hm by lia.
      rewrite (pow2_split e' x').
      replace (e' - x')%Z with 52%Z by lia.
      apply Qmult_le_compat_r; [exact Hm | now apply Qlt_le_weak]. }
    (* the lesser value rounds to [2 ^ (e + 1)] at most *)
    assert (Hsmall : inject_Z (rint (q * 2 ^ (- x))) * 2 ^ x
                     <= 2 ^ (e + 1)).
    { destruct (Z_le_gt_dec 0 (e + 1 - x)) as [Hn|Hn].
      - assert (Hm : q * 2 ^ (- x) <= inject_Z (2 ^ (e + 1 - x))).
        { rewrite pow2_inject by lia.
          replace (e + 1 - x)%Z with ((e + 1) + - x)%Z by lia.
          rewrite pow2_plus.
          apply Qmult_le_compat_r; [|now apply Qlt_le_weak].
          now apply Qlt_le_weak. }
        apply rint_monotone in Hm; rewrite rint_inject in Hm.
        rewrite Zle_Qle, pow2_inject in Hm by lia.
        rewrite (pow2_split (e + 1) x).
        apply Qmult_le_compat_r; [exact Hm | now apply Qlt_le_weak].
      - assert (Hm : q * 2 ^ (- x) <= 1 # 2).
        { apply Qle_trans with (2 ^ (e + 1) * 2 ^ (- x)).
          - apply Qmult_le_compat_r; now apply Qlt_le_weak.
          - rewrite <- pow2_plus.
            change (1 # 2) with (2 ^ (-1)); apply pow2_le; lia. }
        apply rint_monotone in Hm.
        change (rint (1 # 2)) with 0%Z in Hm.
        rewrite Zle_Qle in Hm.
        pose proof (pow2_pos (e + 1)).
        apply Qle_trans with (0 * 2 ^ x); [|lra].
        apply Qmult_le_compat_r; [exact Hm | now apply Qlt_le_weak]. }
    apply Qle_trans with (1 := Hsmall).
    apply Qle_trans with (2 := Hbig).
    apply pow2_le; lia.
Qed.

(** Doubling commutes with rounding in the range of the normal floats. *)
Lemma round_double q :
  least_normal <= Qabs q -> round (2 * q) == 2 * round q.
Proof.
  intros Hn.
  assert (Hq : ~ q == 0).
  { intros Hz; rewrite Hz in Hn; change (Qabs 0) with 0 in Hn.
    pose proof (pow2_pos (-1022)); unfold least_normal in Hn; lra. }
  assert (Hq2 : ~ 2 * q == 0) by lra.
  pose proof (ilog2_lower q Hq) as Hlo.
  pose proof (ilog2_upper q Hq) as Hhi.
  assert (Habs : Qabs (2 * q) == 2 * Qabs q)
    by (rewrite Qabs_Qmult; reflexivity).
  assert (He2 : ilog2 (2 * q) = (ilog2 q + 1)%Z).
  { apply ilog2_unique; rewrite Habs, pow2_succ; lra. }
  assert (He : (-1022 < ilog2 q + 1)%Z).
  { apply pow2_lt_inv; unfold least_normal in Hn.
    eapply Qle_lt_trans; eassumption. }
  rewrite (round_nonzero q Hq), (round_nonzero (2 * q) Hq2).
  unfold ulp_exp, prec, emin; rewrite He2.
  rewrite !Z.max_l by lia.
  set (x := (ilog2 q - (53 - 1))%Z).
  replace (ilog2 q + 1 - (53 - 1))%Z with (x + 1)%Z by (unfold x; lia).
  assert (Hm : 2 * q * 2 ^ (- (x + 1)) == q * 2 ^ (- x)).
  { replace (- (x + 1))%Z with (- x - 1)%Z by lia.
    rewrite pow2_pred; ring. }
  rewrite (rint_comp _ _ Hm), pow2_succ; ring.
Qed.

(** ** Word count and cost *)

Ltac float_returned :=
  match goal with
  | |- returns_float ?r ?q =>
      exists (match r with Ok (Finite c) => c | _ => 0 end);
      split; vm_compute; reflexivity
  end.

Ltac distinct_rationals :=
  let H := fresh in intros H; vm_compute in H; discriminate.

Lemma spec_cost_prices i o :
  spec_cost i o == inject_Z i * input_price + inject_Z o * output_price.
Proof. unfold spec_cost, input_price, output_price; field. Qed.

Lemma word_starts_bound text :
  (2 * word_starts true text <= String.length text + 1)%nat
  /\ (2 * word_starts false text <= String.length text)%nat.
Proof.
  induction text as [|c rest [IHt IHf]]; simpl; [lia|].
  destruct (isspace c); simpl; lia.
Qed.

(** The word count of a text a Python process can hold is far below the
    counts whose division overflows. *)
Lemma count_tokens_range text :
  (Z.of_nat (String.length text) < 2 ^ 63)%Z ->
  (0 <= count_tokens text <= 2 ^ 1023)%Z.
Proof.
  intros Hlen; rewrite count_tokens_word_count; unfold word_count.
  pose proof (proj1 (word_starts_bound text)) as Hbound.
  assert (2 ^ 63 <= 2 ^ 1023)%Z by (apply Z.pow_le_mono_r; lia).
  lia.
Qed.

(** The model agrees with the floats of the machine on these counts. *)
Example estimate_cost_agrees_with_machine :
  forallb agrees_with_machine
          [ (0, 0); (1, 0); (2, 0); (3, 0); (4, 0); (5, 0); (0, 1); (0, 3);
            (1, 1); (3, 3); (7, 11); (12, 20); (999, 1); (2000, 1000);
            (123456789, 987654321); (4503599627370497, 9007199254740991) ]%Z
  = true.
Proof. vm_compute; reflexivity. Qed.

(** C7, as stated, fails for the float the code returns.  For an input of
    three words and an empty output the returned cost is not
    (3/1000)*0.00025 read in exact arithmetic, and the cost is not linear
    in the input count: the third word adds another amount than the second
    one did.  Likewise the cost of 12 and 20 tokens is the float
    1.3000000000000001e-05, not thirteen millionths.  The rationals below
    are the exact values of the floats Python returns. *)
Lemma C7_cost_is_not_linear :
  let c1 := 4722366482869645 # 18889465931478580854784 in
  let c2 := 4722366482869645 # 9444732965739290427392 in
  let c3 := 1770887431076117 # 2361183241434822606848 in
  let c := 3836922767331587 # 295147905179352825856 in
  returns_float (estimate_cost (count_tokens "one") (count_tokens "")) c1
  /\ returns_float (estimate_cost (count_tokens "one two")
                                  (count_tokens "")) c2
  /\ returns_float (estimate_cost (count_tokens "one two three")
                                  (count_tokens "")) c3
  /\ ~ c3 - c2 == c2 - c1
  /\ ~ c3 == spec_cost 3 0
  /\ returns_float (estimate_cost 12 20) c
  /\ spec_cost 12 20 == 13 # 1000000
  /\ ~ c == spec_cost 12 20
  /\ ~ c == round (spec_cost 12 20).
Proof.
  cbv zeta.
  split; [float_returned|].
  split; [float_returned|].
  split; [float_returned|].
  split; [distinct_rationals|].
  split; [distinct_rationals|].
  split; [float_returned|].
  split; [reflexivity|].
  split; distinct_rationals.
Qed.

(** C7, amended: the token estimate of a text is its whitespace-split word
    count (the number of pieces [split] cuts it into, each a run of
    characters that are not whitespace, and as many as the text has word
    starts).  The cost is the value of
    (input_tokens/1000)*0.00025 + (output_tokens/1000)*0.0005 in float
    arithmetic: the two quotients, the two products and the sum are each
    rounded to the nearest float, and so are the two prices.  It is a
    function of the two counts alone.  [OverflowError] is its one failure:
    it is raised when a count has magnitude [2^1034] or more, never when
    both are at most [2^1023], and no infinity or NaN is returned.  The
    cost is not linear in the counts; for counts that are not negative,
    and so for the counts of any two texts a Python process can hold, it
    lies within one part in [2^50] of the exact value of the formula, and
    that value is linear in each count on its own: one more input token
    adds the input price, one more output token adds the output price,
    whatever the other count is. *)
Theorem C7_estimate_usage_linear_up_to_rounding :
  (forall text, count_tokens text = Z.of_nat (word_count text))
  /\ (forall text,
        count_tokens text = Z.of_nat (List.length (split text))
        /\ Forall is_word (split text))
  /\ (forall i o,
        estimate_cost i o
        = if overflows (round (inject_Z i / 1000)) then Raise overflow_error
          else if overflows (round (inject_Z o / 1000))
               then Raise overflow_error
               else
                 Ok (Finite
                       (round
                          (round (round (inject_Z i / 1000) * round 0.00025)
                           + round (round (inject_Z o / 1000)
                                    * round 0.0005)))))
  /\ (forall i o,
        (Z.abs i <= 2 ^ 1023)%Z -> (Z.abs o <= 2 ^ 1023)%Z ->
        exists c, estimate_cost i o = Ok (Finite c))
  /\ (forall i o,
        (2 ^ 1034 <= Z.abs i)%Z \/ (2 ^ 1034 <= Z.abs o)%Z ->
        estimate_cost i o = Raise overflow_error)
  /\ (forall i o,
        (0 <= i <= 2 ^ 1023)%Z -> (0 <= o <= 2 ^ 1023)%Z ->
        exists c,
          estimate_cost i o = Ok (Finite c)
          /\ Qabs (c - spec_cost i o) <= 2 ^ (-50) * spec_cost i o)
  /\ (forall input_text output_text,
        (Z.of_nat (String.length input_text) < 2 ^ 63)%Z ->
        (Z.of_nat (String.length output_text) < 2 ^ 63)%Z ->
        exists c,
          estimate_cost (count_tokens input_text) (count_tokens output_text)
          = Ok (Finite c)
          /\ Qabs (c - spec_cost (count_tokens input_text)
                                 (count_tokens output_text))
             <= 2 ^ (-50) * spec_cost (count_tokens input_text)
                                      (count_tokens output_text))
  /\ (forall i d o,
        spec_cost (i + d) o == spec_cost i o + inject_Z d * input_price)
  /\ (forall i o d,
        spec_cost i (o + d) == spec_cost i o + inject_Z d * output_price).
Proof.
  split; [exact count_tokens_word_count|].
  split; [intros text; split; [reflexivity | apply split_words]|].
  split; [exact estimate_cost_closed|].
  split.
  { intros i o Hi Ho; rewrite estimate_cost_closed.
    rewrite !division_returns by assumption.
    eexists; reflexivity. }
  split.
  { intros i o Hbig; rewrite estimate_cost_closed.
    destruct (overflows (round (inject_Z i / 1000))) eqn:Hi; [reflexivity|].
    destruct Hbig as [Hbig|Hbig].
    - rewrite (division_overflows i Hbig) in Hi; discriminate.
    - now rewrite (division_overflows o Hbig). }
  split; [exact estimate_cost_accuracy|].
  split.
  { intros input_text output_text Hin Hout.
    apply estimate_cost_accuracy; now apply count_tokens_range. }
  split.
  - intros i d o; rewrite !spec_cost_prices, inject_Z_plus; ring.
  - intros i o d; rewrite !spec_cost_prices, inject_Z_plus; ring.
Qed.

Lemma C7_estimate_usage_linear_up_to_rounding_witness :
  exists c,
    estimate_cost (count_tokens "what is the answer")
                  (count_tokens "forty two")
    = Ok (Finite c)
    /\ Qabs (c - spec_cost 4 2) <= 2 ^ (-50) * spec_cost 4 2.
Proof.
  destruct C7_estimate_usage_linear_up_to_rounding
    as (_ & _ & _ & _ & _ & _ & Htexts & _).
  apply (Htexts "what is the answer" "forty two"); reflexivity.
Defined.

Example count_tokens_examples :
  count_tokens "" = 0%Z
  /\ count_tokens "   " = 0%Z
  /\ count_tokens "hello" = 1%Z
  /\ count_tokens "  hello   brave new  world " = 4%Z
  /\ split "  hello   brave new  world " = ["hello"; "brave"; "new"; "world"].
Proof. repeat split. Qed.

(** ** The fallback walks *)

Section Walks.

Variable B : backend.

Lemma GenerativeModel_new_run name cfg safety tr :
  GenerativeModel_new B name cfg safety tr
  = (match new_model B (mkGenerativeModel name cfg safety) with
     | Ok _ => Ok (mkGenerativeModel name cfg safety)
     | Raise e => Raise e
     end,
     (tr ++ [NewModel (mkGenerativeModel name cfg safety)])%list).
Proof.
  unfold GenerativeModel_new, bind, call, ret.
  destruct (new_model B _); reflexivity.
Qed.

Lemma usable_text_run r (tr : trace) :
  usable_text r tr = (text_of r, tr).
Proof.
  unfold usable_text, text_of, bind, of_result, ret.
  destruct (response_truthy r); [|reflexivity].
  destruct (response_text r) as [t|e]; [|reflexivity].
  destruct (truthy_str t); reflexivity.
Qed.

(** One probe: it never raises, and logs its one or two requests. *)
Lemma probe_run name tr :
  probe B name tr
  = (Ok (probe_ok B name), (tr ++ generate_events B name probe_prompt)%list).
Proof.
  unfold probe, try_except, bind; rewrite GenerativeModel_new_run.
  unfold probe_ok, generate_events, bare_model.
  destruct (new_model B _); simpl; [|reflexivity].
  unfold GenerativeModel_generate_content, call, ret.
  rewrite <- app_assoc; simpl.
  destruct (generate_content B _ _); reflexivity.
Qed.

Lemma probe_loop_run names :
  forall tr,
    probe_loop B names tr
    = (Ok (existsb (probe_ok B) names),
       (tr ++ flat_map (fun n => generate_events B n probe_prompt)
                       (upto_first (probe_ok B) names))%list).
Proof.
  induction names as [|name rest IH]; intros tr; simpl.
  - unfold ret; now rewrite app_nil_r.
  - unfold bind at 1; rewrite probe_run.
    destruct (probe_ok B name); simpl.
    + unfold ret; now rewrite app_nil_r.
    + rewrite IH, <- app_assoc; reflexivity.
Qed.

(** The [try] block of one round of [get_chat_response]'s loop. *)
Lemma response_round_run name message (last_error : option exn) tr :
  try_except
    (model <- GenerativeModel_new B name None None ;;
     response <- GenerativeModel_generate_content B model message ;;
     t <- usable_text response ;;
     ret (t, last_error))
    (fun e => ret (None, Some e)) tr
  = (Ok (match reply B name message with
         | Ok t => (t, last_error)
         | Raise e => (None, Some e)
         end),
     (tr ++ generate_events B name message)%list).
Proof.
  unfold try_except, bind at 1; rewrite GenerativeModel_new_run.
  unfold reply, generate_events, bare_model.
  destruct (new_model B _); simpl; [|reflexivity].
  unfold bind, GenerativeModel_generate_content, call.
  rewrite <- app_assoc; simpl.
  destruct (generate_content B _ _) as [r|e]; [|reflexivity].
  rewrite usable_text_run.
  destruct (text_of r); reflexivity.
Qed.

Lemma response_loop_run message names :
  forall last_error tr,
    response_loop B message names last_error tr
    = (match first_text (fun n => reply B n message) names with
       | Some t => Ok t
       | None =>
           Raise (no_response
                    (last_raised (fun n => reply B n message) names
                                 last_error))
       end,
       (tr ++ flat_map (fun n => generate_events B n message)
                       (upto_first (fun n => usable B n message) names))%list).
Proof.
  induction names as [|name rest IH]; intros last_error tr; simpl.
  - unfold raise; now rewrite app_nil_r.
  - unfold bind at 1; rewrite response_round_run.
    unfold usable at 1.
    destruct (reply B name message) as [[t|]|e]; simpl.
    + unfold ret; now rewrite app_nil_r.
    + rewrite IH, <- app_assoc; reflexivity.
    + rewrite IH, <- app_assoc; reflexivity.
Qed.

Lemma GenerativeModel_start_chat_run m tr :
  GenerativeModel_start_chat B m tr
  = (match start_chat B m with
     | Ok _ => Ok (mkChatSession m (List.length tr))
     | Raise e => Raise e
     end,
     (tr ++ [StartChat m])%list).
Proof.
  unfold GenerativeModel_start_chat, bind, call, ret.
  destruct (start_chat B m); reflexivity.
Qed.

Lemma chat_round_run cfg safety name (handler : exn -> M trace ChatSession)
      tr :
  try_except
    (model <- GenerativeModel_new B name (Some cfg) (safety_or_empty safety) ;;
     GenerativeModel_start_chat B model)
    handler tr
  = match create B cfg safety name with
    | Ok _ =>
        (Ok (mkChatSession
               (chat_model cfg safety name)
               (List.length (tr ++ [NewModel (chat_model cfg safety name)]))),
         (tr ++ create_events B cfg safety name)%list)
    | Raise e => handler e (tr ++ create_events B cfg safety name)%list
    end.
Proof.
  unfold try_except, bind; rewrite GenerativeModel_new_run.
  unfold create, create_events, chat_model.
  destruct (new_model B _) as [[]|e]; [|reflexivity].
  rewrite GenerativeModel_start_chat_run, <- app_assoc; simpl.
  destruct (start_chat B _) as [[]|e]; reflexivity.
Qed.

Lemma chat_loop_run cfg safety names :
  forall last_error tr,
    snd (chat_loop B cfg safety names last_error tr)
    = (tr ++ flat_map (create_events B cfg safety)
                      (upto_first (creatable B cfg safety) names))%list
    /\ match first_that (creatable B cfg safety) names with
       | Some n =>
           exists born,
             fst (chat_loop B cfg safety names last_error tr)
             = Ok (mkChatSession (chat_model cfg safety n) born)
       | None =>
           fst (chat_loop B cfg safety names last_error tr)
           = Raise (no_chat_instance
                      (last_raised (create B cfg safety) names last_error))
       end.
Proof.
  induction names as [|name rest IH]; intros last_error tr.
  - simpl; unfold raise; simpl; now rewrite app_nil_r.
  - cbn [chat_loop upto_first first_that find flat_map last_raised].
    rewrite chat_round_run; unfold creatable at 1 3.
    destruct (create B cfg safety name) as [[]|e]; cbn [is_ok].
    + simpl; rewrite app_nil_r; split; [reflexivity | now eexists].
    + destruct (IH (Some e) (tr ++ create_events B cfg safety name)%list)
        as [Htr Hres].
      split; [|exact Hres].
      rewrite Htr; cbn [flat_map]; now rewrite <- app_assoc.
Qed.

Lemma get_chat_response_run chat message stream tr :
  get_chat_response B chat message stream tr
  = match session_reply B tr chat message with
    | Ok (Some t) => (Ok t, (tr ++ [SendMessage chat message])%list)
    | _ =>
        (match first_text (fun n => reply B n message) response_model_names
         with
         | Some t => Ok t
         | None =>
             Raise (chat_response_failed
                      (no_response
                         (last_raised (fun n => reply B n message)
                                      response_model_names None)))
         end,
         (tr ++ SendMessage chat message
             :: flat_map (fun n => generate_events B n message)
                         (upto_first (fun n => usable B n message)
                                     response_model_names))%list)
    end.
Proof.
  unfold get_chat_response, session_reply, try_except, bind.
  unfold ChatSession_send_message, call_stateful.
  destruct (send_message B tr chat message) as [r|e].
  - rewrite usable_text_run.
    destruct (text_of r) as [[t|]|e]; unfold ret.
    + reflexivity.
    + rewrite response_loop_run, <- app_assoc.
      destruct (first_text _ _); reflexivity.
    + rewrite response_loop_run, <- app_assoc.
      destruct (first_text _ _); reflexivity.
  - unfold ret; rewrite response_loop_run, <- app_assoc.
    destruct (first_text _ _); reflexivity.
Qed.

Lemma Chat_send_message_run self session message stream tr :
  chat self = Some session ->
  Chat_send_message B self message stream tr
  = (match fst (get_chat_response B session message stream tr) with
     | Ok t => Ok t
     | Raise e => Raise (chat_response_failed e)
     end,
     snd (get_chat_response B session message stream tr)).
Proof.
  intros Hchat; unfold Chat_send_message, try_except, bind; rewrite Hchat.
  unfold ret at 1.
  destruct (get_chat_response B session message stream tr) as [[t|e] tr'];
    reflexivity.
Qed.
End Walks.

(** ** Walks over a list of candidates *)

Section Candidates.

Variable round : string -> result (option string).

Lemma first_text_none names :
  first_text round names = None
  <-> Forall (fun n => ~ yields_text round n) names.
Proof.
  induction names as [|n rest IH]; simpl.
  - split; [constructor | reflexivity].
  - destruct (round n) as [[t|]|e] eqn:Hn.
    + split; [discriminate|].
      intros H; inversion H as [|? ? Hno _]; subst.
      exfalso; apply Hno; now exists t.
    + rewrite IH; split.
      * intros H; constructor; [|exact H].
        intros [t Ht]; congruence.
      * intros H; now inversion H.
    + rewrite IH; split.
      * intros H; constructor; [|exact H].
        intros [t Ht]; congruence.
      * intros H; now inversion H.
Qed.

Lemma first_text_skips pre n post t :
  Forall (fun n' => ~ yields_text round n') pre ->
  round n = Ok (Some t) ->
  first_text round (pre ++ n :: post) = Some t.
Proof.
  intros Hpre Hn; induction Hpre as [|n' pre' Hno _ IH]; simpl.
  - now rewrite Hn.
  - destruct (round n') as [[t'|]|e] eqn:Hn'; try exact IH.
    exfalso; apply Hno; now exists t'.
Qed.

Lemma first_text_some names t :
  first_text round names = Some t ->
  exists pre n post,
    names = (pre ++ n :: post)%list
    /\ Forall (fun n' => ~ yields_text round n') pre
    /\ round n = Ok (Some t).
Proof.
  induction names as [|n rest IH]; simpl; [discriminate|].
  destruct (round n) as [[t'|]|e] eqn:Hn.
  - intros [= <-]; exists [], n, rest; repeat split; [constructor | exact Hn].
  - intros H; destruct (IH H) as (pre & m & post & -> & Hpre & Hm).
    exists (n :: pre), m, post; repeat split; [|exact Hm].
    constructor; [|exact Hpre].
    intros [t0 Ht0]; congruence.
  - intros H; destruct (IH H) as (pre & m & post & -> & Hpre & Hm).
    exists (n :: pre), m, post; repeat split; [|exact Hm].
    constructor; [|exact Hpre].
    intros [t0 Ht0]; congruence.
Qed.

End Candidates.

Section LastRaised.

Context {A : Type}.
Variable round : string -> result A.

Lemma last_raised_app pre post acc :
  last_raised round (pre ++ post) acc
  = last_raised round post (last_raised round pre acc).
Proof.
  revert acc; induction pre as [|n pre IH]; intros acc; simpl;
    [reflexivity | apply IH].
Qed.

(** When the last candidate raises, its error is the one kept. *)
Lemma last_raised_last pre n e acc :
  round n = Raise e ->
  last_raised round (pre ++ [n]) acc = Some e.
Proof. intros Hn; rewrite last_raised_app; simpl; now rewrite Hn. Qed.

(** When no candidate raises, nothing is kept. *)
Lemma last_raised_none names acc :
  Forall (fun n => exists a, round n = Ok a) names ->
  last_raised round names acc = acc.
Proof.
  intros H; revert acc; induction H as [|n rest [a Hn] _ IH]; intros acc;
    simpl; [reflexivity|].
  now rewrite Hn, IH.
Qed.

End LastRaised.

Lemma find_none_forall {A} (p : A -> bool) l :
  List.find p l = None <-> Forall (fun a => p a = false) l.
Proof.
  induction l as [|a l IH]; simpl.
  - split; [constructor | reflexivity].
  - destruct (p a) eqn:Hp.
    + split; [discriminate|].
      intros H; inversion H; congruence.
    + rewrite IH; split; [now constructor | now inversion 1].
Qed.

Lemma find_skips {A} (p : A -> bool) pre a post :
  Forall (fun a' => p a' = false) pre ->
  p a = true ->
  List.find p (pre ++ a :: post) = Some a.
Proof.
  intros Hpre Ha; induction Hpre as [|a' pre' Hno _ IH]; simpl.
  - now rewrite Ha.
  - now rewrite Hno.
Qed.

Lemma existsb_false_forall {A} (p : A -> bool) l :
  existsb p l = false <-> Forall (fun a => p a = false) l.
Proof.
  induction l as [|a l IH]; simpl.
  - split; [constructor | reflexivity].
  - rewrite orb_false_iff, IH; split.
    + intros [Ha Hl]; now constructor.
    + now inversion 1.
Qed.

Lemma upto_first_skips {A} (p : A -> bool) pre a post :
  Forall (fun a' => p a' = false) pre ->
  p a = true ->
  upto_first p (pre ++ a :: post) = (pre ++ [a])%list.
Proof.
  intros Hpre Ha; induction Hpre as [|a' pre' Hno _ IH]; simpl.
  - now rewrite Ha.
  - now rewrite Hno, IH.
Qed.

Lemma upto_first_all {A} (p : A -> bool) l :
  Forall (fun a => p a = false) l -> upto_first p l = l.
Proof.
  induction 1 as [|a l Hno _ IH]; simpl; [reflexivity|].
  now rewrite Hno, IH.
Qed.

(** The candidates reached are a prefix of the list. *)
Lemma upto_first_prefix {A} (p : A -> bool) l :
  exists rest, l = (upto_first p l ++ rest)%list.
Proof.
  induction l as [|a l [rest IH]]; simpl.
  - now exists [].
  - destruct (p a).
    + now exists l.
    + exists rest; simpl; now rewrite <- IH.
Qed.

(** ** Sending a message *)

Section Send.

Variable B : backend.

Lemma usable_false name message :
  usable B name message = false
  <-> ~ yields_text (fun n => reply B n message) name.
Proof.
  unfold usable, yields_text.
  destruct (reply B name message) as [[t|]|e]; split;
    try discriminate; try reflexivity.
  - intros H; exfalso; apply H; now exists t.
  - intros _ [t [=]].
  - intros _ [t [=]].
Qed.

Lemma unusable_all names message :
  Forall (fun n => ~ yields_text (fun n' => reply B n' message) n) names
  -> Forall (fun n => usable B n message = false) names.
Proof. apply Forall_impl; intros n; apply usable_false. Qed.

Lemma usable_true name message t :
  reply B name message = Ok (Some t) -> usable B name message = true.
Proof. unfold usable; now intros ->. Qed.

(** The session attempt raised or gave no text: the fallback list
    decides. *)
Lemma get_chat_response_fallback chat message stream tr :
  ~ yields_text (fun _ => session_reply B tr chat message) "" ->
  get_chat_response B chat message stream tr
  = (match first_text (fun n => reply B n message) response_model_names with
     | Some t => Ok t
     | None =>
         Raise (chat_response_failed
                  (no_response
                     (last_raised (fun n => reply B n message)
                                  response_model_names None)))
     end,
     (tr ++ SendMessage chat message
         :: flat_map (fun n => generate_events B n message)
                     (upto_first (fun n => usable B n message)
                                 response_model_names))%list).
Proof.
  intros Hno; rewrite get_chat_response_run.
  destruct (session_reply B tr chat message) as [[t|]|e]; try reflexivity.
  exfalso; apply Hno; now exists t.
Qed.

Lemma session_raise_no_text tr chat message e :
  send_message B tr chat message = Raise e ->
  ~ yields_text (fun _ => session_reply B tr chat message) "".
Proof. unfold session_reply; intros -> [t [=]]. Qed.

End Send.

Lemma last_raised_split {A} (round : string -> result A) pre n post e acc :
  round n = Raise e ->
  Forall (fun c => exists a, round c = Ok a) post ->
  last_raised round (pre ++ n :: post) acc = Some e.
Proof.
  intros Hn Hpost.
  rewrite last_raised_app; cbn [last_raised]; rewrite Hn.
  now apply last_raised_none.
Qed.

(** C1, as stated, fails in its last clause: with a session that raises
    and candidates that each answer with an empty text, every fallback
    candidate fails and the error that reaches the caller wraps the text
    "None", not an underlying error; the error the session raised is not
    in it either. *)
Lemma C1_error_may_wrap_no_underlying_error :
  send_message mute_candidates [] a_session "hello" = Raise unavailable
  /\ Forall (fun c => reply mute_candidates c "hello" = Ok None)
            response_model_names
  /\ Chat_send_message mute_candidates a_chat "hello" false []
     = (Raise (mkExn BaseExceptionClass
                     "Failed to get chat response: Failed to get chat response: Failed to get response from any model: None"),
        [ SendMessage a_session "hello";
          NewModel (bare_model "models/gemini-pro");
          GenerateContent (bare_model "models/gemini-pro") "hello";
          NewModel (bare_model "models/gemini-2.0-flash");
          GenerateContent (bare_model "models/gemini-2.0-flash") "hello";
          NewModel (bare_model "models/gemini-2.0-flash-lite");
          GenerateContent (bare_model "models/gemini-2.0-flash-lite")
                          "hello" ]).
Proof.
  split; [reflexivity|]. split; [|reflexivity].
  repeat constructor.
Qed.

(** C1, amended: on a manager with a bound session, when the attempt on
    the session raises, [send_message] turns to stateless generation over
    the list of model names that initialization probes ([get_gemini_chat]
    walks the same list after the requested model), in that order, and
    returns the text of the first candidate that yields one.  When no
    candidate yields a text it raises an Exception whose message wraps the
    text of the error of the last candidate that raised, and the text
    "None" when no candidate raised; the error of the session is never in
    it. *)
Theorem C1_send_falls_back_over_priority_list
        (B : backend) (self : Chat) (session : ChatSession)
        (message : string) (stream : bool) (tr : trace) (e0 : exn) :
  chat self = Some session ->
  send_message B tr session message = Raise e0 ->
  response_model_names = initialize_model_names
  /\ (forall model, chat_model_names model = model :: response_model_names)
  /\ (forall pre n post t,
        response_model_names = (pre ++ n :: post)%list ->
        Forall (fun n' => ~ yields_text (fun c => reply B c message) n') pre ->
        reply B n message = Ok (Some t) ->
        Chat_send_message B self message stream tr
        = (Ok t,
           (tr ++ SendMessage session message
               :: flat_map (fun c => generate_events B c message)
                           (pre ++ [n]))%list))
  /\ (Forall (fun n => ~ yields_text (fun c => reply B c message) n)
             response_model_names ->
      Chat_send_message B self message stream tr
      = (Raise (chat_response_failed
                  (chat_response_failed
                     (no_response
                        (last_raised (fun c => reply B c message)
                                     response_model_names None)))),
         (tr ++ SendMessage session message
             :: flat_map (fun c => generate_events B c message)
                         response_model_names)%list))
  /\ (forall pre n post e,
        response_model_names = (pre ++ n :: post)%list ->
        Forall (fun n' => ~ yields_text (fun c => reply B c message) n') pre ->
        reply B n message = Raise e ->
        Forall (fun c => reply B c message = Ok None) post ->
        fst (Chat_send_message B self message stream tr)
        = Raise (mkExn BaseExceptionClass
                       ("Failed to get chat response: "
                          ++ "Failed to get chat response: "
                          ++ "Failed to get response from any model: "
                          ++ str e)))
  /\ (Forall (fun c => reply B c message = Ok None) response_model_names ->
      fst (Chat_send_message B self message stream tr)
      = Raise (mkExn BaseExceptionClass
                     ("Failed to get chat response: "
                        ++ "Failed to get chat response: "
                        ++ "Failed to get response from any model: "
                        ++ "None"))).
Proof.
  intros Hchat Hsession.
  pose proof (session_raise_no_text B tr session message e0 Hsession) as Hno.
  assert (Hfail :
            Forall (fun n => ~ yields_text (fun c => reply B c message) n)
                   response_model_names ->
            Chat_send_message B self message stream tr
            = (Raise (chat_response_failed
                        (chat_response_failed
                           (no_response
                              (last_raised (fun c => reply B c message)
                                           response_model_names None)))),
               (tr ++ SendMessage session message
                   :: flat_map (fun c => generate_events B c message)
                               response_model_names)%list)).
  { intros Hall.
    rewrite (Chat_send_message_run B self session) by exact Hchat.
    rewrite get_chat_response_fallback by exact Hno; cbn [fst snd].
    rewrite (proj2 (first_text_none _ _) Hall).
    rewrite (upto_first_all _ _ (unusable_all B _ _ Hall)).
    reflexivity. }
  assert (Hmute :
            forall names,
              Forall (fun c => reply B c message = Ok None) names ->
              Forall (fun n => ~ yields_text (fun c => reply B c message) n)
                     names
              /\ Forall (fun c => exists a, reply B c message = Ok a) names).
  { intros names Hnames; split.
    - revert Hnames; apply Forall_impl; intros c Hc [t Ht]; congruence.
    - revert Hnames; apply Forall_impl; intros c Hc; now exists None. }
  split; [reflexivity|]. split; [reflexivity|].
  split; [|split; [exact Hfail|split]].
  - intros pre n post t Hnames Hpre Hn.
    rewrite (Chat_send_message_run B self session) by exact Hchat.
    rewrite get_chat_response_fallback by exact Hno; cbn [fst snd].
    rewrite Hnames.
    rewrite (first_text_skips _ pre n post t Hpre Hn).
    rewrite (upto_first_skips _ pre n post).
    + reflexivity.
    + now apply unusable_all.
    + now apply (usable_true B n message t).
  - intros pre n post e Hnames Hpre Hn Hpost.
    destruct (Hmute post Hpost) as [Hpost_no Hpost_ok].
    rewrite Hfail.
    + cbn [fst]; rewrite Hnames.
      now rewrite (last_raised_split _ pre n post e None Hn Hpost_ok).
    + rewrite Hnames; apply Forall_app; split; [exact Hpre|].
      constructor; [|exact Hpost_no].
      intros [t Ht]; congruence.
  - intros Hall; destruct (Hmute _ Hall) as [Hall_no Hall_ok].
    rewrite (Hfail Hall_no); cbn [fst].
    now rewrite (last_raised_none _ _ None Hall_ok).
Qed.

Lemma C1_send_falls_back_over_priority_list_witness :
  chat a_chat = Some a_session
  /\ send_message session_lost [] a_session "hello" = Raise unavailable
  /\ Chat_send_message session_lost a_chat "hello" false []
     = (Ok "Hello from flash",
        [ SendMessage a_session "hello";
          NewModel (bare_model "models/gemini-pro");
          GenerateContent (bare_model "models/gemini-pro") "hello";
          NewModel (bare_model "models/gemini-2.0-flash");
          GenerateContent (bare_model "models/gemini-2.0-flash") "hello" ]).
Proof.
  split; [reflexivity|]. split; [reflexivity|].
  destruct (C1_send_falls_back_over_priority_list
              session_lost a_chat a_session "hello" false [] unavailable
              eq_refl eq_refl) as (_ & _ & Hfirst & _).
  apply (Hfirst ["models/gemini-pro"] "models/gemini-2.0-flash"
                ["models/gemini-2.0-flash-lite"] "Hello from flash").
  - reflexivity.
  - constructor; [|constructor].
    intros [t Ht]; discriminate Ht.
  - reflexivity.
Defined.

(** When the session and every candidate raise, the error that reaches the
    caller carries the text of the last candidate's error. *)
Example send_all_fail :
  fst (Chat_send_message out_of_quota a_chat "hello" false [])
  = Raise (mkExn BaseExceptionClass
                 "Failed to get chat response: Failed to get chat response: Failed to get response from any model: 429 quota exceeded").
Proof. reflexivity. Qed.

(** ** Initialization *)

Section Initialize.

Variable getenv : string -> option string.
Variable B : backend.

(** With a key and a backend that accepts it and lists models, the probe
    walk decides [initialize_gemini]. *)
Lemma initialize_gemini_run key models names tr :
  truthy_str key = true ->
  configure B key = Ok tt ->
  list_models B = Ok models ->
  models_truthy models = true ->
  models_names models = Ok names ->
  initialize_gemini getenv B (Some key) tr
  = (if existsb (probe_ok B) initialize_model_names then Ok tt
     else Raise (initialize_failed no_model_initialized),
     (tr ++ Configure key :: ListModels
         :: flat_map (fun n => generate_events B n probe_prompt)
                     (upto_first (probe_ok B) initialize_model_names))%list).
Proof.
  intros Hkey Hconf Hlist Htruthy Hnames.
  unfold initialize_gemini; rewrite Hkey; cbn [negb].
  unfold try_except, bind, call, of_result.
  rewrite Hconf, Hlist, Htruthy, Hnames; cbn [negb].
  unfold ret at 1; rewrite probe_loop_run, <- !app_assoc.
  destruct (existsb (probe_ok B) initialize_model_names); reflexivity.
Qed.

Lemma get_gemini_chat_run model temperature top_p top_k max_output_tokens
      safety tr :
  let cfg :=
    mkGenerationConfig temperature top_p top_k max_output_tokens in
  snd (get_gemini_chat B model temperature top_p top_k max_output_tokens
                       safety tr)
  = (tr ++ flat_map (create_events B cfg safety)
                    (upto_first (creatable B cfg safety)
                                (chat_model_names model)))%list
  /\ match first_that (creatable B cfg safety) (chat_model_names model) with
     | Some n =>
         exists born,
           fst (get_gemini_chat B model temperature top_p top_k
                                max_output_tokens safety tr)
           = Ok (mkChatSession (chat_model cfg safety n) born)
     | None =>
         fst (get_gemini_chat B model temperature top_p top_k
                              max_output_tokens safety tr)
         = Raise (no_chat_instance
                    (last_raised (create B cfg safety)
                                 (chat_model_names model) None))
     end.
Proof. intros cfg; unfold get_gemini_chat; apply chat_loop_run. Qed.

(** A provider other than Gemini: nothing is requested, nothing is set. *)
Lemma initialize_chat_other_provider self tr :
  provider (config self) <> "gemini" ->
  _initialize_chat getenv B (self, tr)
  = (Raise only_gemini_supported, (self, tr)).
Proof.
  intros Hp; unfold _initialize_chat, bind, get_self.
  destruct (String.eqb_spec (provider (config self)) "gemini") as [Heq|_];
    [contradiction | reflexivity].
Qed.

(** When [_initialize_chat] returns, the session it has set is on the first
    name of [get_gemini_chat]'s list for which a session could be made. *)
Lemma initialize_chat_binds self tr self' tr' :
  _initialize_chat getenv B (self, tr) = (Ok tt, (self', tr')) ->
  exists g n born,
    gemini_config (config self) = Some g
    /\ first_that (creatable B (generation_config_of g) None)
                  (chat_model_names (g_model g)) = Some n
    /\ self' = mkChat (config self) (system_message self)
                      (Some (mkChatSession
                               (chat_model (generation_config_of g) None n)
                               born)).
Proof.
  unfold _initialize_chat, bind, get_self.
  destruct (String.eqb (provider (config self)) "gemini"); [|discriminate].
  unfold of_result.
  destruct (get_api_key getenv (config self)) as [api_key|e]; [|discriminate].
  destruct (negb (truthy_opt_str
                    (if negb (truthy_opt_str api_key)
                     then getenv "GOOGLE_API_KEY" else api_key)));
    [discriminate|].
  unfold lift at 1.
  destruct (initialize_gemini getenv B _ tr) as [[[]|e] tr1]; [|discriminate].
  destruct (gemini_config (config self)) as [g|]; [|discriminate].
  unfold ret at 1, lift at 1.
  pose proof (get_gemini_chat_run (g_model g) (g_temperature g) (g_top_p g)
                                  (g_top_k g) (g_max_output_tokens g)
                                  None tr1) as [_ Hres].
  cbv zeta in Hres; fold (generation_config_of g) in Hres.
  destruct (get_gemini_chat B _ _ _ _ _ None tr1) as [[session|e] tr2];
    [|discriminate].
  destruct (first_that _ _) as [n|] eqn:Hfirst; [|discriminate Hres].
  destruct Hres as [born Hres]; cbn [fst] in Hres.
  injection Hres as ->.
  unfold set_chat at 1.
  intros H; exists g, n, born; split; [reflexivity|]. split; [exact Hfirst|].
  destruct (system_message self) as [text|].
  - destruct (truthy_str text).
    + unfold lift, ChatSession_send_message, call_stateful in H.
      destruct (send_message B tr2 _ text); unfold ret in H; cbn in H;
        congruence.
    + unfold ret in H; congruence.
  - unfold ret in H; congruence.
Qed.

Lemma Chat_new_binds cfg system_message tr self tr' :
  Chat_new getenv B cfg system_message tr = (Ok self, tr') ->
  exists g n born,
    gemini_config (config self) = Some g
    /\ first_that (creatable B (generation_config_of g) None)
                  (chat_model_names (g_model g)) = Some n
    /\ chat self = Some (mkChatSession
                           (chat_model (generation_config_of g) None n) born).
Proof.
  unfold Chat_new.
  destruct (_initialize_chat getenv B _) as [[[]|e] [self1 tr1]] eqn:Hinit;
    [|discriminate].
  intros [= <- <-].
  destruct (initialize_chat_binds _ _ _ _ Hinit) as (g & n & born & Hg & Hn & ->).
  exists g, n, born; repeat split; assumption.
Qed.

End Initialize.

(** Whatever the candidates raise, the error of a failed probe walk is the
    same. *)
Lemma initialize_gemini_all_probes_fail getenv B key models names tr :
  truthy_str key = true ->
  configure B key = Ok tt ->
  list_models B = Ok models ->
  models_truthy models = true ->
  models_names models = Ok names ->
  Forall (fun c => probe_ok B c = false) initialize_model_names ->
  initialize_gemini getenv B (Some key) tr
  = (Raise (initialize_failed no_model_initialized),
     (tr ++ Configure key :: ListModels
         :: flat_map (fun c => generate_events B c probe_prompt)
                     initialize_model_names)%list).
Proof.
  intros Hkey Hconf Hlist Htruthy Hnames Hall.
  rewrite (initialize_gemini_run getenv B key models names tr) by assumption.
  rewrite (proj2 (existsb_false_forall _ _) Hall).
  now rewrite (upto_first_all _ _ Hall).
Qed.

(** C3, on the code: when every probe raises, initialization fails with a
    [ValueError] whose message is fixed; the error the candidates raised
    (here "429 quota exceeded") is not in it.  The same holds for every
    backend on which no probe succeeds. *)
Theorem C3_all_probes_fail_cause_is_dropped :
  (forall n, In n initialize_model_names ->
             reply out_of_quota n probe_prompt = Raise quota)
  /\ str quota = "429 quota exceeded"
  /\ fst (initialize_gemini env_empty out_of_quota (Some "explicit-key") [])
     = Raise (mkExn ValueError
                    "Failed to initialize Gemini API: Failed to initialize with any available model")
  /\ fst (Chat_new env_empty out_of_quota (Some keyed_gemini) None [])
     = Raise (mkExn ValueError
                    "Failed to initialize Gemini API: Failed to initialize with any available model")
  /\ (forall getenv B key models names tr,
        truthy_str key = true ->
        configure B key = Ok tt ->
        list_models B = Ok models ->
        models_truthy models = true ->
        models_names models = Ok names ->
        Forall (fun c => probe_ok B c = false) initialize_model_names ->
        fst (initialize_gemini getenv B (Some key) tr)
        = Raise (mkExn ValueError
                       "Failed to initialize Gemini API: Failed to initialize with any available model")).
Proof.
  split; [intros n _; reflexivity|].
  split; [reflexivity|].
  split; [reflexivity|].
  split; [reflexivity|].
  intros getenv B key models names tr Hkey Hconf Hlist Htruthy Hnames Hall.
  now rewrite (initialize_gemini_all_probes_fail
                 getenv B key models names tr).
Qed.

(** The walk of [get_gemini_chat], by contrast, reports the last error. *)
Example get_gemini_chat_keeps_last_error :
  fst (get_gemini_chat
         (mkBackend (fun _ => Ok tt) (Ok three_models)
                    (fun m =>
                       if String.eqb (model_name m)
                                     "models/gemini-2.0-flash-lite"
                       then Raise quota else Raise not_found)
                    (fun _ _ => Raise quota) (fun _ => Ok tt)
                    (fun _ _ _ => Raise quota))
         "gemini-pro" (Finite 0.7) (Finite 0.8) 40 2048 None [])
  = Raise (mkExn BaseExceptionClass
                 "Failed to create Gemini chat instance with any model: 429 quota exceeded").
Proof. reflexivity. Qed.

(** C6: in each of the three walks a candidate's failure is swallowed and
    the next candidate is tried, and the walk ends in an error exactly when
    no candidate of the whole list gives a usable result.  For the probe
    walk of [initialize_gemini] usable means a truthy response; for
    [get_gemini_chat], a session that could be created; for the stateless
    retries of [get_chat_response], a truthy response with a text that is
    not empty. *)
Theorem C6_candidate_failures_are_swallowed
        (getenv : string -> option string) (B : backend) :
  (* the probe walk *)
  (forall key models names tr,
     truthy_str key = true ->
     configure B key = Ok tt ->
     list_models B = Ok models ->
     models_truthy models = true ->
     models_names models = Ok names ->
     ((exists e, fst (initialize_gemini getenv B (Some key) tr) = Raise e)
      <-> Forall (fun c => probe_ok B c = false) initialize_model_names)
     /\ (forall pre n post,
           initialize_model_names = (pre ++ n :: post)%list ->
           Forall (fun c => probe_ok B c = false) pre ->
           probe_ok B n = true ->
           initialize_gemini getenv B (Some key) tr
           = (Ok tt,
              (tr ++ Configure key :: ListModels
                  :: flat_map (fun c => generate_events B c probe_prompt)
                              (pre ++ [n]))%list)))
  (* the creation of the session *)
  /\ (forall model temperature top_p top_k max_output_tokens safety tr,
        let cfg :=
          mkGenerationConfig temperature top_p top_k max_output_tokens in
        ((exists e,
             fst (get_gemini_chat B model temperature top_p top_k
                                  max_output_tokens safety tr) = Raise e)
         <-> Forall (fun c => creatable B cfg safety c = false)
                    (chat_model_names model))
        /\ (forall pre n post,
              chat_model_names model = (pre ++ n :: post)%list ->
              Forall (fun c => creatable B cfg safety c = false) pre ->
              creatable B cfg safety n = true ->
              (exists born,
                  fst (get_gemini_chat B model temperature top_p top_k
                                       max_output_tokens safety tr)
                  = Ok (mkChatSession (chat_model cfg safety n) born))
              /\ snd (get_gemini_chat B model temperature top_p top_k
                                      max_output_tokens safety tr)
                 = (tr ++ flat_map (create_events B cfg safety)
                                   (pre ++ [n]))%list))
  (* the stateless retries on send *)
  /\ (forall chat message stream tr,
        ~ yields_text (fun _ => session_reply B tr chat message) "" ->
        ((exists e,
             fst (get_chat_response B chat message stream tr) = Raise e)
         <-> Forall (fun c => ~ yields_text (fun c' => reply B c' message) c)
                    response_model_names)
        /\ (forall pre n post t,
              response_model_names = (pre ++ n :: post)%list ->
              Forall (fun c => ~ yields_text (fun c' => reply B c' message) c)
                     pre ->
              reply B n message = Ok (Some t) ->
              get_chat_response B chat message stream tr
              = (Ok t,
                 (tr ++ SendMessage chat message
                     :: flat_map (fun c => generate_events B c message)
                                 (pre ++ [n]))%list))).
Proof.
  split; [|split].
  - intros key models names tr Hkey Hconf Hlist Htruthy Hnames.
    rewrite (initialize_gemini_run getenv B key models names tr)
      by assumption.
    split.
    + rewrite <- existsb_false_forall.
      destruct (existsb (probe_ok B) initialize_model_names); cbn [fst];
        split.
      * intros [e [=]].
      * discriminate.
      * reflexivity.
      * intros _; now eexists.
    + intros pre n post Hsplit Hpre Hn; rewrite Hsplit.
      rewrite (upto_first_skips _ pre n post Hpre Hn).
      rewrite (proj2 (existsb_exists _ _)); [reflexivity|].
      exists n; split; [|exact Hn].
      apply in_or_app; right; now left.
  - intros model temperature top_p top_k max_output_tokens safety tr cfg.
    destruct (get_gemini_chat_run B model temperature top_p top_k
                                  max_output_tokens safety tr)
      as [Htr Hres].
    fold cfg in Htr, Hres.
    split.
    + rewrite <- find_none_forall.
      unfold first_that in Hres.
      destruct (find (creatable B cfg safety) (chat_model_names model));
        split.
      * destruct Hres as [born ->]; intros [e [=]].
      * discriminate.
      * reflexivity.
      * intros _; eexists; exact Hres.
    + intros pre n post Hsplit Hpre Hn.
      rewrite Htr; unfold first_that in Hres; rewrite Hsplit in Hres |- *.
      rewrite (find_skips _ pre n post Hpre Hn) in Hres.
      rewrite (upto_first_skips _ pre n post Hpre Hn).
      split; [exact Hres | reflexivity].
  - intros chat message stream tr Hno.
    rewrite get_chat_response_fallback by exact Hno.
    split.
    + rewrite <- first_text_none.
      destruct (first_text (fun c => reply B c message)
                           response_model_names); cbn [fst]; split.
      * intros [e [=]].
      * discriminate.
      * reflexivity.
      * intros _; now eexists.
    + intros pre n post t Hsplit Hpre Hn; rewrite Hsplit.
      rewrite (first_text_skips _ pre n post t Hpre Hn).
      rewrite (upto_first_skips _ pre n post).
      * reflexivity.
      * now apply unusable_all.
      * now apply (usable_true B n message t).
Qed.

Lemma C6_candidate_failures_are_swallowed_witness :
  initialize_gemini env_empty only_flash_lite (Some "explicit-key") []
  = (Ok tt,
     [ Configure "explicit-key"; ListModels;
       NewModel (bare_model "models/gemini-pro");
       GenerateContent (bare_model "models/gemini-pro") probe_prompt;
       NewModel (bare_model "models/gemini-2.0-flash");
       GenerateContent (bare_model "models/gemini-2.0-flash") probe_prompt;
       NewModel (bare_model "models/gemini-2.0-flash-lite");
       GenerateContent (bare_model "models/gemini-2.0-flash-lite")
                       probe_prompt ])
  /\ get_chat_response session_lost a_session "hello" false []
     = (Ok "Hello from flash",
        [ SendMessage a_session "hello";
          NewModel (bare_model "models/gemini-pro");
          GenerateContent (bare_model "models/gemini-pro") "hello";
          NewModel (bare_model "models/gemini-2.0-flash");
          GenerateContent (bare_model "models/gemini-2.0-flash") "hello" ]).
Proof.
  split.
  - destruct (C6_candidate_failures_are_swallowed env_empty only_flash_lite)
      as [Hprobe _].
    destruct (Hprobe "explicit-key" three_models initialize_model_names []
                     eq_refl eq_refl eq_refl eq_refl eq_refl)
      as [_ Hfirst].
    apply (Hfirst ["models/gemini-pro"; "models/gemini-2.0-flash"]
                  "models/gemini-2.0-flash-lite" []).
    + reflexivity.
    + repeat constructor.
    + reflexivity.
  - destruct (C6_candidate_failures_are_swallowed env_empty session_lost)
      as (_ & _ & Hsend).
    assert (Hno : ~ yields_text
                    (fun _ => session_reply session_lost [] a_session "hello")
                    "")
      by (intros [t Ht]; discriminate Ht).
    destruct (Hsend a_session "hello" false [] Hno) as [_ Hfirst].
    apply (Hfirst ["models/gemini-pro"] "models/gemini-2.0-flash"
                  ["models/gemini-2.0-flash-lite"] "Hello from flash").
    + reflexivity.
    + constructor; [|constructor].
      intros [t Ht]; discriminate Ht.
    + reflexivity.
Defined.

(** ** The public methods *)

(** C8: the [stream] flag changes nothing: for every backend, manager,
    message and trace, sending with [stream] set gives the same result, and
    makes the same requests, as sending without it. *)
Theorem C8_stream_flag_is_ignored
        (B : backend) (self : Chat) (message : string) (tr : trace) :
  Chat_send_message B self message true tr
  = Chat_send_message B self message false tr
  /\ (forall session,
        get_chat_response B session message true tr
        = get_chat_response B session message false tr).
Proof. split; [reflexivity | intros session; reflexivity]. Qed.

(** C9, as stated, fails: the empty message is sent to the bound session,
    and what the session answers is returned. *)
Lemma C9_empty_message_reaches_backend :
  Chat_send_message echo a_chat "" false []
  = (Ok "[]", [SendMessage a_session ""]).
Proof. reflexivity. Qed.

(** C9, amended: an empty-string input is neither rejected nor skipped:
    [send_message] dispatches it to the bound session as its first request,
    returns the session's text when there is one, and otherwise hands the
    empty prompt to the fallback candidates as it would any message. *)
Theorem C9_empty_message_is_dispatched
        (B : backend) (self : Chat) (session : ChatSession)
        (stream : bool) (tr : trace) :
  chat self = Some session ->
  (exists rest,
      snd (Chat_send_message B self "" stream tr)
      = (tr ++ SendMessage session "" :: rest)%list)
  /\ (forall t,
        session_reply B tr session "" = Ok (Some t) ->
        Chat_send_message B self "" stream tr
        = (Ok t, (tr ++ [SendMessage session ""])%list))
  /\ (~ yields_text (fun _ => session_reply B tr session "") "" ->
      snd (Chat_send_message B self "" stream tr)
      = (tr ++ SendMessage session ""
            :: flat_map (fun c => generate_events B c "")
                        (upto_first (fun c => usable B c "")
                                    response_model_names))%list).
Proof.
  intros Hchat.
  rewrite (Chat_send_message_run B self session "" stream tr Hchat).
  rewrite get_chat_response_run.
  split; [|split].
  - destruct (session_reply B tr session "") as [[t|]|e]; cbn [snd];
      eexists; reflexivity.
  - intros t ->; reflexivity.
  - intros Hno.
    destruct (session_reply B tr session "") as [[t|]|e]; cbn [snd];
      try reflexivity.
    exfalso; apply Hno; now exists t.
Qed.

Lemma C9_empty_message_is_dispatched_witness :
  chat a_chat = Some a_session
  /\ Chat_send_message session_lost a_chat "" false []
     = (Ok "Hello from flash",
        [ SendMessage a_session "";
          NewModel (bare_model "models/gemini-pro");
          GenerateContent (bare_model "models/gemini-pro") "";
          NewModel (bare_model "models/gemini-2.0-flash");
          GenerateContent (bare_model "models/gemini-2.0-flash") "" ]).
Proof.
  split; [reflexivity|].
  destruct (C9_empty_message_is_dispatched session_lost a_chat a_session
                                           false [] eq_refl)
    as (_ & _ & Hfallback).
  apply injective_projections; [reflexivity|].
  apply Hfallback; intros [t Ht]; discriminate Ht.
Defined.

(** C10: for a configuration whose provider is not "gemini", constructing
    a [Chat] raises [NotImplementedError] and [reset] on a manager holding
    such a configuration raises it too; in both cases no request reaches
    the backend and no session is set. *)
Theorem C10_other_providers_not_implemented
        (getenv : string -> option string) (B : backend)
        (cfg : ChatConfig) (system_message : option string) (tr : trace) :
  provider cfg <> "gemini" ->
  Chat_new getenv B (Some cfg) system_message tr
  = (Raise (mkExn NotImplementedError
                  "Only Gemini provider is currently supported"), tr)
  /\ (forall self,
        config self = cfg ->
        reset getenv B (self, tr)
        = (Raise (mkExn NotImplementedError
                        "Only Gemini provider is currently supported"),
           (self, tr))).
Proof.
  intros Hp; split.
  - unfold Chat_new; cbv beta iota zeta.
    now rewrite (initialize_chat_other_provider
                   getenv B (mkChat cfg system_message None) tr Hp).
  - intros self <-; unfold reset.
    now apply initialize_chat_other_provider.
Qed.

Lemma C10_other_providers_not_implemented_witness :
  provider keyed_openai <> "gemini"
  /\ Chat_new env_with_keys echo (Some keyed_openai) None []
     = (Raise (mkExn NotImplementedError
                     "Only Gemini provider is currently supported"), [])
  /\ reset env_with_keys echo (mkChat keyed_openai None (Some a_session), [])
     = (Raise (mkExn NotImplementedError
                     "Only Gemini provider is currently supported"),
        (mkChat keyed_openai None (Some a_session), [])).
Proof.
  assert (Hp : provider keyed_openai <> "gemini") by discriminate.
  split; [exact Hp|].
  destruct (C10_other_providers_not_implemented
              env_with_keys echo keyed_openai None [] Hp) as [Hnew Hreset].
  split; [exact Hnew|].
  now apply Hreset.
Defined.

(** A manager on Gemini, for comparison: construction configures the
    client, probes, and binds a session on the requested model. *)
Example Chat_new_gemini :
  exists self tr,
    Chat_new env_empty echo (Some keyed_gemini) (Some "Be brief.") []
    = (Ok self, tr)
    /\ option_map (fun s => model_name (session_model s)) (chat self)
       = Some "gemini-pro"
    /\ List.length tr = 7%nat.
Proof.
  eexists; eexists; split; [vm_compute; reflexivity|].
  split; reflexivity.
Qed.

(** * Further properties of the code *)

(** ** initialize_gemini *)

Section InitializeGemini.

Variable getenv : string -> option string.
Variable B : backend.

(** The key [initialize_gemini] works with: the argument unless it is
    [None], then the environment's. *)
Lemma initialize_gemini_no_key api_key tr :
  truthy_opt_str (match api_key with
                  | None => getenv "GOOGLE_API_KEY"
                  | Some _ => api_key
                  end) = false ->
  initialize_gemini getenv B api_key tr
  = (Raise (mkExn ValueError "No Gemini API key provided"), tr).
Proof.
  unfold initialize_gemini; cbv zeta.
  destruct (match api_key with
            | None => getenv "GOOGLE_API_KEY"
            | Some _ => api_key
            end) as [key|]; [|reflexivity].
  simpl; intros ->; reflexivity.
Qed.

(** Every way [initialize_gemini] can go once it has a key. *)
Lemma initialize_gemini_cases key tr :
  truthy_str key = true ->
  initialize_gemini getenv B (Some key) tr
  = match configure B key with
    | Raise e => (Raise (initialize_failed e), (tr ++ [Configure key])%list)
    | Ok _ =>
        match list_models B with
        | Raise e =>
            (Raise (initialize_failed e),
             (tr ++ [Configure key; ListModels])%list)
        | Ok models =>
            if models_truthy models then
              match models_names models with
              | Raise e =>
                  (Raise (initialize_failed e),
                   (tr ++ [Configure key; ListModels])%list)
              | Ok _ =>
                  (if existsb (probe_ok B) initialize_model_names then Ok tt
                   else Raise (initialize_failed no_model_initialized),
                   (tr ++ Configure key :: ListModels
                       :: flat_map
                            (fun n => generate_events B n probe_prompt)
                            (upto_first (probe_ok B)
                                        initialize_model_names))%list)
              end
            else
              (Raise (initialize_failed
                        (mkExn ValueError
                               "No models available. Check your API key.")),
               (tr ++ [Configure key; ListModels])%list)
        end
    end.
Proof.
  intros Hkey; unfold initialize_gemini; rewrite Hkey; cbn [negb].
  unfold try_except, bind, call, of_result.
  destruct (configure B key) as [[]|e]; [|reflexivity].
  destruct (list_models B) as [models|e];
    [|rewrite <- app_assoc; reflexivity].
  destruct (models_truthy models); cbn [negb];
    [|rewrite <- app_assoc; reflexivity].
  unfold ret at 1.
  destruct (models_names models) as [names|e];
    [|rewrite <- app_assoc; reflexivity].
  rewrite probe_loop_run, <- !app_assoc.
  destruct (existsb (probe_ok B) initialize_model_names); reflexivity.
Qed.

End InitializeGemini.

(** X1: without a usable key [initialize_gemini] raises
    ValueError("No Gemini API key provided") and makes no request.  This
    is so when no key is passed and GOOGLE_API_KEY is unset or empty, and
    also when the empty string is passed, whatever the environment holds:
    only [None] makes it read the environment.  A key that is passed and
    not empty is the one the client is configured with, and with [None]
    the environment's key is used as if it had been passed. *)
Theorem X1_initialize_gemini_missing_key
        (getenv : string -> option string) (B : backend) (tr : trace) :
  (truthy_opt_str (getenv "GOOGLE_API_KEY") = false ->
   initialize_gemini getenv B None tr
   = (Raise (mkExn ValueError "No Gemini API key provided"), tr))
  /\ initialize_gemini getenv B (Some "") tr
     = (Raise (mkExn ValueError "No Gemini API key provided"), tr)
  /\ (forall key,
        key <> "" ->
        exists rest,
          snd (initialize_gemini getenv B (Some key) tr)
          = (tr ++ Configure key :: rest)%list)
  /\ (forall env_key,
        env_key <> "" ->
        getenv "GOOGLE_API_KEY" = Some env_key ->
        initialize_gemini getenv B None tr
        = initialize_gemini getenv B (Some env_key) tr).
Proof.
  split; [|split; [|split]].
  - intros Henv; now apply initialize_gemini_no_key.
  - now apply initialize_gemini_no_key.
  - intros key Hkey.
    assert (Htruthy : truthy_str key = true)
      by (destruct key; [congruence | reflexivity]).
    rewrite (initialize_gemini_cases getenv B key) by exact Htruthy.
    destruct (configure B key) as [[]|e]; [|eexists; reflexivity].
    destruct (list_models B) as [models|e]; [|eexists; reflexivity].
    destruct (models_truthy models); [|eexists; reflexivity].
    destruct (models_names models); eexists; reflexivity.
  - intros env_key Hkey Henv.
    unfold initialize_gemini; now rewrite Henv.
Qed.

(** X2: [initialize_gemini] raises nothing but ValueError.  Once it has a
    key, every failure (of [configure], of [list_models], of the iteration
    over the models, a falsy listing, a probe walk without success) is
    reported as "Failed to initialize Gemini API: " followed by the text of
    the cause. *)
Theorem X2_initialize_gemini_raises_value_error
        (getenv : string -> option string) (B : backend)
        (api_key : option string) (tr tr' : trace) (e : exn) :
  initialize_gemini getenv B api_key tr = (Raise e, tr') ->
  exn_class_of e = ValueError
  /\ ((e = mkExn ValueError "No Gemini API key provided" /\ tr' = tr)
      \/ exists cause key rest,
           e = mkExn ValueError
                     ("Failed to initialize Gemini API: " ++ str cause)
           /\ tr' = (tr ++ Configure key :: rest)%list).
Proof.
  destruct (truthy_opt_str (match api_key with
                            | None => getenv "GOOGLE_API_KEY"
                            | Some _ => api_key
                            end)) eqn:Hkey.
  - assert (Hsome : exists key,
               truthy_str key = true
               /\ initialize_gemini getenv B api_key tr
                  = initialize_gemini getenv B (Some key) tr).
    { destruct api_key as [key|].
      - exists key; split; [exact Hkey | reflexivity].
      - destruct (getenv "GOOGLE_API_KEY") as [key|] eqn:Henv;
          [|discriminate].
        exists key; split; [exact Hkey|].
        unfold initialize_gemini; now rewrite Henv. }
    destruct Hsome as (key & Htruthy & ->).
    rewrite (initialize_gemini_cases getenv B key tr Htruthy).
    destruct (configure B key) as [[]|e1].
    + destruct (list_models B) as [models|e2].
      * destruct (models_truthy models).
        -- destruct (models_names models) as [names|e3].
           ++ destruct (existsb (probe_ok B) initialize_model_names);
                intros [= <- <-].
              split; [reflexivity|].
              right; exists no_model_initialized, key; eexists;
                split; reflexivity.
           ++ intros [= <- <-]; split; [reflexivity|].
              right; exists e3, key; eexists; split; reflexivity.
        -- intros [= <- <-]; split; [reflexivity|].
           right; eexists; exists key; eexists; split; reflexivity.
      * intros [= <- <-]; split; [reflexivity|].
        right; exists e2, key; eexists; split; reflexivity.
    + intros [= <- <-]; split; [reflexivity|].
      right; exists e1, key; eexists; split; reflexivity.
  - rewrite (initialize_gemini_no_key getenv B api_key tr Hkey).
    intros [= <- <-]; split; [reflexivity|].
    left; split; reflexivity.
Qed.

Lemma X2_initialize_gemini_raises_value_error_witness :
  initialize_gemini env_empty out_of_quota (Some "explicit-key") []
  = (Raise (initialize_failed no_model_initialized),
     snd (initialize_gemini env_empty out_of_quota (Some "explicit-key") []))
  /\ exn_class_of (initialize_failed no_model_initialized) = ValueError.
Proof.
  assert (Hrun :
            initialize_gemini env_empty out_of_quota (Some "explicit-key") []
            = (Raise (initialize_failed no_model_initialized),
               snd (initialize_gemini env_empty out_of_quota
                                      (Some "explicit-key") [])))
    by reflexivity.
  split; [exact Hrun|].
  exact (proj1 (X2_initialize_gemini_raises_value_error
                  env_empty out_of_quota (Some "explicit-key") [] _ _ Hrun)).
Defined.

Lemma existsb_first {A} (p : A -> bool) l :
  existsb p l = true ->
  exists pre a post,
    l = (pre ++ a :: post)%list
    /\ Forall (fun a' => p a' = false) pre
    /\ p a = true.
Proof.
  induction l as [|a l IH]; simpl; [discriminate|].
  destruct (p a) eqn:Ha; simpl.
  - intros _; exists [], a, l; repeat split; [constructor | exact Ha].
  - intros H; destruct (IH H) as (pre & b & post & -> & Hpre & Hb).
    exists (a :: pre), b, post; repeat split; [|exact Hb].
    now constructor.
Qed.

(** X3: [initialize_gemini] returns only after the client was configured,
    the models were listed and a candidate of the priority list answered
    the probe with a truthy response; its requests are then the
    configuration, the listing, and the probes of the candidates up to
    that one, in order. *)
Theorem X3_initialize_gemini_returns_after_probe
        (getenv : string -> option string) (B : backend)
        (api_key : option string) (tr tr' : trace) :
  initialize_gemini getenv B api_key tr = (Ok tt, tr') ->
  exists key models pre n post,
    truthy_str key = true
    /\ (api_key = Some key
        \/ (api_key = None /\ getenv "GOOGLE_API_KEY" = Some key))
    /\ configure B key = Ok tt
    /\ list_models B = Ok models
    /\ models_truthy models = true
    /\ initialize_model_names = (pre ++ n :: post)%list
    /\ Forall (fun c => probe_ok B c = false) pre
    /\ probe_ok B n = true
    /\ tr' = (tr ++ Configure key :: ListModels
                 :: flat_map (fun c => generate_events B c probe_prompt)
                             (pre ++ [n]))%list.
Proof.
  destruct (truthy_opt_str (match api_key with
                            | None => getenv "GOOGLE_API_KEY"
                            | Some _ => api_key
                            end)) eqn:Hkey;
    [|rewrite (initialize_gemini_no_key getenv B api_key tr Hkey);
      discriminate].
  assert (Hsome : exists key,
             truthy_str key = true
             /\ (api_key = Some key
                 \/ (api_key = None /\ getenv "GOOGLE_API_KEY" = Some key))
             /\ initialize_gemini getenv B api_key tr
                = initialize_gemini getenv B (Some key) tr).
  { destruct api_key as [key|].
    - exists key; split; [exact Hkey|]. split; [now left | reflexivity].
    - destruct (getenv "GOOGLE_API_KEY") as [key|] eqn:Henv; [|discriminate].
      exists key; split; [exact Hkey|]. split; [now right|].
      unfold initialize_gemini; now rewrite Henv. }
  destruct Hsome as (key & Htruthy & Hfrom & ->).
  rewrite (initialize_gemini_cases getenv B key tr Htruthy).
  destruct (configure B key) as [[]|e1] eqn:Hconf; [|discriminate].
  destruct (list_models B) as [models|e2] eqn:Hlist; [|discriminate].
  destruct (models_truthy models) eqn:Hmodels; [|discriminate].
  destruct (models_names models) as [names|e3]; [|discriminate].
  destruct (existsb (probe_ok B) initialize_model_names) eqn:Hprobe;
    [|discriminate].
  intros H; pose proof (f_equal snd H) as Htr; cbn [snd] in Htr.
  destruct (existsb_first _ _ Hprobe) as (pre & n & post & Hsplit & Hpre & Hn).
  exists key, models, pre, n, post.
  repeat (split; [assumption || reflexivity|]).
  rewrite <- Htr, Hsplit.
  now rewrite (upto_first_skips _ pre n post Hpre Hn).
Qed.

Lemma X3_initialize_gemini_returns_after_probe_witness :
  exists key models pre n post,
    truthy_str key = true
    /\ (Some "explicit-key" = Some key
        \/ (Some "explicit-key" = None
            /\ env_empty "GOOGLE_API_KEY" = Some key))
    /\ configure only_flash_lite key = Ok tt
    /\ list_models only_flash_lite = Ok models
    /\ models_truthy models = true
    /\ initialize_model_names = (pre ++ n :: post)%list
    /\ Forall (fun c => probe_ok only_flash_lite c = false) pre
    /\ probe_ok only_flash_lite n = true
    /\ snd (initialize_gemini env_empty only_flash_lite
                              (Some "explicit-key") [])
       = ([] ++ Configure key :: ListModels
             :: flat_map
                  (fun c => generate_events only_flash_lite c probe_prompt)
                  (pre ++ [n]))%list.
Proof.
  apply (X3_initialize_gemini_returns_after_probe
           env_empty only_flash_lite (Some "explicit-key") []).
  reflexivity.
Defined.

(** X4: when listing the models fails, no model is probed: a listing that
    raises, a listing that is falsy and an iteration over the listing that
    raises each end [initialize_gemini] after its first two requests, with
    the cause in the message. *)
Theorem X4_initialize_gemini_no_probe_without_listing
        (getenv : string -> option string) (B : backend)
        (key : string) (tr : trace) :
  key <> "" ->
  configure B key = Ok tt ->
  (forall e,
     list_models B = Raise e ->
     initialize_gemini getenv B (Some key) tr
     = (Raise (mkExn ValueError
                     ("Failed to initialize Gemini API: " ++ str e)),
        (tr ++ [Configure key; ListModels])%list))
  /\ (forall models,
        list_models B = Ok models ->
        models_truthy models = false ->
        initialize_gemini getenv B (Some key) tr
        = (Raise (mkExn ValueError
                        "Failed to initialize Gemini API: No models available. Check your API key."),
           (tr ++ [Configure key; ListModels])%list))
  /\ (forall models e,
        list_models B = Ok models ->
        models_truthy models = true ->
        models_names models = Raise e ->
        initialize_gemini getenv B (Some key) tr
        = (Raise (mkExn ValueError
                        ("Failed to initialize Gemini API: " ++ str e)),
           (tr ++ [Configure key; ListModels])%list)).
Proof.
  intros Hkey Hconf.
  assert (Htruthy : truthy_str key = true)
    by (destruct key; [congruence | reflexivity]).
  rewrite (initialize_gemini_cases getenv B key tr Htruthy), Hconf.
  split; [|split].
  - intros e ->; reflexivity.
  - intros models -> ->; reflexivity.
  - intros models e -> -> ->; reflexivity.
Qed.

Lemma X4_initialize_gemini_no_probe_without_listing_witness :
  initialize_gemini env_empty no_models (Some "explicit-key") []
  = (Raise (mkExn ValueError
                  "Failed to initialize Gemini API: No models available. Check your API key."),
     [Configure "explicit-key"; ListModels]).
Proof.
  assert (Hkey : "explicit-key" <> "") by discriminate.
  destruct (X4_initialize_gemini_no_probe_without_listing
              env_empty no_models "explicit-key" [] Hkey eq_refl)
    as (_ & Hfalsy & _).
  now apply (Hfalsy (mkModelsIterable false (Ok []))).
Defined.

(** ** get_gemini_chat *)

Section GetGeminiChat.

Variable B : backend.

Lemma create_ok_events cfg safety name :
  create B cfg safety name = Ok tt ->
  create_events B cfg safety name
  = [NewModel (chat_model cfg safety name);
     StartChat (chat_model cfg safety name)].
Proof.
  unfold create, create_events.
  destruct (new_model B _); [reflexivity | discriminate].
Qed.

(** A session [chat_loop] returns: where it comes from and when it was
    made. *)
Lemma chat_loop_ok cfg safety names :
  forall last_error tr session tr',
    chat_loop B cfg safety names last_error tr = (Ok session, tr') ->
    exists pre n post,
      names = (pre ++ n :: post)%list
      /\ Forall (fun c => creatable B cfg safety c = false) pre
      /\ creatable B cfg safety n = true
      /\ session_model session = chat_model cfg safety n
      /\ (List.length tr < session_born session)%nat
      /\ tr' = (tr ++ flat_map (create_events B cfg safety) (pre ++ [n]))%list.
Proof.
  induction names as [|name rest IH]; intros last_error tr session tr'.
  - simpl; unfold raise; discriminate.
  - cbn [chat_loop]; rewrite chat_round_run.
    destruct (create B cfg safety name) as [[]|e] eqn:Hcreate.
    + intros [= <- <-].
      exists [], name, rest; cbn [app flat_map].
      rewrite app_nil_r; repeat split.
      * constructor.
      * unfold creatable; now rewrite Hcreate.
      * cbn [session_born]; rewrite length_app; simpl; lia.
    + intros H; destruct (IH _ _ _ _ H)
        as (pre & n & post & -> & Hpre & Hn & Hmodel & Hborn & ->).
      exists (name :: pre), n, post; repeat split.
      * constructor; [|exact Hpre].
        unfold creatable; now rewrite Hcreate.
      * exact Hn.
      * exact Hmodel.
      * rewrite length_app in Hborn; lia.
      * cbn [app flat_map]; now rewrite <- app_assoc.
Qed.

(** The error [chat_loop] ends in when every candidate fails. *)
Lemma chat_loop_raise cfg safety names :
  forall last_error tr e tr',
    chat_loop B cfg safety names last_error tr = (Raise e, tr') ->
    Forall (fun c => creatable B cfg safety c = false) names
    /\ e = no_chat_instance (last_raised (create B cfg safety) names
                                         last_error)
    /\ tr' = (tr ++ flat_map (create_events B cfg safety) names)%list.
Proof.
  induction names as [|name rest IH]; intros last_error tr e tr'.
  - simpl; unfold raise; intros [= <- <-].
    rewrite app_nil_r; repeat split; constructor.
  - cbn [chat_loop]; rewrite chat_round_run.
    destruct (create B cfg safety name) as [[]|e1] eqn:Hcreate;
      [discriminate|].
    intros H; destruct (IH _ _ _ _ H) as (Hrest & -> & ->).
    repeat split.
    + constructor; [|exact Hrest].
      unfold creatable; now rewrite Hcreate.
    + cbn [last_raised]; now rewrite Hcreate.
    + cbn [flat_map]; now rewrite <- app_assoc.
Qed.

End GetGeminiChat.

(** X5: when a model object and a chat session can be made for the
    requested model name, [get_gemini_chat] binds the session to that name
    with exactly the sampling parameters it was given and an empty list of
    safety settings when none are passed, in two requests; no name of the
    priority list is tried. *)
Theorem X5_get_gemini_chat_requested_model_first
        (B : backend) (model : string) (temperature top_p : pyfloat)
        (top_k max_output_tokens : Z) (tr : trace) :
  let m :=
    mkGenerativeModel
      model
      (Some (mkGenerationConfig temperature top_p top_k max_output_tokens))
      (Some []) in
  new_model B m = Ok tt ->
  start_chat B m = Ok tt ->
  get_gemini_chat B model temperature top_p top_k max_output_tokens None tr
  = (Ok (mkChatSession m (S (List.length tr))),
     (tr ++ [NewModel m; StartChat m])%list).
Proof.
  intros m Hnew Hstart.
  unfold get_gemini_chat, chat_model_names; cbn [chat_loop].
  rewrite chat_round_run.
  unfold create, create_events, chat_model; cbn [safety_or_empty].
  fold m; rewrite Hnew, Hstart.
  rewrite length_app, Nat.add_comm; reflexivity.
Qed.

Lemma X5_get_gemini_chat_requested_model_first_witness :
  get_gemini_chat echo "gemini-pro" (Finite 0.7) (Finite 0.8) 40 2048 None
                  [Configure "explicit-key"]
  = (Ok (mkChatSession
           (mkGenerativeModel
              "gemini-pro"
              (Some (mkGenerationConfig (Finite 0.7) (Finite 0.8) 40 2048))
              (Some []))
           2),
     [ Configure "explicit-key";
       NewModel (mkGenerativeModel
                   "gemini-pro"
                   (Some (mkGenerationConfig (Finite 0.7) (Finite 0.8)
                                             40 2048))
                   (Some []));
       StartChat (mkGenerativeModel
                    "gemini-pro"
                    (Some (mkGenerationConfig (Finite 0.7) (Finite 0.8)
                                              40 2048))
                    (Some [])) ]).
Proof.
  apply (X5_get_gemini_chat_requested_model_first
           echo "gemini-pro" (Finite 0.7) (Finite 0.8) 40 2048
           [Configure "explicit-key"]); reflexivity.
Defined.

(** X6: a session [get_gemini_chat] returns is on one of the four names of
    its list (the requested one or one of the priority list), carries the
    sampling parameters that were passed, was made after every request of
    the trace so far, and its creation is the last request; the names
    before it in the list were tried and failed. *)
Theorem X6_get_gemini_chat_session_invariants
        (B : backend) (model : string) (temperature top_p : pyfloat)
        (top_k max_output_tokens : Z) (safety : option (list string))
        (tr tr' : trace) (session : ChatSession) :
  get_gemini_chat B model temperature top_p top_k max_output_tokens safety tr
  = (Ok session, tr') ->
  In (model_name (session_model session))
     [model; "models/gemini-pro"; "models/gemini-2.0-flash";
      "models/gemini-2.0-flash-lite"]
  /\ model_generation_config (session_model session)
     = Some (mkGenerationConfig temperature top_p top_k max_output_tokens)
  /\ (List.length tr < session_born session)%nat
  /\ (exists before,
         tr' = (before ++ [NewModel (session_model session);
                           StartChat (session_model session)])%list)
  /\ (exists pre post,
         chat_model_names model
         = (pre ++ model_name (session_model session) :: post)%list
         /\ Forall (fun c =>
                      creatable B
                                (mkGenerationConfig temperature top_p top_k
                                                    max_output_tokens)
                                safety c = false) pre).
Proof.
  unfold get_gemini_chat; intros H.
  destruct (chat_loop_ok B _ _ _ _ _ _ _ H)
    as (pre & n & post & Hsplit & Hpre & Hn & Hmodel & Hborn & ->).
  rewrite Hmodel; cbn [chat_model model_name model_generation_config].
  split; [|split; [reflexivity|split; [exact Hborn|split]]].
  - change (In n (chat_model_names model)); rewrite Hsplit.
    apply in_or_app; right; now left.
  - rewrite flat_map_app; cbn [flat_map]; rewrite app_nil_r.
    unfold creatable in Hn.
    destruct (create B _ safety n) as [[]|e] eqn:Hcreate; [|discriminate].
    rewrite (create_ok_events B _ _ _ Hcreate), app_assoc.
    eexists; reflexivity.
  - exists pre, post; split; [exact Hsplit | exact Hpre].
Qed.

Lemma X6_get_gemini_chat_session_invariants_witness :
  exists session tr',
    get_gemini_chat stale_name "gemini-pro" (Finite 0.7) (Finite 0.8)
                    40 2048 None [] = (Ok session, tr')
    /\ model_name (session_model session) = "models/gemini-pro"
    /\ model_generation_config (session_model session)
       = Some (mkGenerationConfig (Finite 0.7) (Finite 0.8) 40 2048)
    /\ (0 < session_born session)%nat.
Proof.
  eexists; eexists; split; [reflexivity|].
  split; [reflexivity|].
  refine ((fun H => conj (proj1 (proj2 H)) (proj1 (proj2 (proj2 H))))
            (X6_get_gemini_chat_session_invariants
               stale_name "gemini-pro" (Finite 0.7) (Finite 0.8) 40 2048
               None [] _ _ eq_refl)).
Defined.

(** X7: [get_gemini_chat] fails only after it has tried all four names,
    each once and in order, and the Exception it raises carries the text of
    the error of the last name, "models/gemini-2.0-flash-lite". *)
Theorem X7_get_gemini_chat_failure
        (B : backend) (model : string) (temperature top_p : pyfloat)
        (top_k max_output_tokens : Z) (safety : option (list string))
        (tr tr' : trace) (e : exn) :
  let cfg := mkGenerationConfig temperature top_p top_k max_output_tokens in
  get_gemini_chat B model temperature top_p top_k max_output_tokens safety tr
  = (Raise e, tr') ->
  (exists cause,
      create B cfg safety "models/gemini-2.0-flash-lite" = Raise cause
      /\ e = mkExn BaseExceptionClass
                   ("Failed to create Gemini chat instance with any model: "
                      ++ str cause))
  /\ Forall (fun c => exists cause, create B cfg safety c = Raise cause)
            [model; "models/gemini-pro"; "models/gemini-2.0-flash";
             "models/gemini-2.0-flash-lite"]
  /\ tr' = (tr ++ create_events B cfg safety model
               ++ create_events B cfg safety "models/gemini-pro"
               ++ create_events B cfg safety "models/gemini-2.0-flash"
               ++ create_events B cfg safety
                                "models/gemini-2.0-flash-lite")%list.
Proof.
  intros cfg; unfold get_gemini_chat; fold cfg; intros H.
  destruct (chat_loop_raise B _ _ _ _ _ _ _ H) as (Hall & -> & ->).
  assert (Hraise : Forall (fun c => exists cause,
                               create B cfg safety c = Raise cause)
                          (chat_model_names model)).
  { revert Hall; apply Forall_impl; intros c; unfold creatable.
    destruct (create B cfg safety c) as [[]|cause]; [discriminate|].
    intros _; now exists cause. }
  split; [|split; [exact Hraise|]].
  - unfold chat_model_names in Hraise.
    inversion Hraise as [|? ? _ H1]; subst.
    inversion H1 as [|? ? _ H2]; subst.
    inversion H2 as [|? ? _ H3]; subst.
    inversion H3 as [|? ? [cause Hcause] _]; subst.
    exists cause; split; [exact Hcause|].
    unfold chat_model_names; cbn [last_raised]; now rewrite Hcause.
  - unfold chat_model_names; cbn [flat_map]; now rewrite app_nil_r.
Qed.

Lemma X7_get_gemini_chat_failure_witness :
  exists cause,
    create (mkBackend (fun _ => Ok tt) (Ok three_models)
                      (fun _ => Raise not_found) (fun _ _ => Raise quota)
                      (fun _ => Ok tt) (fun _ _ _ => Raise quota))
           (mkGenerationConfig (Finite 0.7) (Finite 0.8) 40 2048) None
           "models/gemini-2.0-flash-lite" = Raise cause
    /\ mkExn BaseExceptionClass
             "Failed to create Gemini chat instance with any model: 404 model not found"
       = mkExn BaseExceptionClass
               ("Failed to create Gemini chat instance with any model: "
                  ++ str cause).
Proof.
  exact (proj1 (X7_get_gemini_chat_failure
                  (mkBackend (fun _ => Ok tt) (Ok three_models)
                             (fun _ => Raise not_found)
                             (fun _ _ => Raise quota)
                             (fun _ => Ok tt) (fun _ _ _ => Raise quota))
                  "gemini-pro" (Finite 0.7) (Finite 0.8) 40 2048 None
                  [] _ _ eq_refl)).
Defined.

(** ** Chat: construction and reset *)

Section ChatInitialize.

Variable getenv : string -> option string.
Variable B : backend.

(** The key [_initialize_chat] ends up with is the explicit one when it
    is not empty, else the environment's. *)
Lemma initialize_chat_no_key self tr g :
  provider (config self) = "gemini" ->
  gemini_config (config self) = Some g ->
  truthy_opt_str (or_else (g_api_key g) (getenv "GOOGLE_API_KEY")) = false ->
  _initialize_chat getenv B (self, tr)
  = (Raise (mkExn ValueError "No Gemini API key provided"), (self, tr)).
Proof.
  intros Hp Hg Hkey.
  unfold _initialize_chat, bind, get_self, of_result, get_api_key.
  rewrite Hp, Hg; cbn [String.eqb Ascii.eqb Bool.eqb andb].
  rewrite Hkey; cbn [negb].
  unfold or_else in Hkey.
  destruct (truthy_opt_str (g_api_key g)) eqn:Hexplicit.
  - congruence.
  - now rewrite Hkey.
Qed.

(** Every way [_initialize_chat] can go once it has a key. *)
Lemma initialize_chat_run self tr g key :
  provider (config self) = "gemini" ->
  gemini_config (config self) = Some g ->
  or_else (g_api_key g) (getenv "GOOGLE_API_KEY") = Some key ->
  truthy_str key = true ->
  _initialize_chat getenv B (self, tr)
  = match initialize_gemini getenv B (Some key) tr with
    | (Raise e, tr1) => (Raise e, (self, tr1))
    | (Ok _, tr1) =>
        match get_gemini_chat B (g_model g) (g_temperature g) (g_top_p g)
                              (g_top_k g) (g_max_output_tokens g) None tr1
        with
        | (Raise e, tr2) => (Raise e, (self, tr2))
        | (Ok session, tr2) =>
            let self' :=
              mkChat (config self) (system_message self) (Some session) in
            match system_message self with
            | Some (String c text) =>
                (match send_message B tr2 session (String c text) with
                 | Ok _ => Ok tt
                 | Raise e => Raise e
                 end,
                 (self',
                  (tr2 ++ [SendMessage session (String c text)])%list))
            | _ => (Ok tt, (self', tr2))
            end
        end
    end.
Proof.
  intros Hp Hg Hkey Htruthy.
  unfold _initialize_chat, bind, get_self, of_result, get_api_key.
  rewrite Hp, Hg; cbn [String.eqb Ascii.eqb Bool.eqb andb].
  rewrite Hkey; cbn [truthy_opt_str]; rewrite Htruthy.
  cbn [negb truthy_opt_str]; rewrite Htruthy; cbn [negb].
  unfold lift at 1.
  destruct (initialize_gemini getenv B (Some key) tr) as [[[]|e] tr1];
    [|reflexivity].
  unfold ret at 1, lift at 1.
  destruct (get_gemini_chat B _ _ _ _ _ None tr1) as [[session|e] tr2];
    [|reflexivity].
  unfold set_chat at 1.
  destruct (system_message self) as [[|c text]|]; try reflexivity.
  cbn [truthy_str].
  unfold lift, ChatSession_send_message, call_stateful, ret.
  destruct (send_message B tr2 session (String c text)); reflexivity.
Qed.

End ChatInitialize.

Lemma initialize_gemini_extends getenv B api_key tr :
  exists evs,
    snd (initialize_gemini getenv B api_key tr) = (tr ++ evs)%list
    /\ Forall (fun ev => is_send_message ev = false) evs.
Proof.
  destruct (truthy_opt_str (match api_key with
                            | None => getenv "GOOGLE_API_KEY"
                            | Some _ => api_key
                            end)) eqn:Hkey.
  - assert (Hsome : exists key,
               truthy_str key = true
               /\ initialize_gemini getenv B api_key tr
                  = initialize_gemini getenv B (Some key) tr).
    { destruct api_key as [key|].
      - exists key; split; [exact Hkey | reflexivity].
      - destruct (getenv "GOOGLE_API_KEY") as [key|] eqn:Henv;
          [|discriminate].
        exists key; split; [exact Hkey|].
        unfold initialize_gemini; now rewrite Henv. }
    destruct Hsome as (key & Htruthy & ->).
    rewrite (initialize_gemini_cases getenv B key tr Htruthy).
    assert (Hprobes :
              forall names,
                Forall (fun ev => is_send_message ev = false)
                       (flat_map (fun n => generate_events B n probe_prompt)
                                 names)).
    { induction names as [|n names IH]; [constructor|].
      cbn [flat_map]; apply Forall_app; split; [|exact IH].
      unfold generate_events; destruct (new_model B _); repeat constructor. }
    destruct (configure B key) as [[]|e1];
      [|eexists; split; [reflexivity | repeat constructor]].
    destruct (list_models B) as [models|e2];
      [|eexists; split; [reflexivity | repeat constructor]].
    destruct (models_truthy models);
      [|eexists; split; [reflexivity | repeat constructor]].
    destruct (models_names models);
      [|eexists; split; [reflexivity | repeat constructor]].
    eexists; split; [reflexivity|].
    constructor; [reflexivity|]. constructor; [reflexivity|].
    apply Hprobes.
  - rewrite (initialize_gemini_no_key getenv B api_key tr Hkey).
    exists []; split; [now rewrite app_nil_r | constructor].
Qed.

Lemma get_gemini_chat_extends B model temperature top_p top_k
      max_output_tokens safety tr :
  exists evs,
    snd (get_gemini_chat B model temperature top_p top_k max_output_tokens
                         safety tr) = (tr ++ evs)%list
    /\ Forall (fun ev => is_send_message ev = false) evs.
Proof.
  destruct (get_gemini_chat_run B model temperature top_p top_k
                                max_output_tokens safety tr) as [-> _].
  eexists; split; [reflexivity|].
  generalize (upto_first
                (creatable B (mkGenerationConfig temperature top_p top_k
                                                 max_output_tokens) safety)
                (chat_model_names model)).
  induction l as [|n names IH]; [constructor|].
  cbn [flat_map]; apply Forall_app; split; [|exact IH].
  unfold create_events; destruct (new_model B _); repeat constructor.
Qed.

Lemma initialize_gemini_configures_first getenv B key tr :
  truthy_str key = true ->
  exists rest,
    snd (initialize_gemini getenv B (Some key) tr)
    = (tr ++ Configure key :: rest)%list.
Proof.
  intros Htruthy.
  rewrite (initialize_gemini_cases getenv B key) by exact Htruthy.
  destruct (configure B key) as [[]|e]; [|eexists; reflexivity].
  destruct (list_models B) as [models|e]; [|eexists; reflexivity].
  destruct (models_truthy models); [|eexists; reflexivity].
  destruct (models_names models); eexists; reflexivity.
Qed.

(** X8: a Gemini configuration without a usable key (no explicit key, or
    an empty one, and GOOGLE_API_KEY unset or empty) cannot be turned into
    a manager: construction raises
    ValueError("No Gemini API key provided") before any request is made,
    and a reset of a manager in that situation raises the same error and
    leaves the manager and its session as they were. *)
Theorem X8_chat_without_key
        (getenv : string -> option string) (B : backend)
        (cfg : ChatConfig) (g : GeminiConfig)
        (system_message : option string) (tr : trace) :
  provider cfg = "gemini" ->
  gemini_config cfg = Some g ->
  truthy_opt_str (g_api_key g) = false ->
  truthy_opt_str (getenv "GOOGLE_API_KEY") = false ->
  Chat_new getenv B (Some cfg) system_message tr
  = (Raise (mkExn ValueError "No Gemini API key provided"), tr)
  /\ (forall session,
        reset getenv B (mkChat cfg system_message session, tr)
        = (Raise (mkExn ValueError "No Gemini API key provided"),
           (mkChat cfg system_message session, tr))).
Proof.
  intros Hp Hg Hexplicit Henv.
  assert (Hkey : truthy_opt_str
                   (or_else (g_api_key g) (getenv "GOOGLE_API_KEY")) = false)
    by (unfold or_else; now rewrite Hexplicit).
  split.
  - unfold Chat_new; cbv beta iota zeta.
    now rewrite (initialize_chat_no_key
                   getenv B (mkChat cfg system_message None) tr g Hp Hg Hkey).
  - intros session; unfold reset.
    now apply (initialize_chat_no_key getenv B _ tr g).
Qed.

Lemma X8_chat_without_key_witness :
  Chat_new env_empty echo (Some keyless_gemini) (Some "Be brief.") []
  = (Raise (mkExn ValueError "No Gemini API key provided"), []).
Proof.
  exact (proj1 (X8_chat_without_key
                  env_empty echo keyless_gemini GeminiConfig_default
                  (Some "Be brief.") [] eq_refl eq_refl eq_refl eq_refl)).
Defined.

Lemma Chat_new_configures_first
        (getenv : string -> option string) (B : backend)
        (cfg : ChatConfig) (g : GeminiConfig)
        (system_message : option string) (tr : trace) (key : string) :
  provider cfg = "gemini" ->
  gemini_config cfg = Some g ->
  or_else (g_api_key g) (getenv "GOOGLE_API_KEY") = Some key ->
  truthy_str key = true ->
  exists rest,
    snd (Chat_new getenv B (Some cfg) system_message tr)
    = (tr ++ Configure key :: rest)%list.
Proof.
  intros Hp Hg Hkey Htruthy.
  unfold Chat_new; cbv beta iota zeta.
  rewrite (initialize_chat_run getenv B (mkChat cfg system_message None)
                               tr g key Hp Hg Hkey Htruthy).
  destruct (initialize_gemini_configures_first getenv B key tr Htruthy)
    as [rest Hrest].
  destruct (initialize_gemini getenv B (Some key) tr) as [[[]|e] tr1];
    cbn [snd] in Hrest; subst tr1; [|eexists; reflexivity].
  destruct (get_gemini_chat_extends B (g_model g) (g_temperature g)
                                    (g_top_p g) (g_top_k g)
                                    (g_max_output_tokens g) None
                                    (tr ++ Configure key :: rest)%list)
    as (evs & Hevs & _).
  destruct (get_gemini_chat B _ _ _ _ _ None _) as [[session|e] tr2];
    cbn [snd] in Hevs; subst tr2.
  - cbn [Effects.M] in *.
    destruct (ChatNew.system_message (mkChat cfg system_message None))
      as [[|c text]|]; cbn [snd].
    + rewrite <- app_assoc; eexists; reflexivity.
    + destruct (send_message B _ session (String c text)); cbn [snd];
        rewrite <- !app_assoc; eexists; reflexivity.
    + rewrite <- app_assoc; eexists; reflexivity.
  - cbn [snd]; rewrite <- app_assoc; eexists; reflexivity.
Qed.

(** X9: the key a manager configures the client with is the explicit key
    of the Gemini configuration when that is not empty, whatever the
    environment holds, and the value of GOOGLE_API_KEY otherwise; the
    configuration of the client is the first request of construction. *)
Theorem X9_chat_key_precedence
        (getenv : string -> option string) (B : backend)
        (cfg : ChatConfig) (g : GeminiConfig)
        (system_message : option string) (tr : trace) (key : string) :
  provider cfg = "gemini" ->
  gemini_config cfg = Some g ->
  key <> "" ->
  g_api_key g = Some key
  \/ (truthy_opt_str (g_api_key g) = false
      /\ getenv "GOOGLE_API_KEY" = Some key) ->
  exists rest,
    snd (Chat_new getenv B (Some cfg) system_message tr)
    = (tr ++ Configure key :: rest)%list.
Proof.
  intros Hp Hg Hne Hfrom.
  assert (Htruthy : truthy_str key = true)
    by (destruct key; [congruence | reflexivity]).
  apply (Chat_new_configures_first getenv B cfg g); try assumption.
  unfold or_else; destruct Hfrom as [->|[-> ->]]; [|reflexivity].
  cbn [truthy_opt_str]; now rewrite Htruthy.
Qed.

Lemma X9_chat_key_precedence_witness :
  (exists rest,
      snd (Chat_new env_with_keys echo (Some keyed_gemini) None [])
      = ([] ++ Configure "explicit-key" :: rest)%list)
  /\ (exists rest,
         snd (Chat_new env_with_keys echo (Some keyless_gemini) None [])
         = ([] ++ Configure "google-env-key" :: rest)%list).
Proof.
  split.
  - apply (X9_chat_key_precedence
             env_with_keys echo keyed_gemini
             (mkGeminiConfig "gemini-pro" (Finite 0.7) (Finite 0.8)
                             40 2048 (Some "explicit-key"))
             None [] "explicit-key"); try reflexivity.
    + discriminate.
    + now left.
  - apply (X9_chat_key_precedence
             env_with_keys echo keyless_gemini GeminiConfig_default
             None [] "google-env-key"); try reflexivity.
    + discriminate.
    + right; split; reflexivity.
Defined.

Section ChatOutcomes.

Variable getenv : string -> option string.
Variable B : backend.

Lemma initialize_chat_no_config self tr :
  provider (config self) = "gemini" ->
  gemini_config (config self) = None ->
  _initialize_chat getenv B (self, tr)
  = (Raise (mkExn AttributeError
                  "'NoneType' object has no attribute 'api_key'"),
     (self, tr)).
Proof.
  intros Hp Hg.
  unfold _initialize_chat, bind, get_self, of_result, get_api_key.
  rewrite Hp, Hg; reflexivity.
Qed.

(** What must hold for [_initialize_chat] to get as far as the backend. *)
Lemma initialize_chat_reaches_backend self tr :
  (exists e, _initialize_chat getenv B (self, tr) = (Raise e, (self, tr)))
  \/ (provider (config self) = "gemini"
      /\ exists g key,
           gemini_config (config self) = Some g
           /\ or_else (g_api_key g) (getenv "GOOGLE_API_KEY") = Some key
           /\ truthy_str key = true).
Proof.
  destruct (String.eqb_spec (provider (config self)) "gemini") as [Hp|Hp].
  - destruct (gemini_config (config self)) as [g|] eqn:Hg.
    + destruct (truthy_opt_str
                  (or_else (g_api_key g) (getenv "GOOGLE_API_KEY")))
        eqn:Hkey.
      * right; split; [exact Hp|].
        destruct (or_else (g_api_key g) (getenv "GOOGLE_API_KEY"))
          as [key|] eqn:Hor; [|discriminate].
        exists g, key; split; [reflexivity|].
        split; [exact Hor | exact Hkey].
      * left; eexists.
        now apply (initialize_chat_no_key getenv B self tr g).
    + left; eexists; now apply initialize_chat_no_config.
  - left; eexists; now apply initialize_chat_other_provider.
Qed.

End ChatOutcomes.

(** X10: a configuration whose selected sub-configuration is missing
    passes validation and fails at use.  [ChatConfig(provider="gemini",
    gemini_config=None)] is constructed, and building a manager from it
    raises AttributeError before any request; [ChatConfig(provider=
    "openai")] is constructed with no OpenAI sub-configuration, and
    [get_api_key] raises AttributeError on it whatever OPENAI_API_KEY
    holds. *)
Theorem X10_missing_subconfig_fails_at_use
        (getenv : string -> option string) (B : backend)
        (o : option OpenAIConfig) (g : option GeminiConfig)
        (system_message : option string) (tr : trace) :
  optional_ok OpenAIConfig_fields_ok o = true ->
  optional_ok GeminiConfig_fields_ok g = true ->
  (ChatConfig_new "gemini" o None = Ok (mkChatConfig "gemini" o None)
   /\ Chat_new getenv B (Some (mkChatConfig "gemini" o None))
               system_message tr
      = (Raise (mkExn AttributeError
                      "'NoneType' object has no attribute 'api_key'"), tr))
  /\ (ChatConfig_new "openai" None g = Ok (mkChatConfig "openai" None g)
      /\ get_api_key getenv (mkChatConfig "openai" None g)
         = Raise (mkExn AttributeError
                        "'NoneType' object has no attribute 'api_key'")).
Proof.
  intros Ho Hg; split; split.
  - unfold ChatConfig_new; rewrite Ho; reflexivity.
  - unfold Chat_new; cbv beta iota zeta.
    now rewrite (initialize_chat_no_config
                   getenv B
                   (mkChat (mkChatConfig "gemini" o None) system_message None)
                   tr eq_refl eq_refl).
  - unfold ChatConfig_new; rewrite Hg; reflexivity.
  - reflexivity.
Qed.

Lemma X10_missing_subconfig_fails_at_use_witness :
  ChatConfig_new "openai" None (Some GeminiConfig_default)
  = Ok (mkChatConfig "openai" None (Some GeminiConfig_default))
  /\ get_api_key env_with_keys
                 (mkChatConfig "openai" None (Some GeminiConfig_default))
     = Raise (mkExn AttributeError
                    "'NoneType' object has no attribute 'api_key'").
Proof.
  exact (proj2 (X10_missing_subconfig_fails_at_use
                  env_with_keys echo None (Some GeminiConfig_default)
                  None [] eq_refl eq_refl)).
Defined.

(** X11: a manager that has been constructed holds a session; when a
    system message that is not empty was given, that message was sent to
    this session as the last request of construction and the session
    answered without raising (the answer is dropped); when the system
    message is absent or empty, construction sent nothing to the
    session. *)
Theorem X11_system_message_is_first_turn
        (getenv : string -> option string) (B : backend)
        (cfg : option ChatConfig) (system_message : option string)
        (tr tr' : trace) (self : Chat) :
  Chat_new getenv B cfg system_message tr = (Ok self, tr') ->
  exists session evs,
    chat self = Some session
    /\ ChatNew.system_message self = system_message
    /\ Forall (fun ev => is_send_message ev = false) evs
    /\ match system_message with
       | Some (String c text) =>
           tr' = (tr ++ evs ++ [SendMessage session (String c text)])%list
           /\ exists r,
               send_message B (tr ++ evs)%list session (String c text)
               = Ok r
       | _ => tr' = (tr ++ evs)%list
       end.
Proof.
  unfold Chat_new.
  set (self0 := mkChat match cfg with
                       | Some c => c
                       | None => ChatConfig_default
                       end system_message None).
  destruct (initialize_chat_reaches_backend getenv B self0 tr)
    as [[e ->]|(Hp & g & key & Hg & Hkey & Htruthy)]; [discriminate|].
  rewrite (initialize_chat_run getenv B self0 tr g key Hp Hg Hkey Htruthy).
  destruct (initialize_gemini_extends getenv B (Some key) tr)
    as (evs1 & Htr1 & Hevs1).
  destruct (initialize_gemini getenv B (Some key) tr) as [[[]|e] tr1];
    [|discriminate].
  cbn [snd] in Htr1; subst tr1.
  destruct (get_gemini_chat_extends B (g_model g) (g_temperature g)
                                    (g_top_p g) (g_top_k g)
                                    (g_max_output_tokens g) None
                                    (tr ++ evs1)%list)
    as (evs2 & Htr2 & Hevs2).
  destruct (get_gemini_chat B _ _ _ _ _ None _) as [[session|e] tr2];
    [|discriminate].
  cbn [snd] in Htr2; subst tr2.
  cbv zeta; cbn [ChatNew.system_message self0].
  assert (Hevs : Forall (fun ev => is_send_message ev = false)
                        (evs1 ++ evs2))
    by (apply Forall_app; now split).
  destruct system_message as [[|c text]|].
  - intros [= <- <-]; exists session, (evs1 ++ evs2)%list.
    repeat split; try assumption; now rewrite <- app_assoc.
  - destruct (send_message B _ session (String c text)) as [r|e] eqn:Hsend;
      [|discriminate].
    intros [= <- <-]; exists session, (evs1 ++ evs2)%list.
    repeat split; try assumption.
    + now rewrite <- !app_assoc.
    + exists r; rewrite <- Hsend; now rewrite <- app_assoc.
  - intros [= <- <-]; exists session, (evs1 ++ evs2)%list.
    repeat split; try assumption; now rewrite <- app_assoc.
Qed.

Lemma X11_system_message_is_first_turn_witness :
  exists self tr' session evs,
    Chat_new env_empty echo (Some keyed_gemini) (Some "Be brief.") []
    = (Ok self, tr')
    /\ chat self = Some session
    /\ Forall (fun ev => is_send_message ev = false) evs
    /\ tr' = ([] ++ evs ++ [SendMessage session "Be brief."])%list.
Proof.
  destruct (X11_system_message_is_first_turn
              env_empty echo (Some keyed_gemini) (Some "Be brief.") []
              _ _ eq_refl)
    as (session & evs & Hchat & _ & Hevs & Htr & _).
  eexists; eexists; exists session, evs.
  split; [reflexivity|]. split; [exact Hchat|]. split; [exact Hevs|].
  exact Htr.
Defined.

(** X12: [reset] never touches the configuration or the system message.
    When it returns, the manager holds a session made after every request
    that came before, so not the one it held.  When it raises, the manager
    still holds the session it had, except in one case: the new session
    was made and sending the system message to it raised; then the manager
    holds the new session and the error is the session's own. *)
Theorem X12_reset_outcomes
        (getenv : string -> option string) (B : backend)
        (self self' : Chat) (tr tr' : trace) (r : result unit) :
  reset getenv B (self, tr) = (r, (self', tr')) ->
  config self' = config self
  /\ system_message self' = system_message self
  /\ (exists evs, tr' = (tr ++ evs)%list)
  /\ (r = Ok tt ->
      exists session,
        chat self' = Some session
        /\ (List.length tr < session_born session)%nat)
  /\ (forall e,
        r = Raise e ->
        chat self' = chat self
        \/ exists session text before,
             chat self' = Some session
             /\ (List.length tr < session_born session)%nat
             /\ system_message self = Some text
             /\ tr' = (before ++ [SendMessage session text])%list
             /\ send_message B before session text = Raise e).
Proof.
  unfold reset.
  destruct (initialize_chat_reaches_backend getenv B self tr)
    as [[e ->]|(Hp & g & key & Hg & Hkey & Htruthy)].
  - intros [= <- <- <-].
    split; [reflexivity|]. split; [reflexivity|].
    split; [exists []; now rewrite app_nil_r|].
    split; [discriminate | intros ? _; now left].
  - rewrite (initialize_chat_run getenv B self tr g key Hp Hg Hkey Htruthy).
    destruct (initialize_gemini_extends getenv B (Some key) tr)
      as (evs1 & Htr1 & _).
    destruct (initialize_gemini getenv B (Some key) tr) as [[[]|e] tr1];
      cbn [snd] in Htr1; subst tr1.
    + destruct (get_gemini_chat B (g_model g) (g_temperature g) (g_top_p g)
                                (g_top_k g) (g_max_output_tokens g) None
                                (tr ++ evs1)%list)
        as [[session|e] tr2] eqn:Hchat.
      * unfold get_gemini_chat in Hchat.
        destruct (chat_loop_ok B _ _ _ _ _ _ _ Hchat)
          as (pre & n & post & _ & _ & _ & _ & Hborn & Htr2).
        rewrite length_app in Hborn.
        assert (Hlater : (List.length tr < session_born session)%nat)
          by lia.
        cbv zeta.
        destruct (system_message self) as [[|c text]|] eqn:Hsys.
        -- intros [= <- <- <-]; cbn [config system_message chat].
           split; [reflexivity|]. split; [reflexivity|].
           split; [rewrite Htr2, <- app_assoc; eexists; reflexivity|].
           split; [intros _; now exists session | discriminate].
        -- intros [= <- <- <-]; cbn [config system_message chat].
           split; [reflexivity|]. split; [reflexivity|].
           split; [rewrite Htr2, <- !app_assoc; eexists; reflexivity|].
           split; [intros _; now exists session|].
           intros e He; right.
           exists session, (String c text), tr2.
           repeat split; try assumption; try reflexivity.
           destruct (send_message B tr2 session (String c text));
             congruence.
        -- intros [= <- <- <-]; cbn [config system_message chat].
           split; [reflexivity|]. split; [reflexivity|].
           split; [rewrite Htr2, <- app_assoc; eexists; reflexivity|].
           split; [intros _; now exists session | discriminate].
      * destruct (get_gemini_chat_extends
                    B (g_model g) (g_temperature g) (g_top_p g) (g_top_k g)
                    (g_max_output_tokens g) None (tr ++ evs1)%list)
          as (evs2 & Htr2 & _).
        rewrite Hchat in Htr2; cbn [snd] in Htr2; subst tr2.
        intros [= <- <- <-].
        split; [reflexivity|]. split; [reflexivity|].
        split; [rewrite <- app_assoc; eexists; reflexivity|].
        split; [discriminate | intros ? _; now left].
    + intros [= <- <- <-].
      split; [reflexivity|]. split; [reflexivity|].
      split; [eexists; reflexivity|].
      split; [discriminate | intros ? _; now left].
Qed.

Lemma X12_reset_outcomes_witness :
  exists self' tr' session,
    reset env_empty broken_session
          (mkChat keyed_gemini (Some "Be brief.") (Some a_session),
           [Configure "old-key"])
    = (Raise unavailable, (self', tr'))
    /\ chat self' = Some session
    /\ (1 < session_born session)%nat
    /\ config self' = keyed_gemini.
Proof.
  destruct (reset env_empty broken_session
                  (mkChat keyed_gemini (Some "Be brief.") (Some a_session),
                   [Configure "old-key"]))
    as [r [self' tr']] eqn:Hrun.
  pose proof (f_equal fst Hrun) as Hr; vm_compute in Hr; subst r.
  destruct (X12_reset_outcomes env_empty broken_session _ _ _ _ _ Hrun)
    as (Hconfig & _ & _ & _ & Hraise).
  destruct (Hraise unavailable eq_refl)
    as [Hsame|(session & text & before & Hchat & Hborn & _)].
  - pose proof (f_equal (fun p => fst (snd p)) Hrun) as Hnew.
    vm_compute in Hnew; subst self'.
    vm_compute in Hsame; discriminate Hsame.
  - exists self', tr', session.
    split; [reflexivity|]. split; [exact Hchat|].
    split; [exact Hborn | exact Hconfig].
Defined.

(** ** Chat.send_message *)

Lemma text_of_some r t :
  text_of r = Ok (Some t) ->
  response_truthy r = true /\ response_text r = Ok t /\ t <> "".
Proof.
  unfold text_of.
  destruct (response_truthy r); [|discriminate].
  destruct (response_text r) as [t'|e]; [|discriminate].
  destruct t' as [|c rest]; simpl; [discriminate|].
  intros [= <-]; repeat split; discriminate.
Qed.

Lemma text_of_usable r t :
  response_truthy r = true -> response_text r = Ok t -> t <> "" ->
  text_of r = Ok (Some t).
Proof.
  unfold text_of; intros -> -> Ht.
  destruct t; [congruence | reflexivity].
Qed.

Lemma reply_some B name message t :
  reply B name message = Ok (Some t) -> t <> "".
Proof.
  unfold reply.
  destruct (new_model B _); [|discriminate].
  destruct (generate_content B _ _) as [r|e]; [|discriminate].
  intros H; now destruct (text_of_some r t H) as (_ & _ & Hne).
Qed.

Lemma generate_events_stateless B names name message :
  In name names ->
  Forall (stateless_request names message) (generate_events B name message).
Proof.
  intros Hin; unfold generate_events.
  assert (Hnew : stateless_request names message (NewModel (bare_model name)))
    by (unfold stateless_request; exists name; split;
        [exact Hin | left; reflexivity]).
  assert (Hgen : stateless_request
                   names message (GenerateContent (bare_model name) message))
    by (unfold stateless_request; exists name; split;
        [exact Hin | right; reflexivity]).
  destruct (new_model B _).
  - constructor; [exact Hnew|]. constructor; [exact Hgen | constructor].
  - constructor; [exact Hnew | constructor].
Qed.

Lemma fallback_events_stateless B message names :
  forall walked,
    (forall n, In n walked -> In n names) ->
    Forall (stateless_request names message)
           (flat_map (fun n => generate_events B n message) walked).
Proof.
  induction walked as [|n walked IH]; intros Hsub; [constructor|].
  cbn [flat_map]; apply Forall_app; split.
  - apply generate_events_stateless, Hsub; now left.
  - apply IH; intros n' Hn'; apply Hsub; now right.
Qed.

Lemma upto_first_incl {A} (p : A -> bool) l :
  forall a, In a (upto_first p l) -> In a l.
Proof.
  induction l as [|b l IH]; simpl; [tauto|].
  destruct (p b); simpl; intros a [<-|Hin]; auto; contradiction.
Qed.

Lemma upto_first_length {A} (p : A -> bool) l :
  (List.length (upto_first p l) <= List.length l)%nat.
Proof.
  induction l as [|b l IH]; simpl; [lia|].
  destruct (p b); simpl; lia.
Qed.

Lemma generate_events_length B name message :
  (List.length (generate_events B name message) <= 2)%nat.
Proof.
  unfold generate_events; destruct (new_model B _); simpl; lia.
Qed.

Lemma fallback_events_length B message walked :
  (List.length (flat_map (fun n => generate_events B n message) walked)
   <= 2 * List.length walked)%nat.
Proof.
  induction walked as [|n walked IH]; [simpl; lia|].
  cbn [flat_map List.length]; rewrite length_app.
  pose proof (generate_events_length B n message); lia.
Qed.

(** X13: when the bound session answers a message with a truthy response
    whose text is not empty, [send_message] returns exactly that text and
    the message to the session is its only request: no fallback candidate
    is contacted. *)
Theorem X13_send_returns_session_text
        (B : backend) (self : Chat) (session : ChatSession)
        (message : string) (stream : bool) (tr : trace)
        (r : response) (t : string) :
  chat self = Some session ->
  send_message B tr session message = Ok r ->
  response_truthy r = true ->
  response_text r = Ok t ->
  t <> "" ->
  Chat_send_message B self message stream tr
  = (Ok t, (tr ++ [SendMessage session message])%list).
Proof.
  intros Hchat Hsend Htruthy Htext Hne.
  rewrite (Chat_send_message_run B self session message stream tr Hchat).
  rewrite get_chat_response_run; unfold session_reply.
  rewrite Hsend, (text_of_usable r t Htruthy Htext Hne); reflexivity.
Qed.

Lemma X13_send_returns_session_text_witness :
  Chat_send_message echo a_chat "hello" true [Configure "explicit-key"]
  = (Ok "[hello]", [Configure "explicit-key"; SendMessage a_session "hello"]).
Proof.
  apply (X13_send_returns_session_text
           echo a_chat a_session "hello" true [Configure "explicit-key"]
           (answer "[hello]") "[hello]"); try reflexivity.
  discriminate.
Defined.

(** X14: a reply of the bound session that cannot be used is treated like
    a failure of the session: when the response is falsy, or its text is
    empty, or reading its text raises, [send_message] goes on to the
    fallback candidates and returns the text of the first one that has
    one.  The error of a session reply whose text could not be read is
    dropped. *)
Theorem X14_send_unusable_session_reply_falls_back
        (B : backend) (self : Chat) (session : ChatSession)
        (message : string) (stream : bool) (tr : trace) (r : response) :
  chat self = Some session ->
  send_message B tr session message = Ok r ->
  response_truthy r = false
  \/ response_text r = Ok ""
  \/ (exists e, response_text r = Raise e) ->
  Chat_send_message B self message stream tr
  = (match first_text (fun c => reply B c message) response_model_names with
     | Some t => Ok t
     | None =>
         Raise (mkExn BaseExceptionClass
                      ("Failed to get chat response: "
                         ++ "Failed to get chat response: "
                         ++ "Failed to get response from any model: "
                         ++ str_opt (last_raised (fun c => reply B c message)
                                                 response_model_names None)))
     end,
     (tr ++ SendMessage session message
         :: flat_map (fun c => generate_events B c message)
                     (upto_first (fun c => usable B c message)
                                 response_model_names))%list).
Proof.
  intros Hchat Hsend Hbad.
  assert (Hno : ~ yields_text (fun _ => session_reply B tr session message)
                  "").
  { unfold session_reply; rewrite Hsend; intros [t Ht].
    destruct (text_of_some r t Ht) as (Htruthy & Htext & Hne).
    destruct Hbad as [Hf|[He|[e He]]]; congruence. }
  rewrite (Chat_send_message_run B self session message stream tr Hchat).
  rewrite get_chat_response_fallback by exact Hno; cbn [fst snd].
  destruct (first_text _ _); reflexivity.
Qed.

Lemma X14_send_unusable_session_reply_falls_back_witness :
  Chat_send_message silent_session a_chat "hello" false []
  = (Ok "[hello]",
     [ SendMessage a_session "hello";
       NewModel (bare_model "models/gemini-pro");
       GenerateContent (bare_model "models/gemini-pro") "hello" ]).
Proof.
  apply (X14_send_unusable_session_reply_falls_back
           silent_session a_chat a_session "hello" false [] (answer ""));
    try reflexivity.
  right; left; reflexivity.
Defined.

(** X15: [send_message] never returns the empty string: a text it returns
    is the text of a truthy response of the session or of a fallback
    candidate and is not empty. *)
Theorem X15_send_never_returns_empty
        (B : backend) (self : Chat) (message : string) (stream : bool)
        (tr tr' : trace) (t : string) :
  Chat_send_message B self message stream tr = (Ok t, tr') ->
  t <> ""
  /\ exists session,
       chat self = Some session
       /\ (session_reply B tr session message = Ok (Some t)
           \/ exists c, In c response_model_names
                        /\ reply B c message = Ok (Some t)).
Proof.
  destruct (chat self) as [session|] eqn:Hchat.
  - rewrite (Chat_send_message_run B self session message stream tr Hchat).
    rewrite get_chat_response_run.
    destruct (session_reply B tr session message) as [[t0|]|e] eqn:Hsession;
      cbn [fst snd].
    + intros [= <- <-]; split.
      * unfold session_reply in Hsession.
        destruct (send_message B tr session message) as [r|]; [|discriminate].
        now destruct (text_of_some r t0 Hsession) as (_ & _ & Hne).
      * exists session; split; [reflexivity | now left].
    + destruct (first_text (fun n => reply B n message)
                           response_model_names) as [t0|] eqn:Hfirst;
        [|discriminate].
      intros [= <- <-].
      destruct (first_text_some _ _ _ Hfirst)
        as (pre & c & post & Hsplit & _ & Hc).
      split; [exact (reply_some B c message t0 Hc)|].
      exists session; split; [reflexivity|]; right.
      exists c; split; [|exact Hc].
      rewrite Hsplit; apply in_or_app; right; now left.
    + destruct (first_text (fun n => reply B n message)
                           response_model_names) as [t0|] eqn:Hfirst;
        [|discriminate].
      intros [= <- <-].
      destruct (first_text_some _ _ _ Hfirst)
        as (pre & c & post & Hsplit & _ & Hc).
      split; [exact (reply_some B c message t0 Hc)|].
      exists session; split; [reflexivity|]; right.
      exists c; split; [|exact Hc].
      rewrite Hsplit; apply in_or_app; right; now left.
  - unfold Chat_send_message, try_except, bind; rewrite Hchat.
    unfold raise; discriminate.
Qed.

Lemma X15_send_never_returns_empty_witness :
  "[hello]" <> ""
  /\ exists session,
       chat a_chat = Some session
       /\ (session_reply echo [] session "hello" = Ok (Some "[hello]")
           \/ exists c, In c response_model_names
                        /\ reply echo c "hello" = Ok (Some "[hello]")).
Proof.
  apply (X15_send_never_returns_empty echo a_chat "hello" false []
                                      [SendMessage a_session "hello"]).
  reflexivity.
Defined.

(** X16: [send_message] raises nothing but a plain Exception whose text
    starts with "Failed to get chat response: ".  On a manager with a
    session it raises only when the session gave no usable text and none
    of the three fallback candidates did either, after trying all of them
    in order; the text then ends with the last error a candidate raised,
    or with "None" when no candidate raised. *)
Theorem X16_send_failure
        (B : backend) (self : Chat) (message : string) (stream : bool)
        (tr tr' : trace) (e : exn) :
  Chat_send_message B self message stream tr = (Raise e, tr') ->
  exn_class_of e = BaseExceptionClass
  /\ ((chat self = None
       /\ exn_msg e
          = "Failed to get chat response: 'Chat' object has no attribute 'chat'"
       /\ tr' = tr)
      \/ exists session,
           chat self = Some session
           /\ ~ yields_text (fun _ => session_reply B tr session message) ""
           /\ Forall (fun c => ~ yields_text (fun c' => reply B c' message) c)
                     response_model_names
           /\ exn_msg e
              = "Failed to get chat response: "
                  ++ "Failed to get chat response: "
                  ++ "Failed to get response from any model: "
                  ++ str_opt (last_raised (fun c => reply B c message)
                                          response_model_names None)
           /\ tr' = (tr ++ SendMessage session message
                        :: flat_map (fun c => generate_events B c message)
                                    response_model_names)%list).
Proof.
  intros H.
  assert (Hcases : chat self = None \/ exists session, chat self = Some session)
    by (destruct (chat self) as [session|]; [right; now exists session
                                            | now left]).
  destruct Hcases as [Hchat|[session Hchat]].
  - unfold Chat_send_message, try_except, bind in H; rewrite Hchat in H.
    unfold raise in H; injection H as <- <-.
    split; [reflexivity|]. left; repeat split; assumption.
  - rewrite (Chat_send_message_run B self session message stream tr Hchat)
      in H.
    rewrite get_chat_response_run in H.
    assert (Hno : ~ yields_text
                    (fun _ => session_reply B tr session message) "").
    { intros [t Ht]; rewrite Ht in H; discriminate H. }
    assert (Hrun :
              (match first_text (fun n => reply B n message)
                                response_model_names with
               | Some t => Ok t
               | None =>
                   Raise (chat_response_failed
                            (chat_response_failed
                               (no_response
                                  (last_raised
                                     (fun n => reply B n message)
                                     response_model_names None))))
               end,
               (tr ++ SendMessage session message
                   :: flat_map (fun n => generate_events B n message)
                               (upto_first (fun n => usable B n message)
                                           response_model_names))%list)
              = (Raise e, tr')).
    { destruct (session_reply B tr session message) as [[t|]|e0];
        cbn [fst snd] in H.
      - exfalso; apply Hno; now exists t.
      - destruct (first_text _ _); [discriminate H | exact H].
      - destruct (first_text _ _); [discriminate H | exact H]. }
    clear H.
    destruct (first_text (fun n => reply B n message) response_model_names)
      eqn:Hfirst; [discriminate|].
    pose proof (proj1 (first_text_none _ _) Hfirst) as Hall.
    rewrite (upto_first_all _ _ (unusable_all B _ _ Hall)) in Hrun.
    injection Hrun as <- <-.
    split; [reflexivity|].
    right; exists session; repeat split; assumption || reflexivity.
Qed.

Lemma X16_send_failure_witness :
  exn_class_of
    (mkExn BaseExceptionClass
           "Failed to get chat response: Failed to get chat response: Failed to get response from any model: 429 quota exceeded")
  = BaseExceptionClass
  /\ Chat_send_message out_of_quota a_chat "hello" false []
     = (Raise (mkExn BaseExceptionClass
                     "Failed to get chat response: Failed to get chat response: Failed to get response from any model: 429 quota exceeded"),
        snd (Chat_send_message out_of_quota a_chat "hello" false [])).
Proof.
  assert (Hrun :
            Chat_send_message out_of_quota a_chat "hello" false []
            = (Raise (mkExn BaseExceptionClass
                            "Failed to get chat response: Failed to get chat response: Failed to get response from any model: 429 quota exceeded"),
               snd (Chat_send_message out_of_quota a_chat "hello" false [])))
    by reflexivity.
  split; [|exact Hrun].
  exact (proj1 (X16_send_failure out_of_quota a_chat "hello" false [] _ _
                                 Hrun)).
Defined.

(** X17: on a manager with a session, [send_message] first sends the
    message to that session, and whatever it requests after that is a
    stateless request on one of the three fallback names with the message
    as it was given.  It never configures the client, lists models or
    starts a chat, and makes at most seven requests. *)
Theorem X17_send_requests
        (B : backend) (self : Chat) (session : ChatSession)
        (message : string) (stream : bool) (tr : trace) :
  chat self = Some session ->
  exists evs,
    snd (Chat_send_message B self message stream tr)
    = (tr ++ SendMessage session message :: evs)%list
    /\ Forall (stateless_request
                 ["models/gemini-pro"; "models/gemini-2.0-flash";
                  "models/gemini-2.0-flash-lite"] message) evs
    /\ (List.length evs <= 6)%nat.
Proof.
  intros Hchat.
  rewrite (Chat_send_message_run B self session message stream tr Hchat).
  rewrite get_chat_response_run; cbn [snd].
  assert (Hevs :
            Forall (stateless_request response_model_names message)
                   (flat_map (fun n => generate_events B n message)
                             (upto_first (fun n => usable B n message)
                                         response_model_names))
            /\ (List.length
                  (flat_map (fun n => generate_events B n message)
                            (upto_first (fun n => usable B n message)
                                        response_model_names)) <= 6)%nat).
  { split.
    - apply fallback_events_stateless, upto_first_incl.
    - pose proof (fallback_events_length
                    B message
                    (upto_first (fun n => usable B n message)
                                response_model_names)) as Hlen.
      pose proof (upto_first_length (fun n => usable B n message)
                                    response_model_names) as Hnames.
      change (List.length response_model_names) with 3%nat in Hnames.
      lia. }
  destruct (session_reply B tr session message) as [[t|]|e]; cbn [snd].
  - exists []; repeat split; [constructor | simpl; lia].
  - eexists; split; [reflexivity | exact Hevs].
  - eexists; split; [reflexivity | exact Hevs].
Qed.

Lemma X17_send_requests_witness :
  exists evs,
    snd (Chat_send_message session_lost a_chat "hello" false [])
    = ([] ++ SendMessage a_session "hello" :: evs)%list
    /\ Forall (stateless_request
                 ["models/gemini-pro"; "models/gemini-2.0-flash";
                  "models/gemini-2.0-flash-lite"] "hello") evs
    /\ (List.length evs <= 6)%nat.
Proof.
  exact (X17_send_requests session_lost a_chat a_session "hello" false []
                           eq_refl).
Defined.

(** ** count_tokens and estimate_cost, continued *)

Lemma split_from_app_space a :
  forall word sep b,
    isspace sep = true ->
    split_from word (a ++ String sep b)
    = (split_from word a ++ split_from [] b)%list.
Proof.
  induction a as [|c a IH]; intros word sep b Hsep; simpl.
  - rewrite Hsep; destruct word; reflexivity.
  - destruct (isspace c).
    + destruct word; simpl; now rewrite IH.
    + now apply IH.
Qed.

Lemma split_from_word w :
  forall word rest,
    (forall c, In c (list_ascii_of_string w) -> isspace c = false) ->
    split_from word (w ++ rest)
    = split_from (rev (list_ascii_of_string w) ++ word) rest.
Proof.
  induction w as [|c w IH]; intros word rest Hw; simpl; [reflexivity|].
  rewrite (Hw c) by now left.
  rewrite IH by (intros c' Hc'; apply Hw; now right).
  now rewrite <- app_assoc.
Qed.

Lemma append_empty_r (s : string) : s ++ "" = s.
Proof. induction s as [|c s IH]; simpl; [reflexivity | now rewrite IH]. Qed.

Lemma split_word_alone w :
  is_word w -> split w = [w].
Proof.
  intros [Hne Hw]; unfold split.
  rewrite <- (append_empty_r w) at 1.
  rewrite (split_from_word w [] "" Hw), app_nil_r; simpl.
  destruct (rev (list_ascii_of_string w)) as [|c l] eqn:Hrev.
  - exfalso; apply Hne.
    apply (f_equal (@rev ascii)) in Hrev; rewrite rev_involutive in Hrev.
    apply (f_equal string_of_list_ascii) in Hrev.
    now rewrite string_of_list_ascii_of_string in Hrev.
  - rewrite <- Hrev, rev_involutive, string_of_list_ascii_of_string.
    reflexivity.
Qed.

Lemma split_app_space a b sep :
  isspace sep = true ->
  split (a ++ String sep b) = (split a ++ split b)%list.
Proof. intros Hsep; unfold split; now apply split_from_app_space. Qed.

(** X18: splitting undoes joining: for words that are not empty and hold
    no whitespace, [" ".join(words).split()] gives the words back, so the
    token count of the joined text is the number of words. *)
Theorem X18_split_join_round_trip (words : list string) :
  Forall is_word words ->
  split (join_space words) = words
  /\ count_tokens (join_space words) = Z.of_nat (List.length words).
Proof.
  intros Hwords.
  assert (Hsplit : split (join_space words) = words).
  { induction Hwords as [|w rest Hw Hrest IH]; [reflexivity|].
    destruct rest as [|w2 rest].
    - now apply split_word_alone.
    - change (join_space (w :: w2 :: rest))
        with (w ++ String " " (join_space (w2 :: rest))).
      rewrite (split_app_space w _ " " eq_refl), IH.
      now rewrite (split_word_alone w Hw). }
  split; [exact Hsplit|].
  unfold count_tokens; now rewrite Hsplit.
Qed.

Lemma X18_split_join_round_trip_witness :
  split (join_space ["tell"; "me"; "a"; "joke"]) = ["tell"; "me"; "a"; "joke"]
  /\ count_tokens (join_space ["tell"; "me"; "a"; "joke"]) = 4%Z.
Proof.
  apply (X18_split_join_round_trip ["tell"; "me"; "a"; "joke"]).
  repeat constructor; try discriminate;
    intros c Hc; simpl in Hc;
    repeat (destruct Hc as [<-|Hc]; [reflexivity|]); contradiction.
Defined.

(** X19: the token count is additive over texts joined by a whitespace
    character: the words of [a + sep + b] are the words of [a] followed by
    the words of [b], so its token count is the sum of the two counts. *)
Theorem X19_count_tokens_additive (a b : string) (sep : ascii) :
  isspace sep = true ->
  split (a ++ String sep b) = (split a ++ split b)%list
  /\ count_tokens (a ++ String sep b) = (count_tokens a + count_tokens b)%Z.
Proof.
  intros Hsep.
  assert (Hsplit : split (a ++ String sep b) = (split a ++ split b)%list)
    by now apply split_app_space.
  split; [exact Hsplit|].
  unfold count_tokens; rewrite Hsplit, length_app; lia.
Qed.

Lemma X19_count_tokens_additive_witness :
  split ("what is" ++ String (ascii_of_nat 10) "the answer")
  = (split "what is" ++ split "the answer")%list
  /\ count_tokens ("what is" ++ String (ascii_of_nat 10) "the answer")
     = (count_tokens "what is" + count_tokens "the answer")%Z.
Proof.
  apply (X19_count_tokens_additive "what is" "the answer" (ascii_of_nat 10)).
  reflexivity.
Defined.

Lemma word_starts_zero text :
  word_starts true text = 0%nat <-> all_space text = true.
Proof.
  induction text as [|c rest IH]; simpl; [tauto|].
  destruct (isspace c); simpl.
  - exact IH.
  - split; discriminate.
Qed.


Lemma lstrip_all_space s : all_space (lstrip s) = all_space s.
Proof.
  induction s as [|c rest IH]; simpl; [reflexivity|].
  destruct (isspace c) eqn:Hc; simpl; [exact IH | now rewrite Hc].
Qed.

Lemma lstrip_empty s : lstrip s = "" <-> all_space s = true.
Proof.
  induction s as [|c rest IH]; simpl; [tauto|].
  destruct (isspace c); simpl; [exact IH | split; discriminate].
Qed.

Lemma all_space_list l :
  all_space (string_of_list_ascii l) = forallb isspace l.
Proof.
  induction l as [|c l IH]; simpl; [reflexivity | now rewrite IH].
Qed.

Lemma forallb_rev_eq {A} (p : A -> bool) l :
  forallb p (rev l) = forallb p l.
Proof.
  induction l as [|a l IH]; simpl; [reflexivity|].
  rewrite forallb_app, IH; simpl.
  rewrite andb_true_r; apply andb_comm.
Qed.

Lemma reverse_all_space s : all_space (reverse s) = all_space s.
Proof.
  unfold reverse; rewrite all_space_list, forallb_rev_eq.
  rewrite <- all_space_list; now rewrite string_of_list_ascii_of_string.
Qed.

Lemma reverse_empty s : reverse s = "" -> s = "".
Proof.
  unfold reverse; intros H.
  apply (f_equal list_ascii_of_string) in H.
  rewrite list_ascii_of_string_of_list_ascii in H; simpl in H.
  apply (f_equal (@rev ascii)) in H; rewrite rev_involutive in H.
  apply (f_equal string_of_list_ascii) in H.
  now rewrite string_of_list_ascii_of_string in H.
Qed.

Lemma strip_empty s : strip s = "" <-> all_space s = true.
Proof.
  unfold strip, rstrip; split.
  - intros H; apply reverse_empty in H.
    apply lstrip_empty in H.
    now rewrite reverse_all_space, lstrip_all_space in H.
  - intros H; apply lstrip_empty in H; rewrite H; reflexivity.
Qed.

(** X20: a text counts zero tokens exactly when it consists of whitespace
    only, which is exactly when [strip] leaves nothing of it; and a text
    of n characters counts at most (n + 1) / 2 tokens. *)
Theorem X20_count_tokens_zero_and_bound (text : string) :
  (count_tokens text = 0%Z <-> all_space text = true)
  /\ (strip text = "" <-> all_space text = true)
  /\ (0 <= count_tokens text)%Z
  /\ (2 * count_tokens text <= Z.of_nat (String.length text) + 1)%Z.
Proof.
  rewrite count_tokens_word_count; unfold word_count.
  split; [|split; [apply strip_empty|split]].
  - rewrite <- word_starts_zero; lia.
  - lia.
  - pose proof (proj1 (word_starts_bound text)); lia.
Qed.

Lemma thousandth_monotone n n' :
  (n <= n')%Z -> inject_Z n / 1000 <= inject_Z n' / 1000.
Proof.
  intros H; unfold Qdiv.
  apply Qmult_le_compat_r; [now rewrite <- Zle_Qle | by_computation].
Qed.

Lemma rounded_prices_nonneg : 0 <= round 0.00025 /\ 0 <= round 0.0005.
Proof. split; by_computation. Qed.

Lemma rounded_price_double : round 0.0005 == 2 * round 0.00025.
Proof. vm_compute; reflexivity. Qed.

(** X21: for counts that are not negative, and small enough for the
    divisions to return, the float [estimate_cost] returns is not negative
    and grows, weakly, with either count: no rounding on the way reverses
    an order.  It is zero for no tokens, and it prices an output token at
    exactly twice an input token: [o] output tokens cost what [2 * o]
    input tokens cost, to the last bit. *)
Theorem X21_estimate_cost_order (i o i' o' : Z) :
  (0 <= i <= i')%Z ->
  (0 <= o <= o')%Z ->
  (i' <= 2 ^ 1023)%Z ->
  (o' <= 2 ^ 1023)%Z ->
  (exists c c',
      estimate_cost i o = Ok (Finite c)
      /\ estimate_cost i' o' = Ok (Finite c')
      /\ 0 <= c
      /\ c <= c')
  /\ estimate_cost 0 0 = Ok (Finite 0)
  /\ ((2 * o <= 2 ^ 1023)%Z -> estimate_cost 0 o = estimate_cost (2 * o) 0).
Proof.
  intros [Hi0 Hi] [Ho0 Ho] Hi' Ho'.
  destruct rounded_prices_nonneg as [Hc1 Hc2].
  split; [|split].
  - rewrite !estimate_cost_closed.
    rewrite !division_returns by (rewrite Z.abs_eq; lia).
    eexists; eexists; split; [reflexivity|]; split; [reflexivity|].
    pose proof (proj1 (count_quotient i Hi0)) as Hq1.
    pose proof (proj1 (count_quotient o Ho0)) as Hq2.
    pose proof (thousandth_monotone i i' Hi) as Hle1.
    pose proof (thousandth_monotone o o' Ho) as Hle2.
    pose proof (round_nonneg _ Hq1) as Ha.
    pose proof (round_nonneg _ Hq2) as Hb.
    pose proof (round_monotone _ _ Hq1 Hle1) as Haa.
    pose proof (round_monotone _ _ Hq2 Hle2) as Hbb.
    set (a := round (inject_Z i / 1000)) in *.
    set (b := round (inject_Z o / 1000)) in *.
    set (a' := round (inject_Z i' / 1000)) in *.
    set (b' := round (inject_Z o' / 1000)) in *.
    assert (Hx1 : 0 <= a * round 0.00025) by now apply Qmult_le_0_compat.
    assert (Hx2 : 0 <= b * round 0.0005) by now apply Qmult_le_0_compat.
    assert (Hm1 : a * round 0.00025 <= a' * round 0.00025)
      by now apply Qmult_le_compat_r.
    assert (Hm2 : b * round 0.0005 <= b' * round 0.0005)
      by now apply Qmult_le_compat_r.
    pose proof (round_nonneg _ Hx1) as Hp1.
    pose proof (round_nonneg _ Hx2) as Hp2.
    pose proof (round_monotone _ _ Hx1 Hm1) as Hpp1.
    pose proof (round_monotone _ _ Hx2 Hm2) as Hpp2.
    split; [apply round_nonneg | apply round_monotone]; lra.
  - vm_compute; reflexivity.
  - intros H2o.
    destruct (Z.eq_dec o 0) as [->|Hpos]; [reflexivity|].
    rewrite !estimate_cost_closed.
    rewrite !division_returns by (rewrite Z.abs_eq; lia).
    do 2 f_equal.
    change (round (inject_Z 0 / 1000)) with 0.
    rewrite (round_zero (0 * round 0.00025)) by ring.
    rewrite (round_zero (0 * round 0.0005)) by ring.
    assert (Hq : inject_Z (2 * o) / 1000 == 2 * (inject_Z o / 1000)).
    { rewrite inject_Z_mult; change (inject_Z 2) with 2; field. }
    assert (Hnormal : least_normal <= Qabs (inject_Z o / 1000)).
    { rewrite Qabs_thousandth.
      apply Qle_trans with (1 # 1000); [by_computation|].
      apply Qle_shift_div_l; [reflexivity|].
      assert (1 <= inject_Z (Z.abs o))
        by (change 1 with (inject_Z 1); rewrite <- Zle_Qle; lia).
      lra. }
    rewrite (round_comp _ _ Hq).
    pose proof (round_double _ Hnormal) as Hdouble.
    pose proof rounded_price_double as Hprice.
    set (b := round (inject_Z o / 1000)) in *.
    set (b2 := round (2 * (inject_Z o / 1000))) in *.
    assert (Hprod : b * round 0.0005 == b2 * round 0.00025).
    { rewrite Hprice, Hdouble; ring. }
    rewrite (round_comp _ _ Hprod).
    apply round_comp; ring.
Qed.

Lemma X21_estimate_cost_order_witness :
  (exists c c',
      estimate_cost 10 20 = Ok (Finite c)
      /\ estimate_cost 12 20 = Ok (Finite c')
      /\ 0 <= c
      /\ c <= c')
  /\ estimate_cost 0 20 = estimate_cost 40 0.
Proof.
  assert (Hsmall : (20 <= 2 ^ 1023)%Z) by (vm_compute; discriminate).
  assert (Hsmall' : (12 <= 2 ^ 1023)%Z) by (vm_compute; discriminate).
  assert (Hdouble : (2 * 20 <= 2 ^ 1023)%Z) by (vm_compute; discriminate).
  destruct (X21_estimate_cost_order 10 20 12 20) as (Hle & _ & Htwice);
    [lia | lia | exact Hsmall' | exact Hsmall |].
  split; [exact Hle | exact (Htwice Hdouble)].
Defined.

(** ** setup_chat and terminal_chat *)

Section Terminal.

Variable getenv : string -> option string.
Variable B : backend.

(** The Gemini fields [setup_chat] passes to [ChatConfig]. *)
Lemma setup_chat_run args tr :
  setup_chat getenv B args tr
  = if GeminiConfig_fields_ok
         (mkGeminiConfig "gemini-pro"
                         (attr_or (ns_temperature args) (Finite 0.7))
                         (attr_or (ns_top_p args) (Finite 0.8))
                         (attr_or (ns_top_k args) 40%Z)
                         (attr_or (ns_max_tokens args) 2048%Z) None)
    then
      Chat_new getenv B
               (Some (mkChatConfig
                        "gemini" None
                        (Some (mkGeminiConfig
                                 "gemini-pro"
                                 (attr_or (ns_temperature args) (Finite 0.7))
                                 (attr_or (ns_top_p args) (Finite 0.8))
                                 (attr_or (ns_top_k args) 40%Z)
                                 (attr_or (ns_max_tokens args) 2048%Z)
                                 None))))
               None tr
    else (Raise (validation_error "ChatConfig"), tr).
Proof.
  unfold setup_chat, bind, of_result, ChatConfig_new.
  cbn [in_literal existsb String.eqb Ascii.eqb Bool.eqb andb orb optional_ok
       g_model g_api_key GeminiConfig_default].
  destruct (GeminiConfig_fields_ok _); reflexivity.
Qed.

Lemma blank_line text :
  negb (truthy_str (strip text)) = all_space text.
Proof.
  destruct (all_space text) eqn:Hall.
  - rewrite (proj2 (strip_empty text) Hall); reflexivity.
  - destruct (strip text) eqn:Hstrip; [|reflexivity].
    apply strip_empty in Hstrip; congruence.
Qed.

(** What the body of the loop does with a line once the prompt is
    written. *)
Lemma answer_line_run chat text interrupt out tr :
  answer_line B chat text interrupt (out, tr)
  = if leaves_loop (Line text) then (Ok Break, (out, tr))
    else if all_space text then (Ok Continue, (out, tr))
    else
      let normal :=
        (Ok Continue,
         ((out ++ [(nl ++ "Assistant: ")%string;
                   match fst (Chat_send_message B chat text false tr) with
                   | Ok response => (response ++ nl)%string
                   | Raise e => ((nl ++ "Error: " ++ str e) ++ nl)%string
                   end])%list,
          snd (Chat_send_message B chat text false tr))) in
      match interrupt with
      | Some k =>
          if interrupt_hits B chat text k tr then
            (Ok Break,
             ((out ++ [(nl ++ "Assistant: ")%string])%list,
              (tr ++ firstn (S k) (requests_of_send B chat text tr))%list))
          else normal
      | None => normal
      end.
Proof.
  unfold answer_line; rewrite blank_line; cbn [leaves_loop].
  destruct (all_space text); cbn [negb andb]; [reflexivity|].
  destruct (in_literal (lower text) ["exit"; "quit"; "q"]); [reflexivity|].
  unfold print_error, try_except, bind, print, requesting, ret.
  unfold interruptible_send, interrupt_hits, requests_of_send.
  destruct (Chat_send_message B chat text false tr) as [[response|e] tr'];
    cbn [fst snd]; destruct interrupt as [k|];
    try (destruct (k <? _)%nat);
    rewrite <- ?app_assoc; reflexivity.
Qed.

(** What one pass through the loop does, input by input. *)
Lemma terminal_turn_run chat inp out tr :
  terminal_turn B chat inp (out, tr)
  = match inp with
    | Interrupt => (Ok Break, ((out ++ [prompt])%list, tr))
    | InputError e =>
        (Ok Continue,
         ((out ++ [prompt; ((nl ++ "Error: " ++ str e) ++ nl)%string])%list,
          tr))
    | Line text =>
        if leaves_loop (Line text) then
          (Ok Break, ((out ++ [prompt])%list, tr))
        else if all_space text then
          (Ok Continue, ((out ++ [prompt])%list, tr))
        else
          (Ok Continue,
           ((out ++ [prompt; (nl ++ "Assistant: ")%string;
                     match fst (Chat_send_message B chat text false tr) with
                     | Ok response => (response ++ nl)%string
                     | Raise e => ((nl ++ "Error: " ++ str e) ++ nl)%string
                     end])%list,
            snd (Chat_send_message B chat text false tr)))
    | LineInterrupted text k =>
        if leaves_loop (Line text) then
          (Ok Break, ((out ++ [prompt])%list, tr))
        else if all_space text then
          (Ok Continue, ((out ++ [prompt])%list, tr))
        else if interrupt_hits B chat text k tr then
          (Ok Break,
           ((out ++ [prompt; (nl ++ "Assistant: ")%string])%list,
            (tr ++ firstn (S k) (requests_of_send B chat text tr))%list))
        else
          (Ok Continue,
           ((out ++ [prompt; (nl ++ "Assistant: ")%string;
                     match fst (Chat_send_message B chat text false tr) with
                     | Ok response => (response ++ nl)%string
                     | Raise e => ((nl ++ "Error: " ++ str e) ++ nl)%string
                     end])%list,
            snd (Chat_send_message B chat text false tr)))
    end.
Proof.
  unfold terminal_turn, bind at 1, print at 1.
  destruct inp as [text| |e|text k].
  - change (((nl ++ "You: ") ++ "")%string) with prompt.
    rewrite answer_line_run.
    destruct (leaves_loop (Line text)); [reflexivity|].
    destruct (all_space text); [reflexivity|].
    cbv zeta; rewrite <- app_assoc; reflexivity.
  - reflexivity.
  - unfold print_error, bind, print, ret; rewrite <- app_assoc; reflexivity.
  - change (((nl ++ "You: ") ++ "")%string) with prompt.
    rewrite answer_line_run.
    destruct (leaves_loop (Line text)); [reflexivity|].
    destruct (all_space text); [reflexivity|].
    cbv zeta; destruct (interrupt_hits B chat text k tr);
      rewrite <- app_assoc; reflexivity.
Qed.

Lemma Chat_send_message_extends chat message stream tr :
  exists evs,
    snd (Chat_send_message B chat message stream tr) = (tr ++ evs)%list.
Proof.
  destruct (ChatNew.chat chat) as [session|] eqn:Hchat.
  - rewrite (Chat_send_message_run B chat session message stream tr Hchat).
    rewrite get_chat_response_run.
    destruct (session_reply B tr session message) as [[t|]|e]; cbn [snd];
      eexists; reflexivity.
  - unfold Chat_send_message, try_except, bind; rewrite Hchat.
    exists []; now rewrite app_nil_r.
Qed.

End Terminal.

(** X22: [setup_chat] checks the sampling arguments before anything else
    and never passes a key.  Arguments outside the declared ranges (a
    temperature of 1.5, say) raise the validation error with no request
    made; with valid arguments the manager is built from a configuration
    without explicit key, so the key is the value of GOOGLE_API_KEY: when
    that is unset or empty [setup_chat] raises
    ValueError("No Gemini API key provided") with no request made, and
    [terminal_chat] then raises it before it prompts for any input. *)
Theorem X22_setup_chat_validates_then_uses_environment_key
        (getenv : string -> option string) (B : backend)
        (args : Namespace) (tr : trace) :
  let g :=
    mkGeminiConfig "gemini-pro"
                   (attr_or (ns_temperature args) (Finite 0.7))
                   (attr_or (ns_top_p args) (Finite 0.8))
                   (attr_or (ns_top_k args) 40%Z)
                   (attr_or (ns_max_tokens args) 2048%Z) None in
  (~ gemini_declared g ->
   setup_chat getenv B args tr
   = (Raise (validation_error "ChatConfig"), tr))
  /\ (gemini_declared g ->
      truthy_opt_str (getenv "GOOGLE_API_KEY") = false ->
      setup_chat getenv B args tr
      = (Raise (mkExn ValueError "No Gemini API key provided"), tr)
      /\ forall inputs out,
          terminal_chat getenv B (Some args) inputs (out, tr)
          = (Raise (mkExn ValueError "No Gemini API key provided"),
             (out, tr)))
  /\ (gemini_declared g ->
      forall key,
        key <> "" ->
        getenv "GOOGLE_API_KEY" = Some key ->
        exists rest,
          snd (setup_chat getenv B args tr)
          = (tr ++ Configure key :: rest)%list)
  /\ (forall chat tr',
        setup_chat getenv B args tr = (Ok chat, tr') ->
        config chat = mkChatConfig "gemini" None (Some g)
        /\ system_message chat = None).
Proof.
  intros g.
  pose proof (setup_chat_run getenv B args tr) as Hrun; fold g in Hrun.
  pose proof (GeminiConfig_fields_ok_iff g) as Hok.
  split; [|split; [|split]].
  - intros Hbad; rewrite Hrun.
    destruct (GeminiConfig_fields_ok g); [|reflexivity].
    exfalso; apply Hbad, Hok; reflexivity.
  - intros Hgood Henv.
    rewrite (proj2 Hok Hgood) in Hrun.
    assert (Hsetup : setup_chat getenv B args tr
                     = (Raise (mkExn ValueError
                                     "No Gemini API key provided"), tr)).
    { rewrite Hrun; unfold Chat_new; cbv beta iota zeta.
      rewrite (initialize_chat_no_key
                 getenv B
                 (mkChat (mkChatConfig "gemini" None (Some g)) None None)
                 tr g eq_refl eq_refl); [reflexivity|].
      unfold or_else; cbn [g_api_key g truthy_opt_str]; exact Henv. }
    split; [exact Hsetup|].
    intros inputs out.
    unfold terminal_chat, bind, requesting; cbn [attr_or].
    now rewrite Hsetup.
  - intros Hgood key Hkey Henv; rewrite Hrun, (proj2 Hok Hgood).
    apply (Chat_new_configures_first
             getenv B (mkChatConfig "gemini" None (Some g)) g None tr key);
      try reflexivity.
    + unfold or_else; cbn [g_api_key g truthy_opt_str]; exact Henv.
    + destruct key; [congruence | reflexivity].
  - intros chat tr'; rewrite Hrun.
    destruct (GeminiConfig_fields_ok g); [|discriminate].
    unfold Chat_new.
    destruct (_initialize_chat getenv B _) as [[[]|e] [self1 tr1]] eqn:Hinit;
      [|discriminate].
    intros [= <- <-].
    destruct (initialize_chat_binds _ _ _ _ _ _ Hinit)
      as (g' & n & born & _ & _ & ->).
    split; reflexivity.
Qed.

(** The example of an argument that the parser accepts and the
    configuration refuses. *)
Example setup_chat_hot :
  setup_chat env_google echo
             (mkNamespace (Some (Finite 1.5)) None None None) []
  = (Raise (validation_error "ChatConfig"), []).
Proof. reflexivity. Qed.

(** X23: a blank line (empty, or whitespace only) makes the loop of
    [terminal_chat] ask again: nothing is sent to the backend and nothing
    but the prompt is written.  An exception raised by [input], such as
    EOFError at the end of the input, does not end the loop either: it is
    written as an error and the loop asks again. *)
Theorem X23_terminal_skips_blank_lines
        (B : backend) (chat : Chat) (text : string)
        (rest : list console_input) (out : list string) (tr : trace) :
  all_space text = true ->
  terminal_loop B chat (Line text :: rest) (out, tr)
  = terminal_loop B chat rest ((out ++ [prompt])%list, tr)
  /\ (forall e,
        terminal_loop B chat (InputError e :: rest) (out, tr)
        = terminal_loop
            B chat rest
            ((out ++ [prompt; ((nl ++ "Error: " ++ str e) ++ nl)%string])%list,
             tr)).
Proof.
  intros Hblank; split.
  - cbn [terminal_loop]; unfold bind at 1; rewrite terminal_turn_run.
    cbn [leaves_loop]; rewrite Hblank; reflexivity.
  - intros e; cbn [terminal_loop]; unfold bind at 1.
    rewrite terminal_turn_run; reflexivity.
Qed.

Lemma X23_terminal_skips_blank_lines_witness :
  terminal_loop echo a_chat [Line "   "; Line ""] ([], [])
  = terminal_loop echo a_chat [Line ""] ([prompt], []).
Proof.
  exact (proj1 (X23_terminal_skips_blank_lines
                  echo a_chat "   " [Line ""] [] [] eq_refl)).
Defined.

(** X24: the loop of [terminal_chat] returns on an interrupt and on a line
    whose lower-case form is "exit", "quit" or "q", so whatever the case
    of its letters; it writes only the prompt, sends nothing to the
    backend and reads no further input.  The test is made on the line as
    typed: with a space around it an exit word is an ordinary message. *)
Theorem X24_terminal_exit_words
        (B : backend) (chat : Chat) (text : string)
        (rest : list console_input) (out : list string) (tr : trace) :
  lower text = "exit" \/ lower text = "quit" \/ lower text = "q" ->
  terminal_loop B chat (Line text :: rest) (out, tr)
  = (Ok Returned, ((out ++ [prompt])%list, tr))
  /\ terminal_loop B chat (Interrupt :: rest) (out, tr)
     = (Ok Returned, ((out ++ [prompt])%list, tr)).
Proof.
  intros Hexit.
  assert (Hword : in_literal (lower text) ["exit"; "quit"; "q"] = true)
    by (destruct Hexit as [->|[->| ->]]; reflexivity).
  assert (Hsome : all_space text = false).
  { destruct text as [|c text]; [destruct Hexit as [H|[H|H]]; discriminate|].
    cbn [all_space]; destruct (isspace c) eqn:Hc; [|reflexivity].
    exfalso.
    assert (Hlow : lower_char c = c).
    { unfold lower_char; unfold isspace in Hc.
      destruct ((65 <=? N_of_ascii c) && (N_of_ascii c <=? 90)
                || (192 <=? N_of_ascii c) && (N_of_ascii c <=? 222)
                   && negb (N_of_ascii c =? 215))%N eqn:Hup;
        [|reflexivity].
      exfalso; revert Hc Hup.
      rewrite !orb_true_iff, !andb_true_iff, negb_true_iff.
      rewrite !N.leb_le, !N.eqb_eq, N.eqb_neq; lia. }
    cbn [lower] in Hexit; rewrite Hlow in Hexit.
    destruct Hexit as [H|[H|H]]; injection H as Hc' _; subst c;
      discriminate Hc. }
  split.
  - cbn [terminal_loop]; unfold bind at 1; rewrite terminal_turn_run.
    cbn [leaves_loop]; rewrite Hsome, Hword; reflexivity.
  - cbn [terminal_loop]; unfold bind at 1; rewrite terminal_turn_run.
    reflexivity.
Qed.

Lemma X24_terminal_exit_words_witness :
  terminal_loop echo a_chat [Line "Quit"; Line "hello"] ([], [])
  = (Ok Returned, ([prompt], []))
  /\ terminal_loop echo a_chat [Line "EXIT"] ([], [])
     = (Ok Returned, ([prompt], []))
  /\ leaves_loop (Line " exit") = false.
Proof.
  split; [|split; [|reflexivity]].
  - apply (X24_terminal_exit_words echo a_chat "Quit" [Line "hello"] [] []).
    right; left; reflexivity.
  - apply (X24_terminal_exit_words echo a_chat "EXIT" [] [] []).
    left; reflexivity.
Defined.

(** X25: a line that is neither blank nor an exit word is passed to
    [send_message] exactly as typed, surrounding whitespace included and
    without streaming.  When no [KeyboardInterrupt] arrives during the
    pass, the reply is written after "Assistant: ", and when
    [send_message] raises, the error text is written instead and the loop
    goes on with the next input.  When a [KeyboardInterrupt] arrives while
    a request of [send_message] is in flight, [terminal_chat] returns:
    "Assistant: " is the last thing written, the requests up to the
    interrupted one are the last made, and the later inputs are not read.
    The request to the session is always one that can be interrupted. *)
Theorem X25_terminal_forwards_line
        (B : backend) (chat : Chat) (text : string)
        (rest : list console_input) (out : list string) (tr : trace) :
  all_space text = false ->
  in_literal (lower text) ["exit"; "quit"; "q"] = false ->
  terminal_loop B chat (Line text :: rest) (out, tr)
  = terminal_loop
      B chat rest
      ((out ++ [prompt; (nl ++ "Assistant: ")%string;
                match fst (Chat_send_message B chat text false tr) with
                | Ok response => (response ++ nl)%string
                | Raise e => ((nl ++ "Error: " ++ str e) ++ nl)%string
                end])%list,
       snd (Chat_send_message B chat text false tr))
  /\ (forall session,
        ChatNew.chat chat = Some session ->
        exists evs,
          snd (Chat_send_message B chat text false tr)
          = (tr ++ SendMessage session text :: evs)%list)
  /\ (forall k,
        interrupt_hits B chat text k tr = true ->
        terminal_loop B chat (LineInterrupted text k :: rest) (out, tr)
        = (Ok Returned,
           ((out ++ [prompt; (nl ++ "Assistant: ")%string])%list,
            (tr ++ firstn (S k) (requests_of_send B chat text tr))%list)))
  /\ (forall k,
        interrupt_hits B chat text k tr = false ->
        terminal_loop B chat (LineInterrupted text k :: rest) (out, tr)
        = terminal_loop B chat (Line text :: rest) (out, tr))
  /\ (forall session,
        ChatNew.chat chat = Some session ->
        terminal_loop B chat (LineInterrupted text 0 :: rest) (out, tr)
        = (Ok Returned,
           ((out ++ [prompt; (nl ++ "Assistant: ")%string])%list,
            (tr ++ [SendMessage session text])%list))).
Proof.
  intros Hsome Hword.
  assert (Hsession : forall session,
             ChatNew.chat chat = Some session ->
             exists evs,
               snd (Chat_send_message B chat text false tr)
               = (tr ++ SendMessage session text :: evs)%list).
  { intros session Hchat.
    rewrite (Chat_send_message_run B chat session text false tr Hchat).
    rewrite get_chat_response_run.
    destruct (session_reply B tr session text) as [[t|]|e]; cbn [snd];
      eexists; reflexivity. }
  assert (Hhit : forall k,
             interrupt_hits B chat text k tr = true ->
             terminal_loop B chat (LineInterrupted text k :: rest) (out, tr)
             = (Ok Returned,
                ((out ++ [prompt; (nl ++ "Assistant: ")%string])%list,
                 (tr ++ firstn (S k) (requests_of_send B chat text tr))%list))).
  { intros k Hk.
    cbn [terminal_loop]; unfold bind at 1; rewrite terminal_turn_run.
    cbn [leaves_loop]; rewrite Hsome, Hword, Hk; reflexivity. }
  split; [|split; [exact Hsession|split; [exact Hhit|split]]].
  - cbn [terminal_loop]; unfold bind at 1; rewrite terminal_turn_run.
    cbn [leaves_loop]; rewrite Hsome, Hword; reflexivity.
  - intros k Hk.
    cbn [terminal_loop]; unfold bind; rewrite !terminal_turn_run.
    cbn [leaves_loop]; rewrite Hsome, Hword, Hk; reflexivity.
  - intros session Hchat.
    destruct (Hsession session Hchat) as [evs Hevs].
    assert (Hmade : requests_of_send B chat text tr
                    = SendMessage session text :: evs).
    { unfold requests_of_send; rewrite Hevs.
      rewrite skipn_app, skipn_all, Nat.sub_diag; reflexivity. }
    rewrite Hhit by (unfold interrupt_hits; rewrite Hmade; reflexivity).
    rewrite Hmade; reflexivity.
Qed.

Lemma X25_terminal_forwards_line_witness :
  terminal_loop echo a_chat [Line " exit "; Interrupt] ([], [])
  = (Ok Returned,
     ([prompt; (nl ++ "Assistant: ")%string; ("[ exit ]" ++ nl)%string;
       prompt],
      [SendMessage a_session " exit "]))
  /\ terminal_loop session_lost a_chat
                   [LineInterrupted "hello" 2; Line "more"] ([], [])
     = (Ok Returned,
        ([prompt; (nl ++ "Assistant: ")%string],
         [SendMessage a_session "hello";
          NewModel (bare_model "models/gemini-pro");
          GenerateContent (bare_model "models/gemini-pro") "hello"])).
Proof.
  split.
  - destruct (X25_terminal_forwards_line echo a_chat " exit " [Interrupt]
                                         [] [] eq_refl eq_refl)
      as [Hturn _].
    refine (eq_trans Hturn _); reflexivity.
  - destruct (X25_terminal_forwards_line session_lost a_chat "hello"
                                         [Line "more"] [] [] eq_refl eq_refl)
      as (_ & _ & Hhit & _).
    refine (eq_trans (Hhit 2%nat eq_refl) _); reflexivity.
Defined.

Section TerminalLoop.

Variable B : backend.
Variable chat : Chat.

Lemma terminal_turn_result inp out tr :
  exists t out' tr',
    terminal_turn B chat inp (out, tr)
    = (Ok t, ((out ++ prompt :: out')%list, (tr ++ tr')%list))
    /\ (leaves_loop inp = true -> t = Break /\ out' = [] /\ tr' = [])
    /\ (uninterrupted inp = true ->
        t = if leaves_loop inp then Break else Continue).
Proof.
  rewrite terminal_turn_run.
  destruct inp as [text| |e|text k].
  - destruct (leaves_loop (Line text)) eqn:Hleave.
    + exists Break, [], []; rewrite app_nil_r; repeat split.
    + destruct (all_space text).
      * exists Continue, [], []; rewrite app_nil_r.
        split; [reflexivity | split; [discriminate | reflexivity]].
      * destruct (Chat_send_message_extends B chat text false tr)
          as [evs ->].
        exists Continue; eexists; exists evs.
        split; [reflexivity | split; [discriminate | reflexivity]].
  - exists Break, [], []; rewrite app_nil_r; repeat split.
  - exists Continue; eexists; exists []; rewrite app_nil_r.
    split; [reflexivity | split; [discriminate | reflexivity]].
  - change (leaves_loop (LineInterrupted text k))
      with (leaves_loop (Line text)).
    destruct (leaves_loop (Line text)) eqn:Hleave.
    + exists Break, [], []; rewrite app_nil_r; repeat split.
    + destruct (all_space text).
      * exists Continue, [], []; rewrite app_nil_r.
        split; [reflexivity | split; discriminate].
      * destruct (interrupt_hits B chat text k tr).
        -- exists Break; eexists; eexists.
           split; [reflexivity | split; discriminate].
        -- destruct (Chat_send_message_extends B chat text false tr)
             as [evs ->].
           exists Continue; eexists; exists evs.
           split; [reflexivity | split; discriminate].
Qed.

End TerminalLoop.

(** X26: the loop of [terminal_chat] never raises: whatever the backend
    and the inputs, interrupted requests included, every pass ends in
    asking again or in returning, as long as the writes to the terminal go
    through; and the loop only adds to what was written and to the
    requests made.  It returns when one of the inputs
    is an interrupt of [input] or an exit word, and the inputs after the
    first such input are not read; more generally no input is read once it
    has returned.  When no request is interrupted it returns exactly when
    one of the inputs is an interrupt of [input] or an exit word, and it
    writes the prompt once for every input it reads. *)
Theorem X26_terminal_loop_never_raises
        (B : backend) (chat : Chat) (inputs : list console_input)
        (out : list string) (tr : trace) :
  (exists state out' tr',
      terminal_loop B chat inputs (out, tr)
      = (Ok state, ((out ++ out')%list, (tr ++ tr')%list))
      /\ (existsb leaves_loop inputs = true -> state = Returned)
      /\ (forallb uninterrupted inputs = true ->
          state = (if existsb leaves_loop inputs
                   then Returned else AwaitingInput)
          /\ (List.length (upto_first leaves_loop inputs)
              <= count_occ string_dec out' prompt)%nat))
  /\ (forall pre inp post,
        inputs = (pre ++ inp :: post)%list ->
        leaves_loop inp = true ->
        terminal_loop B chat inputs (out, tr)
        = terminal_loop B chat (pre ++ [inp]) (out, tr))
  /\ (forall pre post,
        inputs = (pre ++ post)%list ->
        fst (terminal_loop B chat pre (out, tr)) = Ok Returned ->
        terminal_loop B chat inputs (out, tr)
        = terminal_loop B chat pre (out, tr)).
Proof.
  split; [|split].
  - revert out tr; induction inputs as [|inp rest IH]; intros out tr.
    + exists AwaitingInput, [], []; rewrite !app_nil_r.
      split; [reflexivity|].
      split; [discriminate|].
      intros _; split; [reflexivity | simpl; lia].
    + cbn [terminal_loop existsb forallb upto_first]; unfold bind at 1.
      destruct (terminal_turn_result B chat inp out tr)
        as (t & out1 & tr1 & -> & Hleave & Hplain).
      destruct t.
      * cbv beta iota.
        destruct (IH (out ++ prompt :: out1)%list (tr ++ tr1)%list)
          as (state & out2 & tr2 & Hloop & Hret & Hexact).
        exists state, (prompt :: out1 ++ out2)%list, (tr1 ++ tr2)%list.
        split.
        { refine (eq_trans Hloop _).
          rewrite <- !app_assoc; reflexivity. }
        destruct (leaves_loop inp) eqn:Hinp.
        { destruct (Hleave eq_refl) as [Habs _]; discriminate. }
        cbn [orb]; split; [exact Hret|].
        intros Hall; apply andb_prop in Hall as [_ Hall].
        destruct (Hexact Hall) as [-> Hcount].
        split; [reflexivity|].
        cbn [count_occ List.length].
        destruct (string_dec prompt prompt); [|contradiction].
        rewrite count_occ_app; lia.
      * exists Returned, (prompt :: out1)%list, tr1.
        split; [reflexivity|].
        split; [reflexivity|].
        intros Hall; apply andb_prop in Hall as [Hinp _].
        specialize (Hplain Hinp).
        destruct (leaves_loop inp); [|discriminate].
        cbn [orb]; split; [reflexivity|].
        cbn [count_occ List.length].
        destruct (string_dec prompt prompt); [lia | contradiction].
  - intros pre inp post -> Hinp; revert out tr.
    induction pre as [|first pre IH]; intros out tr.
    + cbn [app terminal_loop]; unfold bind.
      destruct (terminal_turn_result B chat inp out tr)
        as (t & out1 & tr1 & -> & Hleave & _).
      destruct (Hleave Hinp) as [-> _]; reflexivity.
    + cbn [app terminal_loop]; unfold bind.
      destruct (terminal_turn B chat first (out, tr)) as [[[]|e] [out1 tr1]];
        try reflexivity.
      apply IH.
  - intros pre post ->; revert out tr.
    induction pre as [|first pre IH]; intros out tr.
    + cbn [terminal_loop]; unfold ret; cbn [fst]; discriminate.
    + cbn [app terminal_loop]; unfold bind.
      destruct (terminal_turn B chat first (out, tr)) as [[[]|e] [out1 tr1]];
        try reflexivity.
      apply IH.
Qed.

Lemma X26_terminal_loop_never_raises_witness :
  terminal_loop broken_session a_chat
                [Line "hello"; InputError (mkExn (OtherError "EOFError")
                                                 "EOF when reading a line");
                 Line "q"; Line "more"]
                ([], [])
  = terminal_loop broken_session a_chat
                  [Line "hello"; InputError (mkExn (OtherError "EOFError")
                                                   "EOF when reading a line");
                   Line "q"]
                  ([], [])
  /\ fst (terminal_loop broken_session a_chat
                        [Line "hello"; Line "q"; Line "more"] ([], []))
     = Ok Returned
  /\ terminal_loop session_lost a_chat
                   [LineInterrupted "hello" 0; Line "more"] ([], [])
     = terminal_loop session_lost a_chat [LineInterrupted "hello" 0] ([], []).
Proof.
  split; [|split].
  - apply (proj1 (proj2 (X26_terminal_loop_never_raises
                           broken_session a_chat _ [] []))
                 [Line "hello";
                  InputError (mkExn (OtherError "EOFError")
                                    "EOF when reading a line")]
                 (Line "q") [Line "more"]); reflexivity.
  - destruct (proj1 (X26_terminal_loop_never_raises
                       broken_session a_chat
                       [Line "hello"; Line "q"; Line "more"] [] []))
      as (state & out' & tr' & Hloop & Hret & _).
    refine (eq_trans (f_equal fst Hloop) _); cbn [fst].
    now rewrite (Hret eq_refl).
  - apply (proj2 (proj2 (X26_terminal_loop_never_raises
                           session_lost a_chat _ [] []))
                 [LineInterrupted "hello" 0] [Line "more"]); reflexivity.
Defined.

(** ** Initialization, as a whole *)

Section InitializationRequests.

Variable getenv : string -> option string.
Variable B : backend.

(** What a successful [initialize_gemini] has done. *)
Lemma initialize_gemini_ok_inv key tr tr1 :
  truthy_str key = true ->
  initialize_gemini getenv B (Some key) tr = (Ok tt, tr1) ->
  exists pre n post,
    initialize_model_names = (pre ++ n :: post)%list
    /\ Forall (fun c => probe_ok B c = false) pre
    /\ probe_ok B n = true
    /\ tr1 = (tr ++ Configure key :: ListModels
                  :: flat_map (fun c => generate_events B c probe_prompt)
                              (pre ++ [n]))%list.
Proof.
  intros Htruthy.
  rewrite (initialize_gemini_cases getenv B key tr Htruthy).
  destruct (configure B key) as [[]|e1]; [|discriminate].
  destruct (list_models B) as [models|e2]; [|discriminate].
  destruct (models_truthy models); [|discriminate].
  destruct (models_names models) as [names|e3]; [|discriminate].
  destruct (existsb (probe_ok B) initialize_model_names) eqn:Hprobe;
    [|discriminate].
  intros H; pose proof (f_equal snd H) as Htr; cbn [snd] in Htr.
  destruct (existsb_first _ _ Hprobe) as (pre & n & post & Hsplit & Hpre & Hn).
  exists pre, n, post.
  split; [exact Hsplit|]. split; [exact Hpre|]. split; [exact Hn|].
  rewrite <- Htr, Hsplit.
  now rewrite (upto_first_skips _ pre n post Hpre Hn).
Qed.

Lemma create_events_no_generate cfg safety names :
  Forall (fun ev => is_generate_content ev = false)
         (flat_map (create_events B cfg safety) names).
Proof.
  induction names as [|n names IH]; [constructor|].
  cbn [flat_map]; apply Forall_app; split; [|exact IH].
  unfold create_events; destruct (new_model B _); repeat constructor.
Qed.

End InitializationRequests.

(** C2, as stated, fails twice.  With a backend on which only the last
    candidate of the priority list answers the probe, the probe walk
    succeeds on "models/gemini-2.0-flash-lite", yet the session that
    construction binds is on the requested model "gemini-pro".  And with a
    backend whose first candidate answers the probe with an empty text,
    that candidate passes the probe: the response only has to be truthy. *)
Lemma C2_bound_model_is_not_probe_winner :
  first_that (probe_ok only_flash_lite) initialize_model_names
  = Some "models/gemini-2.0-flash-lite"
  /\ (exists self tr,
        Chat_new env_empty only_flash_lite (Some keyed_gemini) None []
        = (Ok self, tr)
        /\ option_map (fun s => model_name (session_model s)) (chat self)
           = Some "gemini-pro")
  /\ "gemini-pro" <> "models/gemini-2.0-flash-lite"
  /\ generate_content mute_candidates (bare_model "models/gemini-pro")
                      probe_prompt
     = Ok (mkResponse true (Ok ""))
  /\ initialize_gemini env_empty mute_candidates (Some "explicit-key") []
     = (Ok tt,
        [ Configure "explicit-key"; ListModels;
          NewModel (bare_model "models/gemini-pro");
          GenerateContent (bare_model "models/gemini-pro") probe_prompt ]).
Proof.
  split; [reflexivity|].
  split; [eexists; eexists; split; [vm_compute; reflexivity | reflexivity]|].
  split; [discriminate|].
  split; reflexivity.
Qed.

(** C2, amended: during initialization the candidates are probed strictly
    in priority-list order, each with the one trivial prompt, and probing
    stops at the first candidate whose response is truthy (its text is not
    looked at), so no later candidate is probed.  The candidate that
    answered the probe is not kept: the session is bound to the first name
    of the list "requested model, then the priority list" for which a
    session can be created.  This is stated of [initialize_gemini], whose
    requests are the configuration, the listing and these probes, and of a
    constructed manager, whose requests go on with the creation of the
    session and hold no further probe. *)
Theorem C2_probe_in_order_then_bind_requested_first
        (getenv : string -> option string) (B : backend) :
  (forall key models names tr,
     truthy_str key = true ->
     configure B key = Ok tt ->
     list_models B = Ok models ->
     models_truthy models = true ->
     models_names models = Ok names ->
     (forall pre n post,
        initialize_model_names = (pre ++ n :: post)%list ->
        Forall (fun c => probe_ok B c = false) pre ->
        probe_ok B n = true ->
        initialize_gemini getenv B (Some key) tr
        = (Ok tt,
           (tr ++ Configure key :: ListModels
               :: flat_map (fun c => generate_events B c probe_prompt)
                           (pre ++ [n]))%list))
     /\ (Forall (fun c => probe_ok B c = false) initialize_model_names ->
         snd (initialize_gemini getenv B (Some key) tr)
         = (tr ++ Configure key :: ListModels
               :: flat_map (fun c => generate_events B c probe_prompt)
                           initialize_model_names)%list))
  /\ (forall c,
        generate_events B c probe_prompt = [NewModel (bare_model c)]
        \/ generate_events B c probe_prompt
           = [NewModel (bare_model c);
              GenerateContent (bare_model c) "Hello, testing the API."])
  /\ (forall cfg system_message tr self tr',
        Chat_new getenv B cfg system_message tr = (Ok self, tr') ->
        exists key pre n post g bound born rest,
          initialize_model_names = (pre ++ n :: post)%list
          /\ Forall (fun c => probe_ok B c = false) pre
          /\ probe_ok B n = true
          /\ tr' = (tr ++ Configure key :: ListModels
                       :: flat_map
                            (fun c => generate_events B c probe_prompt)
                            (pre ++ [n])
                       ++ rest)%list
          /\ Forall (fun ev => is_generate_content ev = false) rest
          /\ gemini_config (config self) = Some g
          /\ first_that (creatable B (generation_config_of g) None)
                        (g_model g :: initialize_model_names) = Some bound
          /\ chat self
             = Some (mkChatSession
                       (chat_model (generation_config_of g) None bound)
                       born)).
Proof.
  split; [|split].
  - intros key models names tr Hkey Hconf Hlist Htruthy Hnames.
    rewrite (initialize_gemini_run getenv B key models names tr)
      by assumption.
    split.
    + intros pre n post Hsplit Hpre Hn; rewrite Hsplit.
      rewrite (upto_first_skips _ pre n post Hpre Hn).
      rewrite (proj2 (existsb_exists _ _)); [reflexivity|].
      exists n; split; [|exact Hn].
      apply in_or_app; right; now left.
    + intros Hall; cbn [snd]; now rewrite (upto_first_all _ _ Hall).
  - intros c; unfold generate_events.
    destruct (new_model B (bare_model c)); [right | left]; reflexivity.
  - intros cfg system_message tr self tr'; unfold Chat_new.
    set (self0 := mkChat match cfg with
                         | Some c => c
                         | None => ChatConfig_default
                         end system_message None).
    destruct (initialize_chat_reaches_backend getenv B self0 tr)
      as [[e ->]|(Hp & g & key & Hg & Hkey & Htruthy)]; [discriminate|].
    rewrite (initialize_chat_run getenv B self0 tr g key Hp Hg Hkey Htruthy).
    destruct (initialize_gemini getenv B (Some key) tr) as [[[]|e] tr1]
      eqn:Hinit; [|discriminate].
    destruct (initialize_gemini_ok_inv getenv B key tr tr1 Htruthy Hinit)
      as (pre & n & post & Hsplit & Hpre & Hn & ->).
    destruct (get_gemini_chat B (g_model g) (g_temperature g) (g_top_p g)
                              (g_top_k g) (g_max_output_tokens g) None _)
      as [[session|e] tr2] eqn:Hchat; [|discriminate].
    unfold get_gemini_chat in Hchat.
    destruct (chat_loop_ok B _ _ _ _ _ _ _ Hchat)
      as (pre' & bound & post' & Hsplit' & Hpre' & Hbound & Hmodel & _ & ->).
    fold (generation_config_of g) in *.
    assert (Hfirst : first_that (creatable B (generation_config_of g) None)
                                (g_model g :: initialize_model_names)
                     = Some bound).
    { change (g_model g :: initialize_model_names)
        with (chat_model_names (g_model g)).
      rewrite Hsplit'; now apply find_skips. }
    assert (Hsession : session
                       = mkChatSession
                           (chat_model (generation_config_of g) None bound)
                           (session_born session))
      by (destruct session as [m born]; cbn in Hmodel |- *; now rewrite Hmodel).
    cbv zeta; cbn [ChatNew.system_message self0].
    pose proof (create_events_no_generate
                  B (generation_config_of g) None (pre' ++ [bound]))
      as Hcreate.
    destruct system_message as [[|c text]|].
    + intros [= <- <-].
      exists key, pre, n, post, g, bound, (session_born session),
        (flat_map (create_events B (generation_config_of g) None)
                  (pre' ++ [bound])).
      split; [exact Hsplit|]. split; [exact Hpre|]. split; [exact Hn|].
      split; [rewrite <- !app_assoc; reflexivity|].
      split; [exact Hcreate|]. split; [exact Hg|]. split; [exact Hfirst|].
      cbn [chat]; now rewrite Hsession at 1.
    + destruct (send_message B _ session (String c text)); [|discriminate].
      intros [= <- <-].
      exists key, pre, n, post, g, bound, (session_born session),
        (flat_map (create_events B (generation_config_of g) None)
                  (pre' ++ [bound])
           ++ [SendMessage session (String c text)])%list.
      split; [exact Hsplit|]. split; [exact Hpre|]. split; [exact Hn|].
      split; [rewrite <- !app_assoc; reflexivity|].
      split; [apply Forall_app; split;
              [exact Hcreate | constructor; [reflexivity | constructor]]|].
      split; [exact Hg|]. split; [exact Hfirst|].
      cbn [chat]; now rewrite Hsession at 1.
    + intros [= <- <-].
      exists key, pre, n, post, g, bound, (session_born session),
        (flat_map (create_events B (generation_config_of g) None)
                  (pre' ++ [bound])).
      split; [exact Hsplit|]. split; [exact Hpre|]. split; [exact Hn|].
      split; [rewrite <- !app_assoc; reflexivity|].
      split; [exact Hcreate|]. split; [exact Hg|]. split; [exact Hfirst|].
      cbn [chat]; now rewrite Hsession at 1.
Qed.

Lemma C2_probe_in_order_then_bind_requested_first_witness :
  exists self tr' key pre n post g bound born rest,
    Chat_new env_empty only_flash_lite (Some keyed_gemini) None []
    = (Ok self, tr')
    /\ initialize_model_names = (pre ++ n :: post)%list
    /\ Forall (fun c => probe_ok only_flash_lite c = false) pre
    /\ probe_ok only_flash_lite n = true
    /\ tr' = ([] ++ Configure key :: ListModels
                  :: flat_map
                       (fun c => generate_events only_flash_lite c
                                                 probe_prompt)
                       (pre ++ [n])
                  ++ rest)%list
    /\ Forall (fun ev => is_generate_content ev = false) rest
    /\ gemini_config (config self) = Some g
    /\ first_that (creatable only_flash_lite (generation_config_of g) None)
                  (g_model g :: initialize_model_names) = Some bound
    /\ chat self
       = Some (mkChatSession
                 (chat_model (generation_config_of g) None bound) born).
Proof.
  destruct (Chat_new env_empty only_flash_lite (Some keyed_gemini) None [])
    as [[self|e] tr'] eqn:Hnew; [|vm_compute in Hnew; discriminate Hnew].
  destruct (proj2 (proj2 (C2_probe_in_order_then_bind_requested_first
                            env_empty only_flash_lite))
                  _ _ _ _ _ Hnew)
    as (key & pre & n & post & g & bound & born & rest & H).
  exists self, tr', key, pre, n, post, g, bound, born, rest.
  split; [reflexivity | exact H].
Defined.
